(** * molll: log-likelihood models over Morgan fingerprints

    A shallow embedding of [src/molll/molll.py]: the abstract base [BaseLL],
    the fragment-frequency model [AtomLL] and the count-distribution model
    [MolLL], with their fit, scoring, smoothing and save/load code, and of
    the constructors of [src/molll/precomputed/libinventLL.py].

    Modelling conventions.
    - Python [int] is [Z]; Python [float] is idealised as a real number
      [R]. Where the source can only reach a [nan] or an infinity, the
      exception or value Python produces is written out; the power
      [atom_count ** alpha] raises or vanishes outside the range of a
      double ([Py.pow]). Rounding is left out, except where it decides an
      integer: the ceiling taken by the smoothing pass is modelled a second
      time with the rounding error of the double computation as a
      parameter ([Float64]).
    - A [dict], [Counter] or [defaultdict] is a [gmap]; iteration order is
      the map's own, which the integer and real sums computed here do not
      observe.
    - Exceptions are the [Raise] case of [result]; a method that assigns to
      [self] takes the object and returns the updated object. *)

From Stdlib Require Import Reals Lra Lia ZArith String Ascii.
From Stdlib Require Import DecimalString DecimalZ.
From stdpp Require Import gmap strings list fin_maps.

Open Scope Z_scope.

(** ** Exceptions *)

Inductive exn : Type :=
  | AssertionError
  | ZeroDivisionError
  | ValueError
  | TypeError
  | AttributeError
  | OverflowError.

Inductive result (A : Type) : Type :=
  | Ok (a : A)
  | Raise (e : exn).

Arguments Ok {A} a.
Arguments Raise {A} e.

#[export] Instance result_ret : MRet result := @Ok.
#[export] Instance result_bind : MBind result :=
  λ A B f m, match m with Ok a => f a | Raise e => Raise e end.
#[export] Instance result_fmap : FMap result :=
  λ A B f m, match m with Ok a => Ok (f a) | Raise e => Raise e end.

Definition is_Ok {A} (r : result A) : Prop := ∃ a, r = Ok a.

(** ** Python and numpy arithmetic on idealised floats *)

Module Py.

Definition Rltb (x y : R) : bool := if Rlt_dec x y then true else false.
Definition Reqb (x y : R) : bool := if Req_dec_T x y then true else false.

(** [math.log]: a "math domain error" outside the positive reals. *)
Definition math_log (x : R) : result R :=
  if Rltb 0 x then Ok (ln x) else Raise ValueError.

(** [x / y] on floats. *)
Definition truediv (x y : R) : result R :=
  if Reqb y 0 then Raise ZeroDivisionError else Ok (x / y)%R.

(** The largest finite double, [(2 - 2 ** -52) * 2 ** 1023]. *)
Definition DBL_MAX : R := IZR (2 ^ 1024 - 2 ^ 971).

(** Below half the smallest positive double a result rounds to [0.0]. *)
Definition DBL_UNDERFLOW : R := / IZR (2 ^ 1075).

(** [n ** a] for a non-negative [int] base and a [float] exponent: [0 ** 0]
    is [1], [0] to a positive power is [0], and [0] to a negative power
    raises. A positive base is first converted to a double
    ([OverflowError] when it is too large); a power beyond the largest
    double raises [OverflowError], and one too small for a double is
    [0.0]. *)
Definition pow (n : N) (a : R) : result R :=
  match n with
  | N0 => if Rltb a 0 then Raise ZeroDivisionError
          else if Reqb a 0 then Ok 1%R else Ok 0%R
  | Npos p =>
      if Rltb DBL_MAX (IZR (Zpos p)) then Raise OverflowError
      else if Rltb DBL_MAX (Rpower (IZR (Zpos p)) a) then Raise OverflowError
      else if Rltb (Rpower (IZR (Zpos p)) a) DBL_UNDERFLOW then Ok 0%R
      else Ok (Rpower (IZR (Zpos p)) a)
  end.

(** [math.ceil] of a finite float. *)
Definition math_ceil (x : R) : Z := 1 - up (- x).

(** [np.mean] of a one-dimensional array. *)
Definition np_mean (l : list R) : R :=
  (foldr Rplus 0 l / INR (length l))%R.

(** [math.ceil(np.exp(np.mean(np.log(values))))]. [np.log] of a negative
    entry is [nan], which reaches [math.ceil] and raises; [np.log(0)] is
    [-inf], whose mean is [-inf] and whose exponential is [0.0]. *)
Definition ceil_exp_mean_log (values : list R) : result Z :=
  if existsb (λ x, Rltb x 0) values then Raise ValueError
  else if existsb (λ x, Reqb x 0) values then Ok 0
  else Ok (math_ceil (exp (np_mean (ln <$> values)))).

(** [max] of a non-empty iterable of ints; [ValueError] on an empty one. *)
Definition max (l : list Z) : result Z :=
  match l with
  | [] => Raise ValueError
  | x :: l' => Ok (foldl Z.max x l')
  end.

(** [range(lo, hi)]. *)
Definition range (lo hi : Z) : list Z := seqZ lo (hi - lo).

(** [str] of an int, as [json.dump] writes a dict key. *)
Definition str (z : Z) : string := NilZero.string_of_int (Z.to_int z).

(** [int] of a decimal literal: an optional minus sign and digits. The
    laxer forms Python also reads (blanks around, a plus sign,
    underscores) are not produced by [str] and are rejected here. *)
Definition int_of_str (s : string) : result Z :=
  match NilZero.int_of_string s with
  | Some d => Ok (Z.of_int d)
  | None => Raise ValueError
  end.

End Py.

(** ** Counters and dictionary keys *)

(** [collections.Counter] over int keys: a missing key reads as [0] and the
    read does not insert it. *)
Definition Counter_get (c : gmap Z Z) (k : Z) : Z := default 0 (c !! k).

(** [counter.update([k])]: one more observation of [k]. *)
Definition Counter_incr (c : gmap Z Z) (k : Z) : gmap Z Z :=
  <[k := Counter_get c k + 1]> c.

(** [counter.update(mapping)]: add the mapping's counts key by key. *)
Definition Counter_update (c : gmap Z Z) (m : gmap Z positive) : gmap Z Z :=
  map_fold (λ k v acc, <[k := Counter_get acc k + Z.pos v]> acc) c m.

(** A key of a saved dict: an int when the dict comes straight from the
    model, a string once it has been through JSON. *)
Definition pykey : Type := Z + string.

(** [int(key)] for a key that is already an int or still a string. *)
Definition int_of_key (k : pykey) : result Z :=
  match k with
  | inl z => Ok z
  | inr s => Py.int_of_str s
  end.

(** A key of [MolLL._key_data]: a fragment identifier (an int), or the
    string ["SampleObservationSum"] under which the totals per molecule are
    counted. *)
Inductive molkey : Type :=
  | Fragment (z : Z)
  | SampleObservationSum.

#[export] Instance molkey_eq_dec : EqDecision molkey.
Proof. solve_decision. Defined.

#[export] Instance molkey_countable : Countable molkey :=
  inj_countable'
    (λ k, match k with Fragment z => Some z | SampleObservationSum => None end)
    (λ o, match o with Some z => Fragment z | None => SampleObservationSum end)
    (λ k, match k with Fragment _ => eq_refl | SampleObservationSum => eq_refl end).

(** The key as Python has it. *)
Definition key_to_py (k : molkey) : pykey :=
  match k with
  | Fragment z => inl z
  | SampleObservationSum => inr "SampleObservationSum"%string
  end.

(** [defaultdict(lambda: Counter())]: reading a missing key stores a fresh
    empty counter under it and returns that counter. *)
Definition defaultdict_get (d : gmap molkey (gmap Z Z)) (k : molkey)
  : gmap Z Z * gmap molkey (gmap Z Z) :=
  match d !! k with
  | Some c => (c, d)
  | None => (∅, <[k := ∅]> d)
  end.

(** [d[k].update([count])] on such a defaultdict. *)
Definition defaultdict_incr (d : gmap molkey (gmap Z Z)) (k : molkey) (count : Z)
  : gmap molkey (gmap Z Z) :=
  let '(c, d') := defaultdict_get d k in
  <[k := Counter_incr c count]> d'.

(** ** Molecules and fingerprints *)

(** [fp.GetNonzeroElements()]: fragment identifier to its (non-zero)
    number of occurrences. *)
Abbreviation fingerprint := (gmap Z positive).

(** A molecule is known to the models only through the fingerprint the
    toolkit extracts from it at a given radius. *)
Definition Mol : Type := Z → fingerprint.

(** [sum(fp.values())]. *)
Definition sum_values (fp : fingerprint) : N :=
  map_fold (λ _ v acc, acc + Npos v)%N 0%N fp.

(** ** The model object ([BaseLL.__init__]) *)

(** The attributes of a model instance. [KD] is the type of the fitted
    statistics a concrete class keeps in [_key_data]; [None] is the value
    the constructor leaves there. [class_name] is [self.__class__.__name__]. *)
Record BaseLL (KD : Type) : Type := mkLL {
  class_name : string;
  smoothing : R;
  estimated_keyspace : R;
  alpha : R;
  _radius : Z;
  _key_data : option KD;
  _n_observations : Z
}.

Arguments mkLL {KD}.
Arguments class_name {KD}.
Arguments smoothing {KD}.
Arguments estimated_keyspace {KD}.
Arguments alpha {KD}.
Arguments _radius {KD}.
Arguments _key_data {KD}.
Arguments _n_observations {KD}.

Definition __init__ {KD} (cls : string) (smoothing estimated_keyspace alpha : R)
    (radius : Z) : BaseLL KD :=
  mkLL cls smoothing estimated_keyspace alpha radius None 0.

Definition set_key_data {KD} (self : BaseLL KD) (kd : KD) : BaseLL KD :=
  mkLL (class_name self) (smoothing self) (estimated_keyspace self)
       (alpha self) (_radius self) (Some kd) (_n_observations self).

Definition set_n_observations {KD} (self : BaseLL KD) (n : Z) : BaseLL KD :=
  mkLL (class_name self) (smoothing self) (estimated_keyspace self)
       (alpha self) (_radius self) (_key_data self) n.

(** A method: it may raise, and it may assign to [self]; what it assigned
    before raising stays assigned. *)
Definition method (KD A : Type) : Type := BaseLL KD → result A * BaseLL KD.

#[export] Instance method_ret {KD} : MRet (method KD) :=
  λ A a self, (Ok a, self).
#[export] Instance method_bind {KD} : MBind (method KD) :=
  λ A B k m self,
    match m self with
    | (Ok a, self') => k a self'
    | (Raise e, self') => (Raise e, self')
    end.

(** A computation that only reads. *)
Definition pure_call {KD A} (r : result A) : method KD A := λ self, (r, self).

(** [self._get_fp(mol)] *)
Definition _get_fp {KD} (self : BaseLL KD) (mol : Mol) : fingerprint :=
  mol (_radius self).

(** The Laplace-smoothed likelihood both models compute in their loop:
    [(count + self.smoothing) /
     (self._n_observations + self.estimated_keyspace * self.smoothing)]. *)
Definition likelihood {KD} (self : BaseLL KD) (count : Z) : result R :=
  Py.truediv (IZR count + smoothing self)
             (IZR (_n_observations self)
              + estimated_keyspace self * smoothing self).

(** One pass of the body shared by the two scoring loops, after the
    statistic has been read:
    [ll += math.log(likelihood) * num_atoms; atom_count += num_atoms]. *)
Definition accumulate {KD} (self : BaseLL KD) (stat_count : Z) (num_atoms : N)
    (acc : R * N) : result (R * N) :=
  let '(ll, atom_count) := acc in
  lik ← likelihood self stat_count;
  l ← Py.math_log lik;
  Ok ((ll + l * IZR (Z.of_N num_atoms))%R, (atom_count + num_atoms)%N).

(** [ll / (atom_count ** self.alpha)] *)
Definition correct_for_atoms {KD} (self : BaseLL KD) (acc : R * N) : result R :=
  let '(ll, atom_count) := acc in
  d ← Py.pow atom_count (alpha self);
  Py.truediv ll d.

(** ** Saved dictionaries *)

(** The value under ["_key_data"]: [{key: count}] for [AtomLL] and
    [{key: {count: observations}}] for [MolLL], as lists of items. Keys are
    ints when the dict comes straight from [get_savedict] and strings once
    it has been through JSON. *)
Inductive keydata_dict : Type :=
  | FlatDict (items : list (pykey * Z))
  | NestedDict (items : list (pykey * list (pykey * Z))).

Record savedict : Type := mkSave {
  sd_Model : string;
  sd_smoothing : R;
  sd_estimated_keyspace : R;
  sd_alpha : R;
  sd__radius : Z;
  sd__n_observations : Z;
  sd__key_data : keydata_dict
}.

(** What [json.dump] followed by [json.load] does to a dict key. *)
Definition json_key (k : pykey) : pykey :=
  match k with
  | inl z => inr (Py.str z)
  | inr s => inr s
  end.

Definition json_keydata (d : keydata_dict) : keydata_dict :=
  match d with
  | FlatDict items => FlatDict (map (prod_map json_key (λ v : Z, v)) items)
  | NestedDict items =>
      NestedDict
        (map (prod_map json_key (map (prod_map json_key (λ v : Z, v)))) items)
  end.

(** [json.load] of what [json.dump] wrote ([save] then [load], without the
    file): numbers and strings come back as they were, dict keys as strings. *)
Definition json_roundtrip (sd : savedict) : savedict :=
  mkSave (sd_Model sd) (sd_smoothing sd) (sd_estimated_keyspace sd)
         (sd_alpha sd) (sd__radius sd) (sd__n_observations sd)
         (json_keydata (sd__key_data sd)).

(** [{int(key): value for key, value in d.items()}] *)
Definition int_keyed (items : list (pykey * Z)) : result (gmap Z Z) :=
  foldl (λ acc '(key, value),
           d ← acc; k ← int_of_key key; Ok (<[k := value]> d))
        (Ok ∅) items.

(** ** The abstract methods *)

Class LLModel (KD : Type) : Type := {
  _get_keydata_as_dict : BaseLL KD → result keydata_dict;
  _set_keydata_from_dict : keydata_dict → method KD ();
  calculate_ll : Mol → method KD R;
  fit : list Mol → method KD ()
}.

(** ** [BaseLL]: the concrete methods *)

Definition get_savedict `{LLModel KD} (self : BaseLL KD) : result savedict :=
  kd ← _get_keydata_as_dict self;
  Ok (mkSave (class_name self) (smoothing self) (estimated_keyspace self)
             (alpha self) (_radius self) (_n_observations self) kd).

Definition set_savedict `{LLModel KD} (sd : savedict) : method KD () :=
  λ self,
    if decide (sd_Model sd = class_name self) then
      _set_keydata_from_dict (sd__key_data sd)
        (mkLL (class_name self) (sd_smoothing sd) (sd_estimated_keyspace sd)
              (sd_alpha sd) (sd__radius sd) (_key_data self)
              (sd__n_observations sd))
    else (Raise AssertionError, self).

Definition calculate_lls `{LLModel KD} (mols : list Mol) : method KD (list R) :=
  mapM calculate_ll mols.

(** ** [AtomLL]: how often each fragment was seen *)

Module AtomLL.

(** [self._n_observations = sum(self._key_data.values())] *)
Definition _calculate_observations : method (gmap Z Z) () := λ self,
  match _key_data self with
  | None => (Raise AttributeError, self)
  | Some kd =>
      (Ok (), set_n_observations self (map_fold (λ _ v acc, acc + v) 0 kd))
  end.

Definition fit (mols : list Mol) : method (gmap Z Z) () := λ self,
  let kd := foldl (λ kd mol, Counter_update kd (_get_fp self mol)) ∅ mols in
  _calculate_observations (set_key_data self kd).

Definition observed_keyspace (self : BaseLL (gmap Z Z)) : result nat :=
  match _key_data self with
  | None => Raise TypeError
  | Some kd => Ok (size kd)
  end.

(** [dict(self._key_data)] *)
Definition _get_keydata_as_dict (self : BaseLL (gmap Z Z))
  : result keydata_dict :=
  match _key_data self with
  | None => Raise TypeError
  | Some kd => Ok (FlatDict (map (prod_map inl (λ v : Z, v)) (map_to_list kd)))
  end.

(** [Counter({int(key): value for key, value in keydict.items()})]. A
    nested dict is not what this class saves: its keys still go through
    [int]. Were they all ints, Python would store the inner dicts as counts
    and return, and the first sum with such a count would raise
    [TypeError]; counts are integers here, so there is no such state, and
    that [TypeError] is reported at once. What is stated below about
    loading into this class is stated for flat dicts. *)
Definition _set_keydata_from_dict (keydict : keydata_dict)
  : method (gmap Z Z) () := λ self,
  match keydict with
  | FlatDict items =>
      match int_keyed items with
      | Ok d => (Ok (), set_key_data self d)
      | Raise e => (Raise e, self)
      end
  | NestedDict [] => (Ok (), set_key_data self ∅)
  | NestedDict items =>
      match int_keyed (map (prod_map (λ k : pykey, k) (λ _, 0)) items) with
      | Ok _ => (Raise TypeError, self)
      | Raise e => (Raise e, self)
      end
  end.

(** [stat_count = self._key_data[key]]: a [Counter] read. *)
Definition stat_count (self : BaseLL (gmap Z Z)) (key : Z) : result Z :=
  match _key_data self with
  | None => Raise TypeError
  | Some kd => Ok (Counter_get kd key)
  end.

Definition calculate_ll (mol : Mol) : method (gmap Z Z) R := λ self,
  let fp := _get_fp self mol in
  (acc ← foldl (λ acc '(key, num_atoms),
                  a ← acc;
                  c ← stat_count self key;
                  accumulate self c (Npos num_atoms) a)
               (Ok (0%R, 0%N)) (map_to_list fp);
   correct_for_atoms self acc,
   self).

End AtomLL.

#[export] Instance AtomLL_model : LLModel (gmap Z Z) := {
  _get_keydata_as_dict := AtomLL._get_keydata_as_dict;
  _set_keydata_from_dict := AtomLL._set_keydata_from_dict;
  calculate_ll := AtomLL.calculate_ll;
  fit := AtomLL.fit
}.

(** ** [MolLL]: how often each fragment was seen how many times per molecule *)

Module MolLL.

(** The body of the loop over molecules in [fit]. *)
Definition count_mol (kd : gmap molkey (gmap Z Z)) (fp : fingerprint)
  : gmap molkey (gmap Z Z) :=
  let kd' := map_fold (λ key count kd,
                         defaultdict_incr kd (Fragment key) (Z.pos count)) kd fp in
  defaultdict_incr kd' SampleObservationSum (Z.of_N (sum_values fp)).

(** The double loop of [_calculate_observations]. *)
Definition n_observations (kd : gmap molkey (gmap Z Z)) : Z :=
  map_fold (λ _ counter n,
              map_fold (λ count specific_obs n, n + count * specific_obs)
                       n counter)
           0 kd.

Definition _calculate_observations : method (gmap molkey (gmap Z Z)) () :=
  λ self,
  match _key_data self with
  | None => (Raise AttributeError, self)
  | Some kd => (Ok (), set_n_observations self (n_observations kd))
  end.

Definition observed_keyspace (self : BaseLL (gmap molkey (gmap Z Z)))
  : result nat :=
  match _key_data self with
  | None => Raise AttributeError
  | Some kd => Ok (map_fold (λ _ counter n, (n + size counter)%nat) 0%nat kd)
  end.

(** The body of the loop in [_smooth_counter]. *)
Definition smooth_key (counter : gmap Z Z) (acc : result (gmap Z Z)) (key : Z)
  : result (gmap Z Z) :=
  smoothed_counter ← acc;
  let neighbor_values :=
    map (λ v, IZR v + 0.15)%R
        [Counter_get counter (key - 1); Counter_get counter key;
         Counter_get counter (key + 1)] in
  geometric_mean ← Py.ceil_exp_mean_log neighbor_values;
  Ok (<[key := geometric_mean]> smoothed_counter).

Definition _smooth_counter (counter : gmap Z Z) : result (gmap Z Z) :=
  let smoothed_counter := <[1 := Counter_get counter 1]> ∅ in
  top ← Py.max (map fst (map_to_list counter));
  foldl (smooth_key counter) (Ok smoothed_counter) (Py.range 2 (top + 1)).

(** [for key, counter in items: self._key_data[key] = smooth(counter)].
    Should a counter fail to smooth, Python leaves the counters before it
    smoothed; the model then keeps [self] as it was. [fit] never gets
    there (see [MolLL_fit_eq]). *)
Definition _smooth_all_counters : method (gmap molkey (gmap Z Z)) () :=
  λ self,
  match _key_data self with
  | None => (Raise AttributeError, self)
  | Some kd =>
      match map_fold (λ key counter acc,
                        d ← acc; s ← _smooth_counter counter;
                        Ok (<[key := s]> d))
                     (Ok kd) kd with
      | Ok d => (Ok (), set_key_data self d)
      | Raise e => (Raise e, self)
      end
  end.

Definition fit (mols : list Mol) : method (gmap molkey (gmap Z Z)) () :=
  λ self,
  let kd := foldl (λ kd mol, count_mol kd (_get_fp self mol)) ∅ mols in
  (_calculate_observations ≫= λ _, _smooth_all_counters)
    (set_key_data self kd).

(** [{key: dict(counter) for key, counter in self._key_data.items()}] *)
Definition _get_keydata_as_dict (self : BaseLL (gmap molkey (gmap Z Z)))
  : result keydata_dict :=
  match _key_data self with
  | None => Raise AttributeError
  | Some kd =>
      Ok (NestedDict
            (map (prod_map key_to_py
                           (λ c : gmap Z Z,
                              map (prod_map inl (λ v : Z, v)) (map_to_list c)))
                 (map_to_list kd)))
  end.

(** [if fpkey != "SampleObservationSum": fpkey = int(fpkey)] *)
Definition restore_key (fpkey : pykey) : result molkey :=
  if decide (fpkey = inr "SampleObservationSum"%string)
  then Ok SampleObservationSum
  else Fragment <$> int_of_key fpkey.

(** The loop of [_set_keydata_from_dict] over [keydata.items()]. *)
Definition restore (items : list (pykey * list (pykey * Z)))
  : result (gmap molkey (gmap Z Z)) :=
  foldl (λ acc '(fpkey, counterdict),
           key_data_object ← acc;
           fpkey ← restore_key fpkey;
           counterdict ← int_keyed counterdict;
           Ok (<[fpkey := counterdict]> key_data_object))
        (Ok ∅) items.

(** A flat dict is not what this class saves: the first value is an int,
    which has no [items]. *)
Definition _set_keydata_from_dict (keydata : keydata_dict)
  : method (gmap molkey (gmap Z Z)) () := λ self,
  match keydata with
  | NestedDict items =>
      match restore items with
      | Ok d => (Ok (), set_key_data self d)
      | Raise e => (Raise e, self)
      end
  | FlatDict [] => (Ok (), set_key_data self ∅)
  | FlatDict ((fpkey, _) :: _) =>
      match restore_key fpkey with
      | Ok _ => (Raise AttributeError, self)
      | Raise e => (Raise e, self)
      end
  end.

(** One pass of the scoring loop: [self._key_data[key][counts]] reads the
    [defaultdict], then the [Counter]. *)
Definition score_pair (key : molkey) (counts : N) (acc : R * N)
  : method (gmap molkey (gmap Z Z)) (R * N) := λ self,
  match _key_data self with
  | None => (Raise TypeError, self)
  | Some kd =>
      let '(counter, kd') := defaultdict_get kd key in
      let self' := set_key_data self kd' in
      (accumulate self' (Counter_get counter (Z.of_N counts)) counts acc,
       self')
  end.

(** [list(fp.items()) + [("SampleObservationSum", sum(fp.values()))]] *)
Definition scored_pairs (fp : fingerprint) : list (molkey * N) :=
  map (prod_map Fragment Npos) (map_to_list fp)
  ++ [(SampleObservationSum, sum_values fp)].

Definition calculate_ll (mol : Mol) : method (gmap molkey (gmap Z Z)) R :=
  λ self,
  let fp := _get_fp self mol in
  (acc ← foldl (λ m '(key, counts), a ← m; score_pair key counts a)
               (mret (0%R, 0%N)) (scored_pairs fp);
   pure_call (correct_for_atoms self acc)) self.

End MolLL.

#[export] Instance MolLL_model : LLModel (gmap molkey (gmap Z Z)) := {
  _get_keydata_as_dict := MolLL._get_keydata_as_dict;
  _set_keydata_from_dict := MolLL._set_keydata_from_dict;
  calculate_ll := MolLL.calculate_ll;
  fit := MolLL.fit
}.

(** ** The smoothing pass over the integers

    [ceil (exp (mean (log [a + 0.15; b + 0.15; c + 0.15])))] is the least
    [n] whose cube reaches the product of the three values; with
    [x + 0.15 = (20 x + 3) / 20] that is a comparison of integers, and the
    smoothing pass can be run. [smooth_counter_exec] below proves the two
    agree. *)

Module Exec.

(** The least [n] at or above the start with [p <= 8000 * n ^ 3], looking
    no further than [fuel] steps. *)
Fixpoint first_cube_above (fuel : nat) (n p : Z) : Z :=
  match fuel with
  | O => n
  | S fuel' =>
      if p <=? 8000 * n ^ 3 then n else first_cube_above fuel' (n + 1) p
  end.

Definition scaled_product (a b c : Z) : Z :=
  (20 * a + 3) * (20 * b + 3) * (20 * c + 3).

Definition ceil_geomean (a b c : Z) : result Z :=
  if (a <? 0) || (b <? 0) || (c <? 0) then Raise ValueError
  else Ok (first_cube_above (Z.to_nat (Z.max a (Z.max b c))) 1
                            (scaled_product a b c)).

Definition smooth_key (counter : gmap Z Z) (acc : result (gmap Z Z)) (key : Z)
  : result (gmap Z Z) :=
  smoothed_counter ← acc;
  geometric_mean ← ceil_geomean (Counter_get counter (key - 1))
                                (Counter_get counter key)
                                (Counter_get counter (key + 1));
  Ok (<[key := geometric_mean]> smoothed_counter).

Definition _smooth_counter (counter : gmap Z Z) : result (gmap Z Z) :=
  let smoothed_counter := <[1 := Counter_get counter 1]> ∅ in
  top ← Py.max (map fst (map_to_list counter));
  foldl (smooth_key counter) (Ok smoothed_counter) (Py.range 2 (top + 1)).

Definition smoothed (counter : gmap Z Z) : gmap Z Z :=
  match _smooth_counter counter with
  | Ok s => s
  | Raise _ => ∅
  end.

End Exec.

(** ** What the specification calls things *)

(** The geometric mean of three positive reals, as the cube root of their
    product. *)
Definition geometric_mean3 (x y z : R) : R := Rpower (x * y * z) (1 / 3).

(** [np.exp(np.mean(np.log([x, y, z])))], the source's way to it. *)
Definition exp_mean_log3 (x y z : R) : R :=
  exp (Py.np_mean (ln <$> [x; y; z])).

(** [sum(count * frequency)] over the entries of one inner mapping. *)
Definition counter_total (counter : gmap Z Z) : Z :=
  foldr Z.add 0 (map (λ '(count, freq), count * freq) (map_to_list counter)).

(** [sum(count * frequency)] over every entry of every inner mapping. *)
Definition weighted_total (kd : gmap molkey (gmap Z Z)) : Z :=
  foldr Z.add 0 (map (λ '(_, counter), counter_total counter) (map_to_list kd)).

(** The statistics [MolLL.fit] has gathered before it smooths them. *)
Definition raw_key_data (radius : Z) (mols : list Mol)
  : gmap molkey (gmap Z Z) :=
  foldl (λ kd mol, MolLL.count_mol kd (mol radius)) ∅ mols.

(** The counts [AtomLL.fit] gathers. *)
Definition atom_key_data (radius : Z) (mols : list Mol) : gmap Z Z :=
  foldl (λ kd mol, Counter_update kd (mol radius)) ∅ mols.

(** The smoothed frequency the specification gives a count from 2 up: the
    ceiling of the geometric mean of the three neighbouring raw
    frequencies (0 if absent), each raised by 0.15. *)
Definition smoothed_value (counter : gmap Z Z) (count : Z) : Z :=
  Py.math_ceil
    (geometric_mean3 (IZR (Counter_get counter (count - 1)) + 0.15)
                     (IZR (Counter_get counter count) + 0.15)
                     (IZR (Counter_get counter (count + 1)) + 0.15)).

(** The histogram [{1: 5, 2: 0, 3: 1}] of the specification's scenario. *)
Definition scenario_histogram : gmap Z Z := {[1 := 5; 2 := 0; 3 := 1]}.

(** What every counter gathered by [MolLL.fit] satisfies before smoothing:
    it is not empty, its counts are not negative and each was seen at
    least once. *)
Definition raw_ok (counter : gmap Z Z) : Prop :=
  counter ≠ ∅ ∧ map_Forall (λ count freq, 0 <= count ∧ 1 <= freq) counter.

(** The smoothed counter, where the smoothing pass returns one. *)
Definition smoothed (counter : gmap Z Z) : gmap Z Z :=
  match MolLL._smooth_counter counter with
  | Ok s => s
  | Raise _ => ∅
  end.

(** The statistic [MolLL.calculate_ll] reads for a pair, as a lookup that
    stores nothing: 0 when the key or the count is absent. *)
Definition MolLL_stat (kd : gmap molkey (gmap Z Z)) (key : molkey) (counts : N)
  : Z :=
  Counter_get (default ∅ (kd !! key)) (Z.of_N counts).

(** One pass of the scoring loop of [MolLL] with that lookup. *)
Definition MolLL_read_pair (self : BaseLL (gmap molkey (gmap Z Z)))
    (acc : result (R * N)) (pair : molkey * N) : result (R * N) :=
  a ← acc;
  match _key_data self with
  | None => Raise TypeError
  | Some kd => accumulate self (MolLL_stat kd pair.1 pair.2) pair.2 a
  end.

(** The score of [MolLL] as a function of the model that only reads it. *)
Definition MolLL_score (self : BaseLL (gmap molkey (gmap Z Z))) (mol : Mol)
  : result R :=
  acc ← foldl (MolLL_read_pair self) (Ok (0%R, 0%N))
              (MolLL.scored_pairs (_get_fp self mol));
  correct_for_atoms self acc.

(** The statistics after the reads of a scoring loop over [pairs]: every
    key read is present, with an empty counter if it was not there. *)
Definition after_reads (kd : gmap molkey (gmap Z Z)) (pairs : list (molkey * N))
  : gmap molkey (gmap Z Z) :=
  foldl (λ d pair, snd (defaultdict_get d (fst pair))) kd pairs.

(** Two [MolLL] objects no read can tell apart: the same attributes, and
    statistics that differ at most in keys holding an empty counter. *)
Definition same_reads (self self' : BaseLL (gmap molkey (gmap Z Z))) : Prop :=
  class_name self = class_name self'
  ∧ smoothing self = smoothing self'
  ∧ estimated_keyspace self = estimated_keyspace self'
  ∧ alpha self = alpha self'
  ∧ _radius self = _radius self'
  ∧ _n_observations self = _n_observations self'
  ∧ match _key_data self, _key_data self' with
    | None, None => True
    | Some kd, Some kd' => ∀ key, default ∅ (kd !! key) = default ∅ (kd' !! key)
    | _, _ => False
    end.

(** A frequency model whose estimated keyspace is 0, and a training set of
    one molecule whose only fragment occurs once. *)
Definition keyspace0_AtomLL : BaseLL (gmap Z Z) :=
  __init__ "AtomLL" 0.1 0 1 1.

Definition once : Mol := λ _, {[1 := 1%positive]}.

(** A molecule from which the toolkit extracts no fragment at all, and one
    whose only fragment (9) occurs in no training set used below. *)
Definition no_fragments : Mol := λ _, ∅.

Definition unseen : Mol := λ _, {[9 := 1%positive]}.

(** The frequency model of the scenario as [save] writes it, once read
    back by [json.load]: the fragment keys are text. *)
Definition scenario_record : savedict :=
  mkSave "AtomLL" 0.1 10 0 1 7
         (FlatDict [(inr "1"%string, 3); (inr "2"%string, 1);
                    (inr "3"%string, 3)]).

(** The two models of the scenarios, fitted. *)
Definition scenario_fitted : BaseLL (gmap Z Z) :=
  mkLL "AtomLL" 0.1 10 0 1 (Some {[1 := 3; 2 := 1; 3 := 3]}) 7.

Definition thrice_fitted : BaseLL (gmap molkey (gmap Z Z)) :=
  mkLL "MolLL" 0.1 2000000 1 1
       (Some {[Fragment 7 := {[1 := 0; 2 := 1; 3 := 1]};
               SampleObservationSum := {[1 := 0; 2 := 1; 3 := 1]}]})
       6.

(** A count-distribution model with the default configuration, and a
    training set of one molecule whose only fragment occurs three times. *)
Definition default_MolLL : BaseLL (gmap molkey (gmap Z Z)) :=
  __init__ "MolLL" 0.1 2000000 1 1.

Definition thrice : Mol := λ _, {[7 := 3%positive]}.

(** The denominator of every likelihood of a model,
    [observationCount + estimatedKeyspaceSize * smoothingPrior]. *)
Definition denominator {KD} (self : BaseLL KD) : R :=
  (IZR (_n_observations self) + estimated_keyspace self * smoothing self)%R.

(** The Laplace-smoothed likelihood as a number,
    [(statCount + smoothingPrior) / denominator]. *)
Definition likelihood_value {KD} (self : BaseLL KD) (count : Z) : R :=
  ((IZR count + smoothing self) / denominator self)%R.

(** The specification's scenario for the frequency model: smoothing 0.1,
    an estimated keyspace of 10 and no atom-count correction, fitted on two
    molecules with fingerprints [{1:2, 2:1}] and [{1:1, 3:3}]. *)
Definition scenario_model : BaseLL (gmap Z Z) :=
  __init__ "AtomLL" 0.1 10 0 1.

Definition scenario_mols : list Mol :=
  [λ _, {[1 := 2%positive; 2 := 1%positive]};
   λ _, {[1 := 1%positive; 3 := 3%positive]}].

Definition scenario_query : Mol := λ _, {[1 := 1%positive]}.

(** ** Counting over a training collection *)

(** How often fragment [key] occurs in one fingerprint: 0 when absent. *)
Definition occurrences_in (fp : fingerprint) (key : Z) : Z :=
  default 0 (Z.pos <$> fp !! key).

(** How often fragment [key] occurs in all the molecules together. *)
Definition occurrences (radius : Z) (mols : list Mol) (key : Z) : Z :=
  foldr Z.add 0 (map (λ mol : Mol, occurrences_in (mol radius) key) mols).

(** The number of fragment occurrences in all the molecules together. *)
Definition total_occurrences (radius : Z) (mols : list Mol) : Z :=
  foldr Z.add 0 (map (λ mol : Mol, Z.of_N (sum_values (mol radius))) mols).

(** The sum, over the fragments of a fingerprint, of
    [ln(likelihood) * occurrences], the statistic of a fragment being read
    by [stat]. *)
Definition loglik_sum {KD} (self : BaseLL KD) (stat : Z → Z)
    (items : list (Z * positive)) : R :=
  foldr (λ '(key, num_atoms) acc,
           (ln (likelihood_value self (stat key)) * IZR (Z.pos num_atoms)
            + acc)%R)
        0%R items.

(** ** What a decoded dict holds

    In the specification's words, loading reconstructs the keys of the
    record's statistics: the loaded dict holds, under a key, the value of
    the item of the record whose key decodes to it, and of the last such
    item where there are several. *)
Definition last_decoding {K V} (decode : pykey → result K)
    (items : list (pykey * V)) (k : K) (v : V) : Prop :=
  ∃ (i : nat) (key : pykey),
    items !! i = Some (key, v)
    ∧ decode key = Ok k
    ∧ ∀ (j : nat) key' v',
        (i < j)%nat → items !! j = Some (key', v') → decode key' ≠ Ok k.

(** ** The smoothing pass in double precision

    [np.log], [np.mean] and [np.exp] compute in doubles and round. The
    double that reaches [math.ceil] is therefore the exact value times
    [1 + e], for a small relative error [e] that depends on the values and
    on the platform's implementation of the three functions. Below is the
    smoothing pass once more with that error as a parameter, [rel_err];
    where [rel_err] is 0 these are the definitions of [Py] and [MolLL]. *)

Module Float64.

Definition ceil_exp_mean_log (rel_err : list R → R) (values : list R)
  : result Z :=
  if existsb (λ x, Py.Rltb x 0) values then Raise ValueError
  else if existsb (λ x, Py.Reqb x 0) values then Ok 0
  else Ok (Py.math_ceil
             (exp (Py.np_mean (ln <$> values)) * (1 + rel_err values))).

Definition smooth_key (rel_err : list R → R) (counter : gmap Z Z)
    (acc : result (gmap Z Z)) (key : Z) : result (gmap Z Z) :=
  smoothed_counter ← acc;
  let neighbor_values :=
    map (λ v, IZR v + 0.15)%R
        [Counter_get counter (key - 1); Counter_get counter key;
         Counter_get counter (key + 1)] in
  geometric_mean ← ceil_exp_mean_log rel_err neighbor_values;
  Ok (<[key := geometric_mean]> smoothed_counter).

Definition _smooth_counter (rel_err : list R → R) (counter : gmap Z Z)
  : result (gmap Z Z) :=
  let smoothed_counter := <[1 := Counter_get counter 1]> ∅ in
  top ← Py.max (map fst (map_to_list counter));
  foldl (smooth_key rel_err counter) (Ok smoothed_counter)
        (Py.range 2 (top + 1)).

(** The double handed to [math.ceil] for a count, and its ceiling. *)
Definition rounded_mean (rel_err : list R → R) (counter : gmap Z Z)
    (count : Z) : R :=
  (geometric_mean3 (IZR (Counter_get counter (count - 1)) + 0.15)
                   (IZR (Counter_get counter count) + 0.15)
                   (IZR (Counter_get counter (count + 1)) + 0.15)
   * (1 + rel_err (map (λ v, IZR v + 0.15)
                       [Counter_get counter (count - 1);
                        Counter_get counter count;
                        Counter_get counter (count + 1)])))%R.

End Float64.

(** ** What scoring may leave behind *)

(** Two model objects with the same class and the same attributes, the
    statistics apart. *)
Definition same_configuration {KD} (s s' : BaseLL KD) : Prop :=
  class_name s = class_name s'
  ∧ smoothing s = smoothing s'
  ∧ estimated_keyspace s = estimated_keyspace s'
  ∧ alpha s = alpha s'
  ∧ _radius s = _radius s'
  ∧ _n_observations s = _n_observations s'.

(** Statistics [kd'] that differ from [kd] at most by empty counters stored
    under keys of [keys] that [kd] does not hold. *)
Definition grown_by_reads (kd kd' : gmap molkey (gmap Z Z)) (keys : list molkey)
  : Prop :=
  ∀ key, kd' !! key = kd !! key
         ∨ (kd !! key = None ∧ kd' !! key = Some ∅ ∧ key ∈ keys).

(** ** The precomputed models ([precomputed/libinventLL.py]) *)

Module LibInvent.

(** [save_dict["Model"] = self.__class__.__name__] *)
Definition retag (cls : string) (save_dict : savedict) : savedict :=
  mkSave cls (sd_smoothing save_dict) (sd_estimated_keyspace save_dict)
         (sd_alpha save_dict) (sd__radius save_dict)
         (sd__n_observations save_dict) (sd__key_data save_dict).

(** The constructor the six classes share. [cls] is the class's own name,
    [base] the name its assertion compares the record's tag with, and
    [save_dict] what [json.load] returns for the class's data file. A
    constructor that raises gives no object. *)
Definition __init__ `{LLModel KD} (cls base : string) (save_dict : savedict)
  : result (BaseLL KD) :=
  let self : BaseLL KD := __init__ cls 0.1 2000000 1 1 in
  if decide (sd_Model save_dict = base) then
    match set_savedict (retag cls save_dict) self with
    | (Ok _, self') => Ok self'
    | (Raise e, _) => Raise e
    end
  else Raise AssertionError.

Definition LibInventAtomLLr1 : savedict → result (BaseLL (gmap Z Z)) :=
  __init__ "LibInventAtomLLr1" "AtomLL".
Definition LibInventAtomLLr2 : savedict → result (BaseLL (gmap Z Z)) :=
  __init__ "LibInventAtomLLr2" "AtomLL".
Definition LibInventAtomLLr3 : savedict → result (BaseLL (gmap Z Z)) :=
  __init__ "LibInventAtomLLr3" "AtomLL".
Definition LibInventMolLLr1
  : savedict → result (BaseLL (gmap molkey (gmap Z Z))) :=
  __init__ "LibInventMolLLr1" "MolLL".
Definition LibInventMolLLr2
  : savedict → result (BaseLL (gmap molkey (gmap Z Z))) :=
  __init__ "LibInventMolLLr2" "MolLL".
Definition LibInventMolLLr3
  : savedict → result (BaseLL (gmap molkey (gmap Z Z))) :=
  __init__ "LibInventMolLLr3" "MolLL".

End LibInvent.

(** The sum, over the pairs [MolLL.calculate_ll] scores, of
    [ln(likelihood) * counts], the statistic of a pair being looked up in
    [kd]. *)
Definition MolLL_loglik_sum (self : BaseLL (gmap molkey (gmap Z Z)))
    (kd : gmap molkey (gmap Z Z)) (pairs : list (molkey * N)) : R :=
  foldr (λ '(key, counts) acc,
           (ln (likelihood_value self (MolLL_stat kd key counts))
            * IZR (Z.of_N counts) + acc)%R)
        0%R pairs.

(** Evaluate the integer expressions under [IZR] in a goal between real
    constants, for [lra]. *)
Ltac eval_IZR :=
  repeat match goal with
         | |- context [IZR ?z] =>
             lazymatch z with
             | Z0 => fail
             | Zpos _ => fail
             | Zneg _ => fail
             | _ => let z' := eval vm_compute in z in change z with z'
             end
         end.

(** * Properties *)

(** ** Ceiling and the geometric mean *)

Section Reals.

Open Scope R_scope.

Lemma math_ceil_spec (x : R) (n : Z) :
  IZR n - 1 < x → x <= IZR n → Py.math_ceil x = n.
Proof.
  intros Hlo Hhi. unfold Py.math_ceil.
  assert (up (- x) = (1 - n)%Z) as ->; [|lia].
  symmetry. apply tech_up; rewrite minus_IZR; lra.
Qed.

Lemma math_ceil_bounds (x : R) :
  IZR (Py.math_ceil x) - 1 < x ∧ x <= IZR (Py.math_ceil x).
Proof.
  unfold Py.math_ceil. destruct (archimed (- x)) as [H1 H2].
  rewrite minus_IZR. lra.
Qed.

Lemma Rltb_true x y : x < y → Py.Rltb x y = true.
Proof. intros. unfold Py.Rltb. destruct (Rlt_dec x y); [done|lra]. Qed.

Lemma Rltb_false x y : y <= x → Py.Rltb x y = false.
Proof. intros. unfold Py.Rltb. destruct (Rlt_dec x y); [lra|done]. Qed.

Lemma Reqb_true x : Py.Reqb x x = true.
Proof. unfold Py.Reqb. destruct (Req_dec_T x x); [done|lra]. Qed.

Lemma Reqb_false x y : x ≠ y → Py.Reqb x y = false.
Proof. intros. unfold Py.Reqb. destruct (Req_dec_T x y); [done|done]. Qed.

Lemma exp_mean_log3_pos x y z : 0 < exp_mean_log3 x y z.
Proof. apply exp_pos. Qed.

Lemma exp_mean_log3_cube x y z :
  0 < x → 0 < y → 0 < z →
  exp_mean_log3 x y z * exp_mean_log3 x y z * exp_mean_log3 x y z
  = x * y * z.
Proof.
  intros Hx Hy Hz. unfold exp_mean_log3, Py.np_mean. simpl.
  rewrite <- !exp_plus.
  replace (_ + _ + _) with (ln x + ln y + ln z) by (simpl; lra).
  rewrite !exp_plus, !exp_ln; done.
Qed.

End Reals.

Section GeometricMean.

Open Scope R_scope.

(** The source's [exp (mean (log ..))] is the geometric mean. *)
Lemma exp_mean_log3_geometric x y z :
  0 < x → 0 < y → 0 < z → exp_mean_log3 x y z = geometric_mean3 x y z.
Proof.
  intros Hx Hy Hz. unfold exp_mean_log3, geometric_mean3, Rpower, Py.np_mean.
  f_equal. simpl.
  rewrite !ln_mult by (try apply Rmult_lt_0_compat; done). lra.
Qed.

Lemma shifted_count (a : Z) : IZR a + 0.15 = IZR (20 * a + 3) / 20.
Proof. rewrite plus_IZR, mult_IZR. lra. Qed.

Lemma shifted_count_pos (a : Z) : (0 <= a)%Z → 0 < IZR a + 0.15.
Proof. intros H%IZR_le. lra. Qed.

Lemma shifted_count_neg (a : Z) : (a < 0)%Z → IZR a + 0.15 < 0.
Proof.
  intros H. assert (a <= -1)%Z as H'%IZR_le by lia. lra.
Qed.

Lemma shifted_count_nonzero (a : Z) : IZR a + 0.15 ≠ 0.
Proof.
  rewrite shifted_count. intros H.
  assert (IZR (20 * a + 3) = IZR 0) as H'%eq_IZR by lra. lia.
Qed.

(** The ceiling of the geometric mean of three shifted counts, found by
    comparing integers. *)
Lemma ceil_geomean_between (a b c n : Z) :
  (0 <= a)%Z → (0 <= b)%Z → (0 <= c)%Z →
  (8000 * ((n - 1) * (n - 1) * (n - 1)) < Exec.scaled_product a b c)%Z →
  (Exec.scaled_product a b c <= 8000 * (n * n * n))%Z →
  Py.math_ceil (exp_mean_log3 (IZR a + 0.15) (IZR b + 0.15) (IZR c + 0.15))
  = n.
Proof.
  intros Ha Hb Hc Hlo Hhi.
  pose proof (exp_mean_log3_pos (IZR a + 0.15) (IZR b + 0.15) (IZR c + 0.15))
    as Hg.
  pose proof (exp_mean_log3_cube _ _ _ (shifted_count_pos a Ha)
                (shifted_count_pos b Hb) (shifted_count_pos c Hc)) as Hcube.
  set (g := exp_mean_log3 _ _ _) in *.
  assert (8000 * (g * g * g) = IZR (Exec.scaled_product a b c)) as HP.
  { rewrite Hcube, !shifted_count. unfold Exec.scaled_product.
    rewrite !mult_IZR. lra. }
  apply IZR_lt in Hlo. apply IZR_le in Hhi.
  rewrite <- HP in Hlo, Hhi.
  rewrite !mult_IZR, !minus_IZR in Hlo. rewrite !mult_IZR in Hhi.
  set (m := IZR n) in *.
  assert (0 < m) as Hm.
  { destruct (Rlt_dec 0 m); [done|].
    assert (0 < g * g * g) by (repeat apply Rmult_lt_0_compat; done).
    assert (0 <= m * m) by nra.
    assert (m * m * m <= 0) by nra. lra. }
  apply math_ceil_spec; fold m.
  - destruct (Rlt_dec (m - 1) g); [done|].
    assert (g <= m - 1) as Hle by lra.
    assert (g * g <= (m - 1) * (m - 1)) by nra.
    assert (g * g * g <= (m - 1) * (m - 1) * (m - 1)) by nra.
    lra.
  - destruct (Rle_dec g m); [done|].
    assert (m < g) as Hlt by lra.
    assert (m * m < g * g) by nra.
    assert (m * m * m < g * g * g) by nra.
    lra.
Qed.

End GeometricMean.

(** ** The integer smoothing pass agrees with the source's *)

Section ExecAgrees.

Lemma cube_pow (n : Z) : n ^ 3 = n * n * n.
Proof. ring. Qed.

Lemma first_cube_above_spec (fuel : nat) (n p : Z) :
  1 <= n →
  8000 * ((n - 1) * (n - 1) * (n - 1)) < p →
  p <= 8000 * ((n + Z.of_nat fuel) * (n + Z.of_nat fuel) * (n + Z.of_nat fuel)) →
  let r := Exec.first_cube_above fuel n p in
  n <= r ∧ 8000 * ((r - 1) * (r - 1) * (r - 1)) < p ∧ p <= 8000 * (r * r * r).
Proof.
  revert n. induction fuel as [|fuel IH]; intros n Hn Hlo Hhi; simpl.
  - replace (n + Z.of_nat 0) with n in Hhi by lia. lia.
  - rewrite cube_pow. destruct (Z.leb_spec p (8000 * (n * n * n))) as [Hle|Hgt].
    + lia.
    + destruct (IH (n + 1)) as (? & ? & ?); [lia| |  |].
      * replace (n + 1 - 1) with n by lia. lia.
      * replace (n + 1 + Z.of_nat fuel) with (n + Z.of_nat (S fuel)) by lia.
        done.
      * split; [lia|done].
Qed.

Lemma scaled_product_pos (a b c : Z) :
  0 <= a → 0 <= b → 0 <= c → 0 < Exec.scaled_product a b c.
Proof.
  intros. unfold Exec.scaled_product.
  repeat apply Z.mul_pos_pos; lia.
Qed.

Lemma scaled_product_le (a b c m : Z) :
  0 <= a <= m → 0 <= b <= m → 0 <= c <= m →
  Exec.scaled_product a b c <= 8000 * ((1 + m) * (1 + m) * (1 + m)).
Proof.
  intros Ha Hb Hc. unfold Exec.scaled_product.
  replace (8000 * ((1 + m) * (1 + m) * (1 + m)))
    with ((20 * (1 + m)) * (20 * (1 + m)) * (20 * (1 + m))) by ring.
  repeat apply Z.mul_le_mono_nonneg; lia.
Qed.

Lemma Rltb_shifted (a : Z) : Py.Rltb (IZR a + 0.15) 0 = (a <? 0).
Proof.
  destruct (Z.ltb_spec a 0) as [Hneg|Hpos].
  - apply Rltb_true, shifted_count_neg. done.
  - apply Rltb_false. pose proof (shifted_count_pos a Hpos). lra.
Qed.

Lemma Reqb_shifted (a : Z) : Py.Reqb (IZR a + 0.15) 0 = false.
Proof. apply Reqb_false, shifted_count_nonzero. Qed.

Lemma ceil_exp_mean_log_shifted (a b c : Z) :
  0 <= a → 0 <= b → 0 <= c →
  Py.ceil_exp_mean_log (map (λ v, IZR v + 0.15)%R [a; b; c])
  = Ok (Py.math_ceil
          (exp_mean_log3 (IZR a + 0.15) (IZR b + 0.15) (IZR c + 0.15))).
Proof.
  intros Ha Hb Hc. unfold Py.ceil_exp_mean_log. simpl.
  rewrite !Rltb_shifted, !Reqb_shifted.
  destruct (Z.ltb_spec a 0), (Z.ltb_spec b 0), (Z.ltb_spec c 0);
    try lia. done.
Qed.

Lemma ceil_geomean_exec (a b c : Z) :
  Py.ceil_exp_mean_log (map (λ v, IZR v + 0.15)%R [a; b; c])
  = Exec.ceil_geomean a b c.
Proof.
  unfold Exec.ceil_geomean.
  destruct (decide (0 <= a ∧ 0 <= b ∧ 0 <= c)) as [(Ha & Hb & Hc)|Hneg].
  - rewrite ceil_exp_mean_log_shifted by done.
    destruct (Z.ltb_spec a 0), (Z.ltb_spec b 0), (Z.ltb_spec c 0);
      try lia.
    cbn [orb]. f_equal.
    set (m := Z.max a (Z.max b c)).
    destruct (first_cube_above_spec (Z.to_nat m) 1
                (Exec.scaled_product a b c)) as (_ & Hlo & Hhi).
    + lia.
    + pose proof (scaled_product_pos a b c). lia.
    + rewrite Z2Nat.id by lia. apply scaled_product_le; lia.
    + by apply ceil_geomean_between.
  - unfold Py.ceil_exp_mean_log. cbn [map existsb].
    rewrite !Rltb_shifted.
    destruct (Z.ltb_spec a 0), (Z.ltb_spec b 0), (Z.ltb_spec c 0);
      try done; lia.
Qed.

Lemma smooth_key_exec (counter : gmap Z Z) acc key :
  MolLL.smooth_key counter acc key = Exec.smooth_key counter acc key.
Proof.
  destruct acc as [smoothed|e]; [|done].
  unfold Exec.smooth_key. by rewrite <- ceil_geomean_exec.
Qed.

(** The source's smoothing pass and the integer one are the same
    function. *)
Lemma smooth_counter_exec (counter : gmap Z Z) :
  MolLL._smooth_counter counter = Exec._smooth_counter counter.
Proof.
  unfold MolLL._smooth_counter, Exec._smooth_counter.
  destruct (Py.max _); simpl; [|done].
  generalize (Ok (<[1:=Counter_get counter 1]> ∅) : result (gmap Z Z)).
  induction (Py.range 2 (a + 1)) as [|k l IH]; intros acc; simpl; [done|].
  by rewrite smooth_key_exec, IH.
Qed.

End ExecAgrees.

(** ** [max] and the keys of a counter *)

Section MaxKey.

Lemma foldl_max_spec (l : list Z) (x : Z) :
  foldl Z.max x l ∈ x :: l ∧ Forall (λ k, k <= foldl Z.max x l) (x :: l).
Proof.
  revert x. induction l as [|y l IH]; intros x; simpl.
  - split; [by left|]. repeat constructor. lia.
  - destruct (IH (Z.max x y)) as [Hin Hall]. split.
    + apply elem_of_cons in Hin as [Heq|Hin]; [|by do 2 right].
      rewrite Heq. destruct (Z.max_spec x y) as [[_ ->]|[_ ->]].
      * right. by left.
      * by left.
    + apply Forall_cons in Hall as [Hxy Hall].
      repeat constructor; [lia|lia|done].
Qed.

Lemma py_max_spec (l : list Z) (top : Z) :
  Py.max l = Ok top → top ∈ l ∧ Forall (λ k, k <= top) l.
Proof.
  destruct l as [|x l]; simpl; [done|]. intros [= <-].
  apply foldl_max_spec.
Qed.

Lemma py_max_nonempty (l : list Z) : l ≠ [] → ∃ top, Py.max l = Ok top.
Proof. destruct l; [done|]. simpl. eauto. Qed.

Lemma elem_of_keys (counter : gmap Z Z) (k : Z) :
  k ∈ map fst (map_to_list counter) ↔ is_Some (counter !! k).
Proof.
  rewrite list_elem_of_fmap. split.
  - intros [[k' v] [-> Hin%elem_of_map_to_list]]. eauto.
  - intros [v Hv]. exists (k, v). split; [done|].
    by apply elem_of_map_to_list.
Qed.

(** The largest count of a non-empty counter. *)
Lemma counter_top_exists (counter : gmap Z Z) :
  counter ≠ ∅ → ∃ top, Py.max (map fst (map_to_list counter)) = Ok top.
Proof.
  intros Hne. apply py_max_nonempty. intros Hnil.
  apply Hne, map_to_list_empty_iff.
  by destruct (map_to_list counter).
Qed.

Lemma counter_top_spec (counter : gmap Z Z) (top : Z) :
  Py.max (map fst (map_to_list counter)) = Ok top →
  is_Some (counter !! top) ∧ ∀ k, is_Some (counter !! k) → k <= top.
Proof.
  intros [Hin Hall]%py_max_spec. split.
  - by apply elem_of_keys.
  - intros k Hk%elem_of_keys. rewrite Forall_forall in Hall. by apply Hall.
Qed.

Lemma Counter_get_nonneg (counter : gmap Z Z) (k : Z) :
  map_Forall (λ _ freq, 0 <= freq) counter → 0 <= Counter_get counter k.
Proof.
  intros Hall. unfold Counter_get.
  destruct (counter !! k) as [v|] eqn:Hk; simpl; [|lia].
  by apply (Hall k v).
Qed.

Lemma Counter_get_above (counter : gmap Z Z) (top k : Z) :
  (∀ j, is_Some (counter !! j) → j <= top) → top < k →
  Counter_get counter k = 0.
Proof.
  intros Htop Hk. unfold Counter_get.
  destruct (counter !! k) as [v|] eqn:Hv; [|done].
  specialize (Htop k (ex_intro _ v Hv)). lia.
Qed.

End MaxKey.

(** ** The smoothing pass, key by key *)

Section Smoothing.

Variable counter : gmap Z Z.
Hypothesis frequencies_nonneg : map_Forall (λ _ freq, 0 <= freq) counter.

Lemma smooth_key_value (smoothed_counter : gmap Z Z) (key : Z) :
  MolLL.smooth_key counter (Ok smoothed_counter) key
  = Ok (<[key := smoothed_value counter key]> smoothed_counter).
Proof.
  unfold MolLL.smooth_key, smoothed_value.
  pose proof (Counter_get_nonneg counter (key - 1) frequencies_nonneg).
  pose proof (Counter_get_nonneg counter key frequencies_nonneg).
  pose proof (Counter_get_nonneg counter (key + 1) frequencies_nonneg).
  rewrite <- exp_mean_log3_geometric by (by apply shifted_count_pos).
  cbn [mbind result_bind]. by rewrite ceil_exp_mean_log_shifted.
Qed.

Lemma smooth_loop (keys : list Z) (start : gmap Z Z) :
  ∃ smoothed_counter,
    foldl (MolLL.smooth_key counter) (Ok start) keys = Ok smoothed_counter
    ∧ ∀ k, smoothed_counter !! k
           = if decide (k ∈ keys) then Some (smoothed_value counter k)
             else start !! k.
Proof.
  revert start. induction keys as [|key keys IH]; intros start; cbn [foldl].
  - exists start. split; [done|]. intros k.
    destruct (decide (k ∈ [])) as [Hin|_]; [by apply elem_of_nil in Hin|done].
  - rewrite smooth_key_value.
    destruct (IH (<[key := smoothed_value counter key]> start))
      as (s & -> & Hs).
    exists s. split; [done|]. intros k. rewrite Hs.
    destruct (decide (k ∈ keys)) as [Hin|Hout].
    + rewrite decide_True by (by right). done.
    + destruct (decide (k = key)) as [->|Hne].
      * rewrite decide_True by (by left). by rewrite lookup_insert_eq.
      * rewrite decide_False by (by intros [?|?]%elem_of_cons).
        by rewrite lookup_insert_ne.
Qed.

Lemma elem_of_range (lo hi k : Z) : k ∈ Py.range lo hi ↔ lo <= k < hi.
Proof. unfold Py.range. rewrite elem_of_seqZ. lia. Qed.

(** What [_smooth_counter] returns, entry by entry. *)
Lemma smooth_counter_lookup (top : Z) :
  Py.max (map fst (map_to_list counter)) = Ok top →
  ∃ smoothed_counter,
    MolLL._smooth_counter counter = Ok smoothed_counter
    ∧ ∀ k, smoothed_counter !! k
           = if decide (2 <= k <= top) then Some (smoothed_value counter k)
             else if decide (k = 1) then Some (Counter_get counter 1)
             else None.
Proof.
  intros Htop. unfold MolLL._smooth_counter. rewrite Htop.
  cbn [mbind result_bind].
  destruct (smooth_loop (Py.range 2 (top + 1))
              (<[1 := Counter_get counter 1]> ∅)) as (s & -> & Hs).
  exists s. split; [done|]. intros k. rewrite Hs.
  destruct (decide (2 <= k <= top)) as [Hk|Hk].
  - rewrite decide_True by (apply elem_of_range; lia). done.
  - rewrite decide_False by (rewrite elem_of_range; lia).
    destruct (decide (k = 1)) as [->|Hne].
    + by rewrite lookup_insert_eq.
    + by rewrite lookup_insert_ne, lookup_empty.
Qed.

Lemma smoothed_value_pos (k : Z) : 1 <= smoothed_value counter k.
Proof.
  unfold smoothed_value.
  pose proof (Counter_get_nonneg counter (k - 1) frequencies_nonneg).
  pose proof (Counter_get_nonneg counter k frequencies_nonneg).
  pose proof (Counter_get_nonneg counter (k + 1) frequencies_nonneg).
  rewrite <- exp_mean_log3_geometric by (by apply shifted_count_pos).
  match goal with |- 1 <= Py.math_ceil ?g =>
    pose proof (math_ceil_bounds g) as [_ Hhi];
    pose proof (exp_mean_log3_pos (IZR (Counter_get counter (k - 1)) + 0.15)
                  (IZR (Counter_get counter k) + 0.15)
                  (IZR (Counter_get counter (k + 1)) + 0.15)) as Hpos
  end.
  assert (0 < IZR (Py.math_ceil
                     (exp_mean_log3
                        (IZR (Counter_get counter (k - 1)) + 0.15)
                        (IZR (Counter_get counter k) + 0.15)
                        (IZR (Counter_get counter (k + 1)) + 0.15))))%R
    as Hlt%lt_IZR by lra.
  lia.
Qed.

End Smoothing.

(** ** The scenario histogram *)

Section Scenario.

Lemma scenario_top (top : Z) :
  is_Some (scenario_histogram !! top) →
  (∀ k, is_Some (scenario_histogram !! k) → k <= top) →
  top = 3.
Proof.
  intros Hin Hmax.
  assert (3 <= top) by (apply Hmax; by exists 1).
  destruct (decide (top = 3)) as [->|Hne]; [done|].
  destruct Hin as [v Hv]. unfold scenario_histogram in Hv.
  rewrite !lookup_insert_ne in Hv by lia.
  by rewrite lookup_singleton_ne in Hv by lia.
Qed.

Lemma scenario_neighbours :
  (IZR (Counter_get scenario_histogram (2 - 1)) + 0.15 = 5.15
   ∧ IZR (Counter_get scenario_histogram 2) + 0.15 = 0.15
   ∧ IZR (Counter_get scenario_histogram (2 + 1)) + 0.15 = 1.15)%R.
Proof.
  change (Counter_get scenario_histogram (2 - 1)) with 5.
  change (Counter_get scenario_histogram 2) with 0.
  change (Counter_get scenario_histogram (2 + 1)) with 1.
  lra.
Qed.

(** The scenario's value, computed: the geometric mean of 5.15, 0.15 and
    1.15 lies between 0 and 1. *)
Lemma scenario_value :
  Py.math_ceil (exp (Py.np_mean (ln <$> [5.15; 0.15; 1.15]%R))) = 1.
Proof.
  destruct scenario_neighbours as (H1 & H2 & H3).
  change (exp (Py.np_mean (ln <$> [5.15; 0.15; 1.15]%R)))
    with (exp_mean_log3 5.15 0.15 1.15).
  replace 5.15%R with (IZR 5 + 0.15)%R by lra.
  replace 1.15%R with (IZR 1 + 0.15)%R by lra.
  replace 0.15%R with (IZR 0 + 0.15)%R at 2 by lra.
  apply ceil_geomean_between; unfold Exec.scaled_product; lia.
Qed.

End Scenario.

(** ** The smoothing pass in double precision *)

Section RoundedReals.

Lemma Rabs_le_bounds (x b : R) : (Rabs x <= b)%R → (- b <= x <= b)%R.
Proof. unfold Rabs. destruct (Rcase_abs x); lra. Qed.

Lemma math_ceil_mono (x y : R) : (x <= y)%R → Py.math_ceil x <= Py.math_ceil y.
Proof.
  intros Hxy.
  destruct (math_ceil_bounds x) as [Hx _].
  destruct (math_ceil_bounds y) as [_ Hy].
  assert (IZR (Py.math_ceil x) - 1 < IZR (Py.math_ceil y))%R as Hlt by lra.
  rewrite <- minus_IZR in Hlt. apply lt_IZR in Hlt. lia.
Qed.

Lemma math_ceil_shift (x : R) (k : Z) :
  Py.math_ceil (x + IZR k) = Py.math_ceil x + k.
Proof.
  destruct (math_ceil_bounds x) as [Hlo Hhi].
  apply math_ceil_spec; rewrite plus_IZR; lra.
Qed.

Lemma cube_lt_reg (x y : R) : (0 < y)%R → (x * x * x < y * y * y)%R → (x < y)%R.
Proof.
  intros Hy Hcube. destruct (Rlt_dec x y) as [|Hge]; [done|].
  assert (y <= x)%R as Hle by lra.
  assert (y * y <= x * x)%R by nra.
  assert (y * y * y <= x * x * x)%R by nra. lra.
Qed.

Lemma cube_le_reg (x y : R) : (0 < x)%R → (x * x * x <= y * y * y)%R → (x <= y)%R.
Proof.
  intros Hx Hcube. destruct (Rle_dec x y) as [|Hgt]; [done|].
  assert (y < x)%R as Hlt by lra.
  destruct (Rle_dec y 0) as [Hneg|Hpos].
  - assert (0 < x * x * x)%R by (repeat apply Rmult_lt_0_compat; done).
    assert (0 <= y * y)%R by nra.
    assert (y * y * y <= 0)%R by nra. lra.
  - assert (y * y < x * x)%R by nra.
    assert (y * y * y < x * x * x)%R by nra. lra.
Qed.

(** The ceiling of a geometric mean scaled by [d], read off the integers:
    [8000 g^3] is the product of the three values times 20. *)
Lemma ceil_scaled_between (a b c n : Z) (d : R) :
  0 <= a → 0 <= b → 0 <= c → (0 < d)%R →
  (IZR (8000 * ((n - 1) * (n - 1) * (n - 1)))
   < IZR (Exec.scaled_product a b c) * (d * d * d))%R →
  (IZR (Exec.scaled_product a b c) * (d * d * d)
   <= IZR (8000 * (n * n * n)))%R →
  Py.math_ceil
    (exp_mean_log3 (IZR a + 0.15) (IZR b + 0.15) (IZR c + 0.15) * d) = n.
Proof.
  intros Ha Hb Hc Hd Hlo Hhi.
  pose proof (exp_mean_log3_pos (IZR a + 0.15) (IZR b + 0.15) (IZR c + 0.15))
    as Hg.
  pose proof (exp_mean_log3_cube _ _ _ (shifted_count_pos a Ha)
                (shifted_count_pos b Hb) (shifted_count_pos c Hc)) as Hcube.
  set (g := exp_mean_log3 _ _ _) in *.
  assert (8000 * (g * g * g) = IZR (Exec.scaled_product a b c))%R as HP.
  { rewrite Hcube, !shifted_count. unfold Exec.scaled_product.
    rewrite !mult_IZR. lra. }
  rewrite <- HP in Hlo, Hhi.
  rewrite !mult_IZR, !minus_IZR in Hlo. rewrite !mult_IZR in Hhi.
  set (m := IZR n) in *.
  assert (0 < g * d)%R as Hgd by (by apply Rmult_lt_0_compat).
  assert (g * d * (g * d) * (g * d) = g * g * g * (d * d * d))%R as Hprod
    by ring.
  apply math_ceil_spec; fold m.
  - apply cube_lt_reg; [done|]. rewrite Hprod. lra.
  - apply cube_le_reg; [done|]. rewrite Hprod. lra.
Qed.

End RoundedReals.

(** Without rounding error the pass in double precision is the pass of
    [MolLL]. *)
Lemma Float64_smooth_counter_exact (counter : gmap Z Z) :
  Float64._smooth_counter (λ _, 0%R) counter = MolLL._smooth_counter counter.
Proof.
  unfold Float64._smooth_counter, MolLL._smooth_counter.
  destruct (Py.max _) as [top|e]; [|done]. cbn [mbind result_bind].
  generalize (Ok (<[1 := Counter_get counter 1]> (∅ : gmap Z Z))).
  induction (Py.range 2 (top + 1)) as [|key keys IH]; intros acc;
    cbn [foldl]; [done|].
  rewrite <- IH. f_equal.
  unfold Float64.smooth_key, MolLL.smooth_key.
  destruct acc as [smoothed_counter|e]; [|done]. cbn [mbind result_bind].
  unfold Float64.ceil_exp_mean_log, Py.ceil_exp_mean_log.
  by rewrite Rplus_0_r, Rmult_1_r.
Qed.

Section RoundedSmoothing.

Variable rel_err : list R → R.
Variable counter : gmap Z Z.
Hypothesis frequencies_nonneg : map_Forall (λ _ freq, 0 <= freq) counter.

Lemma rounded_ceil_shifted (a b c : Z) :
  0 <= a → 0 <= b → 0 <= c →
  Float64.ceil_exp_mean_log rel_err (map (λ v, IZR v + 0.15)%R [a; b; c])
  = Ok (Py.math_ceil
          (exp_mean_log3 (IZR a + 0.15) (IZR b + 0.15) (IZR c + 0.15)
           * (1 + rel_err (map (λ v, IZR v + 0.15) [a; b; c])))%R).
Proof.
  intros Ha Hb Hc. unfold Float64.ceil_exp_mean_log.
  cbn [map existsb].
  rewrite !Rltb_shifted, !Reqb_shifted.
  destruct (Z.ltb_spec a 0), (Z.ltb_spec b 0), (Z.ltb_spec c 0);
    try lia. done.
Qed.

Lemma rounded_smooth_key_value (smoothed_counter : gmap Z Z) (key : Z) :
  Float64.smooth_key rel_err counter (Ok smoothed_counter) key
  = Ok (<[key := Py.math_ceil (Float64.rounded_mean rel_err counter key)]>
          smoothed_counter).
Proof.
  unfold Float64.smooth_key, Float64.rounded_mean.
  pose proof (Counter_get_nonneg counter (key - 1) frequencies_nonneg).
  pose proof (Counter_get_nonneg counter key frequencies_nonneg).
  pose proof (Counter_get_nonneg counter (key + 1) frequencies_nonneg).
  rewrite <- exp_mean_log3_geometric by (by apply shifted_count_pos).
  cbn [mbind result_bind]. by rewrite rounded_ceil_shifted.
Qed.

Lemma rounded_smooth_loop (keys : list Z) (start : gmap Z Z) :
  ∃ smoothed_counter,
    foldl (Float64.smooth_key rel_err counter) (Ok start) keys
    = Ok smoothed_counter
    ∧ ∀ k, smoothed_counter !! k
           = if decide (k ∈ keys)
             then Some (Py.math_ceil (Float64.rounded_mean rel_err counter k))
             else start !! k.
Proof.
  revert start. induction keys as [|key keys IH]; intros start; cbn [foldl].
  - exists start. split; [done|]. intros k.
    destruct (decide (k ∈ [])) as [Hin|_]; [by apply elem_of_nil in Hin|done].
  - rewrite rounded_smooth_key_value.
    destruct (IH (<[key := Py.math_ceil
                             (Float64.rounded_mean rel_err counter key)]> start))
      as (s & -> & Hs).
    exists s. split; [done|]. intros k. rewrite Hs.
    destruct (decide (k ∈ keys)) as [Hin|Hout].
    + rewrite decide_True by (by right). done.
    + destruct (decide (k = key)) as [->|Hne].
      * rewrite decide_True by (by left). by rewrite lookup_insert_eq.
      * rewrite decide_False by (by intros [?|?]%elem_of_cons).
        by rewrite lookup_insert_ne.
Qed.

(** What the pass returns in double precision, entry by entry. *)
Lemma rounded_smooth_counter_lookup (top : Z) :
  Py.max (map fst (map_to_list counter)) = Ok top →
  ∃ smoothed_counter,
    Float64._smooth_counter rel_err counter = Ok smoothed_counter
    ∧ ∀ k, smoothed_counter !! k
           = if decide (2 <= k <= top)
             then Some (Py.math_ceil (Float64.rounded_mean rel_err counter k))
             else if decide (k = 1) then Some (Counter_get counter 1)
             else None.
Proof.
  intros Htop. unfold Float64._smooth_counter. rewrite Htop.
  cbn [mbind result_bind].
  destruct (rounded_smooth_loop (Py.range 2 (top + 1))
              (<[1 := Counter_get counter 1]> ∅)) as (s & -> & Hs).
  exists s. split; [done|]. intros k. rewrite Hs.
  destruct (decide (2 <= k <= top)) as [Hk|Hk].
  - rewrite decide_True by (apply elem_of_range; lia). done.
  - rewrite decide_False by (rewrite elem_of_range; lia).
    destruct (decide (k = 1)) as [->|Hne].
    + by rewrite lookup_insert_eq.
    + by rewrite lookup_insert_ne, lookup_empty.
Qed.

Lemma geometric_mean3_shifted_pos (k : Z) :
  (0 < geometric_mean3 (IZR (Counter_get counter (k - 1)) + 0.15)
                       (IZR (Counter_get counter k) + 0.15)
                       (IZR (Counter_get counter (k + 1)) + 0.15))%R.
Proof.
  pose proof (Counter_get_nonneg counter (k - 1) frequencies_nonneg).
  pose proof (Counter_get_nonneg counter k frequencies_nonneg).
  pose proof (Counter_get_nonneg counter (k + 1) frequencies_nonneg).
  rewrite <- exp_mean_log3_geometric by (by apply shifted_count_pos).
  apply exp_mean_log3_pos.
Qed.

End RoundedSmoothing.

(** ** Claims about the smoothing pass *)

(** The claim as stated fails on the doubles the code computes with. For
    the raw histogram [{1: 3503, 2: 4565, 3: 23174}] the exact geometric
    mean at count 2 is just below 7183 (short of it by about 1e-11), so
    its ceiling is 7183; a double computation that overshoots by a
    relative error of [2 ** -49] (numpy's returns 7183.000000000001)
    stores 7184. *)
Lemma smoothed_value_off_by_one :
  ∃ smoothed_counter,
    Float64._smooth_counter (λ _, / 2 ^ 49)%R
      {[1 := 3503; 2 := 4565; 3 := 23174]} = Ok smoothed_counter
    ∧ smoothed_counter !! 2 = Some 7184
    ∧ smoothed_value {[1 := 3503; 2 := 4565; 3 := 23174]} 2 = 7183.
Proof.
  set (c := ({[1 := 3503; 2 := 4565; 3 := 23174]} : gmap Z Z)).
  assert (map_Forall (λ _ freq, 0 <= freq) c) as Hfreq
    by (apply (bool_decide_unpack _); vm_compute; exact I).
  assert (Py.max (map fst (map_to_list c)) = Ok 3) as Htop
    by (vm_compute; reflexivity).
  destruct (rounded_smooth_counter_lookup (λ _, / 2 ^ 49)%R c Hfreq 3 Htop)
    as (s & Hs & Hlook).
  exists s. split; [exact Hs|]. split.
  - rewrite Hlook, decide_True by lia. f_equal.
    unfold Float64.rounded_mean.
    change (Counter_get c (2 - 1)) with 3503.
    change (Counter_get c 2) with 4565.
    change (Counter_get c (2 + 1)) with 23174.
    rewrite <- exp_mean_log3_geometric by lra.
    apply ceil_scaled_between; try lia.
    + lra.
    + unfold Exec.scaled_product. eval_IZR. lra.
    + unfold Exec.scaled_product. eval_IZR. lra.
  - unfold smoothed_value.
    change (Counter_get c (2 - 1)) with 3503.
    change (Counter_get c 2) with 4565.
    change (Counter_get c (2 + 1)) with 23174.
    rewrite <- exp_mean_log3_geometric by lra.
    apply ceil_geomean_between; unfold Exec.scaled_product; lia.
Qed.

(** C1 (as amended) — For a non-empty raw histogram with non-negative
    64-bit frequencies, the smoothing pass of the count-distribution model
    returns a histogram whose value at count 1 is the raw frequency at 1,
    unmodified, and whose value at every count from 2 up to the largest
    observed count is the ceiling of the geometric mean of the raw
    frequencies at count-1, count and count+1 (0 if absent), each raised
    by 0.15, as computed in double precision: with a relative error of at
    most [eps] on the computed mean, the value lies between the ceilings
    of the exact mean lowered and raised by that error, it is the ceiling
    of the exact mean whenever those two agree, and it differs from it by
    at most one as long as the mean times [eps] stays below 1. For the raw
    histogram [{1:5, 2:0, 3:1}] the smoothed value at count 2 is
    [ceil(exp(mean(ln([5.15, 0.15, 1.15]))))] for every error up to
    1/32. *)
Theorem smooth_counter_geometric_mean
    (rel_err : list R → R) (eps : R) (counter : gmap Z Z) :
  (∀ values, Rabs (rel_err values) <= eps)%R → (eps < 1)%R →
  counter ≠ ∅ →
  map_Forall (λ _ freq, 0 <= freq < 2 ^ 63) counter →
  ∃ top smoothed_counter,
    (is_Some (counter !! top) ∧ ∀ k, is_Some (counter !! k) → k <= top)
    ∧ Float64._smooth_counter rel_err counter = Ok smoothed_counter
    ∧ smoothed_counter !! 1 = Some (Counter_get counter 1)
    ∧ (∀ count, 2 <= count <= top →
         let g := geometric_mean3
                    (IZR (Counter_get counter (count - 1)) + 0.15)
                    (IZR (Counter_get counter count) + 0.15)
                    (IZR (Counter_get counter (count + 1)) + 0.15) in
         ∃ v, smoothed_counter !! count = Some v
              ∧ Py.math_ceil (g * (1 - eps)) <= v
                <= Py.math_ceil (g * (1 + eps))
              ∧ (Py.math_ceil (g * (1 - eps)) = Py.math_ceil (g * (1 + eps)) →
                 v = smoothed_value counter count)
              ∧ ((g * eps <= 1)%R →
                 smoothed_value counter count - 1 <= v
                 <= smoothed_value counter count + 1))
    ∧ (counter = scenario_histogram → (eps <= 1 / 32)%R →
         smoothed_counter !! 2
         = Some (Py.math_ceil
                   (exp (Py.np_mean (ln <$> [5.15; 0.15; 1.15]%R))))).
Proof.
  intros Herr Heps Hne Hrange.
  assert (map_Forall (λ _ freq, 0 <= freq) counter) as Hfreq.
  { intros k f Hk. destruct (Hrange k f Hk). lia. }
  assert (0 <= eps)%R as Heps0.
  { pose proof (Herr []) as H0. pose proof (Rabs_pos (rel_err [])). lra. }
  destruct (counter_top_exists counter Hne) as [top Htop].
  destruct (rounded_smooth_counter_lookup rel_err counter Hfreq top Htop)
    as (s & Hs & Hlook).
  pose proof (counter_top_spec counter top Htop) as [Hin Hmax].
  exists top, s. split; [done|]. split; [done|]. split; [|split].
  - rewrite Hlook. rewrite decide_False by lia. by rewrite decide_True.
  - intros count Hcount. cbv zeta.
    pose proof (geometric_mean3_shifted_pos counter Hfreq count) as Hg.
    eexists. split; [rewrite Hlook; by rewrite decide_True|].
    unfold Float64.rounded_mean, smoothed_value.
    set (g := geometric_mean3 _ _ _) in *.
    set (e := rel_err _).
    assert (- eps <= e <= eps)%R as [Hlo Hhi].
    { pose proof (Herr (map (λ v, IZR v + 0.15)%R
                            [Counter_get counter (count - 1);
                             Counter_get counter count;
                             Counter_get counter (count + 1)])) as He.
      fold e in He. apply Rabs_le_bounds in He. lra. }
    assert (g * (1 - eps) <= g * (1 + e))%R as Hbelow by nra.
    assert (g * (1 + e) <= g * (1 + eps))%R as Habove by nra.
    pose proof (math_ceil_mono _ _ Hbelow) as Hc1.
    pose proof (math_ceil_mono _ _ Habove) as Hc2.
    split; [lia|]. split.
    + intros Hsame.
      assert (g * (1 - eps) <= g)%R as Hg1 by nra.
      assert (g <= g * (1 + eps))%R as Hg2 by nra.
      pose proof (math_ceil_mono _ _ Hg1). pose proof (math_ceil_mono _ _ Hg2).
      lia.
    + intros Hsmall.
      assert (g + IZR (-1) <= g * (1 + e))%R as Hm1 by (simpl; nra).
      assert (g * (1 + e) <= g + IZR 1)%R as Hp1 by (simpl; nra).
      pose proof (math_ceil_mono _ _ Hm1) as Hd1.
      pose proof (math_ceil_mono _ _ Hp1) as Hd2.
      rewrite math_ceil_shift in Hd1, Hd2. lia.
  - intros -> Heps32. rewrite (scenario_top top Hin Hmax) in Hlook.
    rewrite Hlook, decide_True by lia. f_equal.
    rewrite scenario_value.
    unfold Float64.rounded_mean.
    destruct scenario_neighbours as (-> & -> & ->).
    set (e := rel_err _).
    assert (- eps <= e <= eps)%R as [Hlo Hhi].
    { pose proof (Herr (map (λ v, IZR v + 0.15)%R
                            [Counter_get scenario_histogram (2 - 1);
                             Counter_get scenario_histogram 2;
                             Counter_get scenario_histogram (2 + 1)])) as He.
      fold e in He. apply Rabs_le_bounds in He. lra. }
    rewrite <- exp_mean_log3_geometric by lra.
    pose proof (exp_mean_log3_pos 5.15 0.15 1.15) as Hg.
    pose proof (exp_mean_log3_cube 5.15 0.15 1.15) as Hcube.
    set (g := exp_mean_log3 5.15 0.15 1.15) in *.
    assert (g <= 32 / 33)%R as Hg32.
    { apply cube_le_reg; [done|]. rewrite Hcube by lra. lra. }
    apply math_ceil_spec; simpl; nra.
Qed.

Lemma smooth_counter_geometric_mean_witness :
  ∃ top smoothed_counter,
    (is_Some (scenario_histogram !! top)
     ∧ ∀ k, is_Some (scenario_histogram !! k) → k <= top)
    ∧ Float64._smooth_counter (λ _, / 2 ^ 52)%R scenario_histogram
      = Ok smoothed_counter
    ∧ smoothed_counter !! 1 = Some (Counter_get scenario_histogram 1)
    ∧ (∀ count, 2 <= count <= top →
         let g := geometric_mean3
                    (IZR (Counter_get scenario_histogram (count - 1)) + 0.15)
                    (IZR (Counter_get scenario_histogram count) + 0.15)
                    (IZR (Counter_get scenario_histogram (count + 1)) + 0.15) in
         ∃ v, smoothed_counter !! count = Some v
              ∧ Py.math_ceil (g * (1 - / 2 ^ 40)) <= v
                <= Py.math_ceil (g * (1 + / 2 ^ 40))
              ∧ (Py.math_ceil (g * (1 - / 2 ^ 40))
                 = Py.math_ceil (g * (1 + / 2 ^ 40)) →
                 v = smoothed_value scenario_histogram count)
              ∧ ((g * / 2 ^ 40 <= 1)%R →
                 smoothed_value scenario_histogram count - 1 <= v
                 <= smoothed_value scenario_histogram count + 1))
    ∧ (scenario_histogram = scenario_histogram → (/ 2 ^ 40 <= 1 / 32)%R →
         smoothed_counter !! 2
         = Some (Py.math_ceil
                   (exp (Py.np_mean (ln <$> [5.15; 0.15; 1.15]%R))))).
Proof.
  apply (smooth_counter_geometric_mean (λ _, / 2 ^ 52)%R (/ 2 ^ 40)%R
           scenario_histogram).
  - intros _. rewrite Rabs_pos_eq; lra.
  - lra.
  - apply (bool_decide_unpack _). vm_compute. exact I.
  - apply (bool_decide_unpack _). vm_compute. exact I.
Defined.

(** C10 — For a non-empty raw histogram whose counts are all at least 1
    (and whose frequencies are not negative), the smoothing pass returns a
    histogram whose keys are exactly the counts 1 to the largest raw count;
    its value at every count from 2 to that maximum is an integer at least
    1, whatever the raw frequency there, and it holds nothing beyond the
    maximum. *)
Theorem smooth_counter_support (counter : gmap Z Z) :
  counter ≠ ∅ →
  map_Forall (λ count freq, 1 <= count ∧ 0 <= freq) counter →
  ∃ top smoothed_counter,
    (is_Some (counter !! top) ∧ ∀ k, is_Some (counter !! k) → k <= top)
    ∧ MolLL._smooth_counter counter = Ok smoothed_counter
    ∧ (∀ k, is_Some (smoothed_counter !! k) ↔ 1 <= k <= top)
    ∧ (∀ count, 2 <= count <= top →
         ∃ v, smoothed_counter !! count = Some v ∧ 1 <= v)
    ∧ (∀ count, top < count → Counter_get smoothed_counter count = 0).
Proof.
  intros Hne Hall.
  assert (map_Forall (λ _ freq, 0 <= freq) counter) as Hfreq.
  { intros k v Hkv. by destruct (Hall k v Hkv). }
  destruct (counter_top_exists counter Hne) as [top Htop].
  destruct (smooth_counter_lookup counter Hfreq top Htop) as (s & Hs & Hlook).
  pose proof (counter_top_spec counter top Htop) as [Hin Hmax].
  assert (1 <= top) as Htop1.
  { destruct Hin as [v Hv]. by destruct (Hall top v Hv). }
  exists top, s. split; [done|]. split; [done|]. split; [|split].
  - intros k. rewrite Hlook.
    destruct (decide (2 <= k <= top)); [split; [lia|done]|].
    destruct (decide (k = 1)); [split; [lia|done]|].
    split; [by intros [? ?]|lia].
  - intros count Hcount. exists (smoothed_value counter count).
    rewrite Hlook, decide_True by done. split; [done|].
    by apply smoothed_value_pos.
  - intros count Hcount. unfold Counter_get. rewrite Hlook.
    rewrite decide_False by lia. by rewrite decide_False by lia.
Qed.

Lemma smooth_counter_support_witness :
  ∃ top smoothed_counter,
    (is_Some (scenario_histogram !! top)
     ∧ ∀ k, is_Some (scenario_histogram !! k) → k <= top)
    ∧ MolLL._smooth_counter scenario_histogram = Ok smoothed_counter
    ∧ (∀ k, is_Some (smoothed_counter !! k) ↔ 1 <= k <= top)
    ∧ (∀ count, 2 <= count <= top →
         ∃ v, smoothed_counter !! count = Some v ∧ 1 <= v)
    ∧ (∀ count, top < count → Counter_get smoothed_counter count = 0).
Proof.
  apply (smooth_counter_support scenario_histogram).
  - apply (bool_decide_unpack _). vm_compute. exact I.
  - apply (bool_decide_unpack _). vm_compute. exact I.
Defined.


(** ** Scoring, step by step *)

Section ScoringSteps.

Context {KD : Type}.
Implicit Types self : BaseLL KD.

Lemma truediv_ok (x y : R) : y ≠ 0%R → Py.truediv x y = Ok (x / y)%R.
Proof. intros. unfold Py.truediv. by rewrite Reqb_false. Qed.

Lemma truediv_zero (x : R) : Py.truediv x 0 = Raise ZeroDivisionError.
Proof. unfold Py.truediv. by rewrite Reqb_true. Qed.

Lemma math_log_ok (x : R) : (0 < x)%R → Py.math_log x = Ok (ln x).
Proof. intros. unfold Py.math_log. by rewrite Rltb_true. Qed.

Lemma likelihood_ok self (count : Z) :
  denominator self ≠ 0%R →
  likelihood self count = Ok (likelihood_value self count).
Proof. intros. unfold likelihood. by rewrite truediv_ok. Qed.

Lemma likelihood_value_pos self (count : Z) :
  (0 < smoothing self)%R → (0 < denominator self)%R → 0 <= count →
  (0 < likelihood_value self count)%R.
Proof.
  intros Hs Hd Hc%IZR_le. unfold likelihood_value.
  apply Rdiv_lt_0_compat; lra.
Qed.

Lemma accumulate_ok self (count : Z) (num_atoms : N) (ll : R) (atom_count : N) :
  (0 < smoothing self)%R → (0 < denominator self)%R → 0 <= count →
  accumulate self count num_atoms (ll, atom_count)
  = Ok ((ll + ln (likelihood_value self count) * IZR (Z.of_N num_atoms))%R,
        (atom_count + num_atoms)%N).
Proof.
  intros Hs Hd Hc. unfold accumulate.
  rewrite likelihood_ok by lra. cbn [mbind result_bind].
  rewrite math_log_ok by (by apply likelihood_value_pos). done.
Qed.

Lemma Rpower_unit_range (p : positive) (a : R) :
  (0 <= a <= 1)%R →
  (1 <= Rpower (IZR (Z.pos p)) a <= IZR (Z.pos p))%R.
Proof.
  intros [Ha0 Ha1]. unfold Rpower.
  assert (1 <= IZR (Z.pos p))%R as Hp by (apply IZR_le; lia).
  assert (0 <= ln (IZR (Z.pos p)))%R as Hln.
  { rewrite <- ln_1. destruct Hp as [Hlt| <-]; [|lra].
    left. apply ln_increasing; lra. }
  assert (0 <= a * ln (IZR (Z.pos p)) <= ln (IZR (Z.pos p)))%R as [Hlo Hhi]
    by nra.
  split.
  - rewrite <- exp_0. destruct Hlo as [Hlt| <-]; [|lra].
    left. by apply exp_increasing.
  - rewrite <- (exp_ln (IZR (Z.pos p))) at 2 by lra.
    destruct Hhi as [Hlt| ->]; [|lra].
    left. by apply exp_increasing.
Qed.

Lemma DBL_MAX_above (z : Z) : z < 2 ^ 64 → (IZR z < Py.DBL_MAX)%R.
Proof.
  intros Hz. unfold Py.DBL_MAX. apply IZR_lt.
  assert (2 ^ 64 < 2 ^ 1024 - 2 ^ 971) by (vm_compute; reflexivity). lia.
Qed.

Lemma DBL_UNDERFLOW_below_1 : (Py.DBL_UNDERFLOW < 1)%R.
Proof.
  unfold Py.DBL_UNDERFLOW. rewrite <- Rinv_1.
  apply Rinv_lt_contravar; [|apply IZR_lt; vm_compute; reflexivity].
  rewrite Rmult_1_l. apply IZR_lt. vm_compute. reflexivity.
Qed.

(** With an exponent in the documented range, from 0 to 1, and an atom
    count that fits 64 bits, the power is a double of at least 1. *)
Lemma correct_for_atoms_pos self (ll : R) (p : positive) :
  (0 <= alpha self <= 1)%R → Z.pos p < 2 ^ 64 →
  correct_for_atoms self (ll, Npos p)
  = Ok (ll / Rpower (IZR (Z.pos p)) (alpha self))%R.
Proof.
  intros Ha Hp. unfold correct_for_atoms. cbn [Py.pow].
  pose proof (Rpower_unit_range p (alpha self) Ha) as [Hlo Hhi].
  pose proof (DBL_MAX_above (Z.pos p) Hp) as Hmax.
  pose proof DBL_UNDERFLOW_below_1 as Hmin.
  rewrite !Rltb_false by lra. cbn [mbind result_bind].
  apply truediv_ok. lra.
Qed.

Lemma correct_for_atoms_zero self (ll : R) :
  (0 < alpha self)%R →
  correct_for_atoms self (ll, 0%N) = Raise ZeroDivisionError.
Proof.
  intros Ha. unfold correct_for_atoms. cbn [Py.pow].
  rewrite Rltb_false by lra. rewrite Reqb_false by lra.
  cbn [mbind result_bind]. apply truediv_zero.
Qed.

Lemma correct_for_atoms_zero_alpha self (ll : R) :
  alpha self = 0%R →
  correct_for_atoms self (ll, 0%N) = Ok (ll / 1)%R.
Proof.
  intros Ha. unfold correct_for_atoms. cbn [Py.pow]. rewrite Ha.
  rewrite Rltb_false by lra. rewrite Reqb_true.
  cbn [mbind result_bind]. apply truediv_ok. lra.
Qed.

End ScoringSteps.

(** ** The frequency model on the scenario *)

Lemma AtomLL_fit_eq (mols : list Mol) (self : BaseLL (gmap Z Z)) :
  AtomLL.fit mols self
  = (Ok (),
     mkLL (class_name self) (smoothing self) (estimated_keyspace self)
          (alpha self) (_radius self)
          (Some (atom_key_data (_radius self) mols))
          (map_fold (λ _ v acc, acc + v) 0
                    (atom_key_data (_radius self) mols))).
Proof. done. Qed.

Lemma scenario_key_data :
  atom_key_data 1 scenario_mols = {[1 := 3; 2 := 1; 3 := 3]}.
Proof. vm_compute. reflexivity. Qed.

Lemma scenario_observations :
  map_fold (λ _ v acc, acc + v) 0 ({[1 := 3; 2 := 1; 3 := 3]} : gmap Z Z) = 7.
Proof. vm_compute. reflexivity. Qed.

(** C2 — The frequency model with smoothing 0.1, estimated keyspace 10 and
    exponent 0, fitted on two molecules whose fingerprints are [{1:2, 2:1}]
    and [{1:1, 3:3}], holds the statistics [{1:3, 2:1, 3:3}] and 7
    observations, and scores a molecule with fingerprint [{1:1}] as exactly
    [ln((3 + 0.1) / (7 + 1.0))]. *)
Theorem frequency_model_scenario :
  AtomLL.fit scenario_mols scenario_model
  = (Ok (), mkLL "AtomLL" 0.1 10 0 1 (Some {[1 := 3; 2 := 1; 3 := 3]}) 7)
  ∧ _n_observations (snd (AtomLL.fit scenario_mols scenario_model)) = 7
  ∧ AtomLL.calculate_ll scenario_query
      (snd (AtomLL.fit scenario_mols scenario_model))
    = (Ok (ln ((3 + 0.1) / (7 + 1.0)))%R,
       snd (AtomLL.fit scenario_mols scenario_model)).
Proof.
  assert (AtomLL.fit scenario_mols scenario_model
          = (Ok (), mkLL "AtomLL" 0.1 10 0 1
                         (Some {[1 := 3; 2 := 1; 3 := 3]}) 7)) as Hfit.
  { rewrite AtomLL_fit_eq. cbn [scenario_model __init__ class_name smoothing
      estimated_keyspace alpha _radius].
    by rewrite scenario_key_data, scenario_observations. }
  split; [done|]. rewrite Hfit. cbn [snd]. split; [done|].
  unfold AtomLL.calculate_ll, scenario_query, _get_fp.
  f_equal. rewrite map_to_list_singleton. cbn [foldl mbind result_bind].
  unfold AtomLL.stat_count. cbn [_key_data mbind result_bind].
  change (Counter_get {[1 := 3; 2 := 1; 3 := 3]} 1) with 3.
  rewrite accumulate_ok;
    [|cbn; lra|unfold denominator; cbn; lra|lia].
  cbn [mbind result_bind]. change (0 + 1)%N with (Npos 1).
  rewrite correct_for_atoms_pos; [|cbn [alpha]; lra|lia].
  f_equal. cbn [alpha]. rewrite Rpower_O by lra.
  unfold likelihood_value, denominator. cbn.
  replace (7 + 10 * 0.1)%R with (7 + 1.0)%R by lra. lra.
Qed.


(** ** What [MolLL.fit] gathers *)

Section RawStatistics.

Lemma defaultdict_incr_insert (kd : gmap molkey (gmap Z Z)) k count :
  defaultdict_incr kd k count
  = <[k := Counter_incr (default ∅ (kd !! k)) count]> kd.
Proof.
  unfold defaultdict_incr, defaultdict_get.
  destruct (kd !! k) as [c|]; simpl; [done|]. by rewrite insert_insert_eq.
Qed.

Lemma Counter_incr_raw_ok (c : gmap Z Z) (count : Z) :
  0 <= count →
  map_Forall (λ count freq, 0 <= count ∧ 1 <= freq) c →
  raw_ok (Counter_incr c count).
Proof.
  intros Hcount Hall. unfold Counter_incr. split.
  - apply insert_non_empty.
  - apply map_Forall_insert_2; [|done]. split; [done|].
    unfold Counter_get. destruct (c !! count) as [f|] eqn:Hf; simpl; [|lia].
    destruct (Hall count f Hf). lia.
Qed.

Lemma defaultdict_incr_raw_ok (kd : gmap molkey (gmap Z Z)) k count :
  0 <= count →
  map_Forall (λ _ c, raw_ok c) kd →
  map_Forall (λ _ c, raw_ok c) (defaultdict_incr kd k count).
Proof.
  intros Hcount Hall. rewrite defaultdict_incr_insert.
  apply map_Forall_insert_2; [|done].
  apply Counter_incr_raw_ok; [done|].
  destruct (kd !! k) as [c|] eqn:Hk; simpl.
  - by destruct (Hall k c Hk).
  - apply map_Forall_empty.
Qed.

Lemma count_mol_raw_ok (kd : gmap molkey (gmap Z Z)) (fp : fingerprint) :
  map_Forall (λ _ c, raw_ok c) kd →
  map_Forall (λ _ c, raw_ok c) (MolLL.count_mol kd fp).
Proof.
  intros Hall. unfold MolLL.count_mol.
  apply defaultdict_incr_raw_ok; [lia|].
  apply (map_fold_weak_ind
           (λ r _, map_Forall (λ _ c, raw_ok c) r)); [done|].
  intros key count m r _ Hr. by apply defaultdict_incr_raw_ok.
Qed.

Lemma raw_key_data_ok (radius : Z) (mols : list Mol) :
  map_Forall (λ _ c, raw_ok c) (raw_key_data radius mols).
Proof.
  unfold raw_key_data.
  assert (map_Forall (λ _ c, raw_ok c) (∅ : gmap molkey (gmap Z Z))) as Hstart
    by apply map_Forall_empty.
  revert Hstart. generalize (∅ : gmap molkey (gmap Z Z)).
  induction mols as [|mol mols IH]; intros kd Hkd; simpl; [done|].
  apply IH. by apply count_mol_raw_ok.
Qed.

Lemma raw_ok_frequencies (c : gmap Z Z) :
  raw_ok c → map_Forall (λ _ freq, 0 <= freq) c.
Proof. intros [_ Hall] k f Hk. destruct (Hall k f Hk). lia. Qed.

(** A counter gathered by [fit] always smooths. *)
Lemma raw_ok_smooths (c : gmap Z Z) :
  raw_ok c → MolLL._smooth_counter c = Ok (smoothed c).
Proof.
  intros Hok. pose proof Hok as [Hne _].
  destruct (counter_top_exists c Hne) as [top Htop].
  destruct (smooth_counter_lookup c (raw_ok_frequencies c Hok) top Htop)
    as (s & Hs & _).
  unfold smoothed. by rewrite Hs.
Qed.

(** The loop of [_smooth_all_counters], when every counter smooths. *)
Lemma smooth_all_ok (kd base : gmap molkey (gmap Z Z)) :
  map_Forall (λ _ c, raw_ok c) kd →
  ∃ d, map_fold (λ key counter acc,
                   d ← acc; s ← MolLL._smooth_counter counter;
                   Ok (<[key := s]> d)) (Ok base) kd = Ok d
       ∧ ∀ k, d !! k = match kd !! k with
                       | Some c => Some (smoothed c)
                       | None => base !! k
                       end.
Proof.
  apply (map_fold_weak_ind
    (λ r m, map_Forall (λ _ c, raw_ok c) m →
            ∃ d, r = Ok d
                 ∧ ∀ k, d !! k = match m !! k with
                                 | Some c => Some (smoothed c)
                                 | None => base !! k
                                 end)).
  - intros _. exists base. split; [done|]. intros k. by rewrite lookup_empty.
  - intros key c m r Hfresh IH Hall.
    apply map_Forall_insert in Hall as [Hc Hall]; [|done].
    destruct (IH Hall) as (d & -> & Hd).
    cbn [mbind result_bind]. rewrite raw_ok_smooths by done.
    cbn [mbind result_bind]. eexists. split; [done|]. intros k.
    destruct (decide (k = key)) as [->|Hne].
    + by rewrite !lookup_insert_eq.
    + by rewrite !lookup_insert_ne, Hd by done.
Qed.

Lemma MolLL_fit_eq (mols : list Mol) (self : BaseLL (gmap molkey (gmap Z Z))) :
  MolLL.fit mols self
  = (Ok (),
     mkLL (class_name self) (smoothing self) (estimated_keyspace self)
          (alpha self) (_radius self)
          (Some (smoothed <$> raw_key_data (_radius self) mols))
          (MolLL.n_observations (raw_key_data (_radius self) mols))).
Proof.
  unfold MolLL.fit, mbind, method_bind, MolLL._calculate_observations.
  cbn [set_key_data _key_data].
  change (foldl _ ∅ mols) with (raw_key_data (_radius self) mols).
  unfold MolLL._smooth_all_counters.
  cbn [set_n_observations set_key_data _key_data].
  destruct (smooth_all_ok (raw_key_data (_radius self) mols)
              (raw_key_data (_radius self) mols)
              (raw_key_data_ok _ _)) as (d & -> & Hd).
  unfold set_key_data. cbn. do 3 f_equal. apply map_eq. intros k.
  rewrite Hd, lookup_fmap. by destruct (_ !! k).
Qed.

End RawStatistics.


(** ** Sums of [count * frequency] *)

Section Totals.

Lemma Zsum_perm (l1 l2 : list Z) :
  l1 ≡ₚ l2 → foldr Z.add 0 l1 = foldr Z.add 0 l2.
Proof. induction 1; simpl; lia. Qed.

Lemma counter_loop_total (l : list (Z * Z)) (n : Z) :
  foldr (uncurry (λ count specific_obs n, n + count * specific_obs)) n l
  = n + foldr Z.add 0 (map (λ '(count, freq), count * freq) l).
Proof.
  induction l as [|[count freq] l IH]; simpl; [lia|]. rewrite IH. lia.
Qed.

(** The double loop of [_calculate_observations] computes the sum of
    [count * frequency] over all entries. *)
Lemma n_observations_total (kd : gmap molkey (gmap Z Z)) :
  MolLL.n_observations kd = weighted_total kd.
Proof.
  unfold MolLL.n_observations, weighted_total. rewrite map_fold_foldr.
  induction (map_to_list kd) as [|[key counter] l IH]; simpl; [done|].
  rewrite IH, map_fold_foldr, counter_loop_total. unfold counter_total. lia.
Qed.

Lemma counter_total_delete (c : gmap Z Z) (k f : Z) :
  c !! k = Some f → counter_total c = k * f + counter_total (delete k c).
Proof.
  intros Hk. unfold counter_total.
  rewrite <- (Zsum_perm _ _ (fmap_Permutation _ _ _ (map_to_list_delete c k f Hk))).
  done.
Qed.

Lemma counter_total_nonneg (c : gmap Z Z) :
  map_Forall (λ count freq, 0 <= count ∧ 0 <= freq) c → 0 <= counter_total c.
Proof.
  intros Hall%map_Forall_to_list. unfold counter_total.
  induction Hall as [|[count freq] l [Hc Hf] _ IH]; simpl in *; [lia|nia].
Qed.

Lemma weighted_total_delete (kd : gmap molkey (gmap Z Z)) k c :
  kd !! k = Some c →
  weighted_total kd = counter_total c + weighted_total (delete k kd).
Proof.
  intros Hk. unfold weighted_total.
  rewrite <- (Zsum_perm _ _ (fmap_Permutation _ _ _ (map_to_list_delete kd k c Hk))).
  done.
Qed.

Lemma weighted_total_nonneg (kd : gmap molkey (gmap Z Z)) :
  map_Forall (λ _ c, 0 <= counter_total c) kd → 0 <= weighted_total kd.
Proof.
  intros Hall%map_Forall_to_list. unfold weighted_total.
  induction Hall as [|[key c] l Hc _ IH]; simpl in *; lia.
Qed.

Lemma weighted_total_ge (kd : gmap molkey (gmap Z Z)) k c :
  map_Forall (λ _ c, 0 <= counter_total c) kd →
  kd !! k = Some c → counter_total c <= weighted_total kd.
Proof.
  intros Hall Hk. rewrite (weighted_total_delete kd k c Hk).
  pose proof (weighted_total_nonneg (delete k kd)
                (map_Forall_delete _ _ k Hall)). lia.
Qed.

End Totals.

(** ** Observations are counted before smoothing *)

Lemma smoothed_exec (counter : gmap Z Z) :
  smoothed counter = Exec.smoothed counter.
Proof. unfold smoothed, Exec.smoothed. by rewrite smooth_counter_exec. Qed.

Lemma smoothed_fmap_exec (kd : gmap molkey (gmap Z Z)) :
  smoothed <$> kd = Exec.smoothed <$> kd.
Proof. apply map_fmap_ext. intros. apply smoothed_exec. Qed.

(** After [fit] on one molecule whose only fragment occurs three times, 6
    observations are recorded while the smoothed statistics the model keeps
    sum to 10: the claim as stated fails. *)
Lemma fit_total_differs :
  ∃ kd,
    MolLL.fit [thrice] default_MolLL
    = (Ok (), mkLL "MolLL" 0.1 2000000 1 1 (Some kd) 6)
    ∧ weighted_total kd = 10.
Proof.
  exists (Exec.smoothed <$> raw_key_data 1 [thrice]). split.
  - rewrite MolLL_fit_eq. cbn [default_MolLL __init__ class_name smoothing
      estimated_keyspace alpha _radius].
    rewrite smoothed_fmap_exec. do 2 f_equal.
  - vm_compute. reflexivity.
Qed.

(** C3 (as amended) — For every count-distribution model and every training
    collection, [fit] completes, and the observation count it records is
    the sum of [count * frequency] over every entry of every inner mapping
    of the raw statistics it gathered, the reserved key included; the
    statistics it keeps are those raw mappings after smoothing, each of
    which smooths without error. *)
Theorem fit_counts_raw_observations
    (self : BaseLL (gmap molkey (gmap Z Z))) (mols : list Mol) :
  ∃ self',
    MolLL.fit mols self = (Ok (), self')
    ∧ _n_observations self'
      = weighted_total (raw_key_data (_radius self) mols)
    ∧ _key_data self' = Some (smoothed <$> raw_key_data (_radius self) mols)
    ∧ ∀ key counter,
        raw_key_data (_radius self) mols !! key = Some counter →
        MolLL._smooth_counter counter = Ok (smoothed counter).
Proof.
  eexists. split; [apply MolLL_fit_eq|]. cbn [_n_observations _key_data].
  split; [apply n_observations_total|]. split; [done|].
  intros key counter Hkey. apply raw_ok_smooths.
  by apply (raw_key_data_ok (_radius self) mols key).
Qed.


(** ** Scoring with [MolLL] only adds empty counters *)

Section MolLLReads.

Implicit Types self : BaseLL (gmap molkey (gmap Z Z)).

Lemma same_reads_refl self : same_reads self self.
Proof. unfold same_reads. by destruct (_key_data self). Qed.

Lemma accumulate_same_reads self self' (c : Z) (n : N) (acc : R * N) :
  same_reads self self' → accumulate self c n acc = accumulate self' c n acc.
Proof.
  intros (_ & Hs & Hk & _ & _ & Hn & _).
  unfold accumulate, likelihood. by rewrite Hs, Hk, Hn.
Qed.

Lemma defaultdict_get_reads (kd : gmap molkey (gmap Z Z)) (key : molkey) :
  fst (defaultdict_get kd key) = default ∅ (kd !! key)
  ∧ ∀ k, default ∅ (snd (defaultdict_get kd key) !! k) = default ∅ (kd !! k).
Proof.
  unfold defaultdict_get. destruct (kd !! key) as [c|] eqn:Hkey; simpl.
  - done.
  - split; [done|]. intros k. destruct (decide (k = key)) as [->|Hne].
    + by rewrite lookup_insert_eq, Hkey.
    + by rewrite lookup_insert_ne.
Qed.

(** One pass of the loop returns what the pure read returns, and leaves an
    object no read can tell from the one it started with. *)
Lemma score_pair_reads self self1 (key : molkey) (counts : N) (acc : R * N) :
  same_reads self1 self →
  fst (MolLL.score_pair key counts acc self1)
  = MolLL_read_pair self (Ok acc) (key, counts)
  ∧ same_reads (snd (MolLL.score_pair key counts acc self1)) self.
Proof.
  intros Hsame. pose proof Hsame as (Hc & Hs & Hk & Ha & Hr & Hn & Hkd).
  unfold MolLL.score_pair, MolLL_read_pair. cbn [mbind result_bind fst snd].
  destruct (_key_data self1) as [kd1|] eqn:Hkd1,
           (_key_data self) as [kd|] eqn:Hkd0; try done.
  destruct (defaultdict_get_reads kd1 key) as [Hread Hrest].
  destruct (defaultdict_get kd1 key) as [counter kd1'] eqn:Hget.
  cbn [fst snd] in *.
  assert (same_reads (set_key_data self1 kd1') self) as Hsame'.
  { unfold same_reads. cbn [set_key_data class_name smoothing
      estimated_keyspace alpha _radius _n_observations _key_data].
    rewrite Hkd0. repeat split; try done.
    intros k. by rewrite Hrest, Hkd. }
  split; [|done].
  rewrite (accumulate_same_reads _ _ _ _ _ Hsame').
  unfold MolLL_stat. by rewrite Hread, Hkd.
Qed.

Lemma score_loop_reads self (pairs : list (molkey * N))
    (m0 : method (gmap molkey (gmap Z Z)) (R * N)) (r0 : result (R * N)) :
  fst (m0 self) = r0 →
  same_reads (snd (m0 self)) self →
  fst (foldl (λ m '(key, counts), a ← m; MolLL.score_pair key counts a)
             m0 pairs self)
  = foldl (MolLL_read_pair self) r0 pairs
  ∧ same_reads
      (snd (foldl (λ m '(key, counts), a ← m; MolLL.score_pair key counts a)
                  m0 pairs self))
      self.
Proof.
  revert m0 r0. induction pairs as [|[key counts] pairs IH];
    intros m0 r0 Hr0 Hsame; cbn [foldl]; [done|].
  apply IH.
  - unfold mbind, method_bind. destruct (m0 self) as [[a|e] self1] eqn:Hm0;
      cbn [fst snd] in *; subst r0.
    + by apply score_pair_reads.
    + done.
  - unfold mbind, method_bind. destruct (m0 self) as [[a|e] self1] eqn:Hm0;
      cbn [fst snd] in *.
    + by apply score_pair_reads.
    + done.
Qed.

(** [MolLL.calculate_ll] returns the score of the pure reading. *)
Lemma MolLL_calculate_ll_reads self (mol : Mol) :
  fst (MolLL.calculate_ll mol self) = MolLL_score self mol
  ∧ same_reads (snd (MolLL.calculate_ll mol self)) self.
Proof.
  unfold MolLL.calculate_ll, MolLL_score.
  set (pairs := MolLL.scored_pairs (_get_fp self mol)).
  set (loop := foldl _ _ pairs).
  destruct (score_loop_reads self pairs (method_ret _ (0%R, 0%N))
              (Ok (0%R, 0%N)) eq_refl (same_reads_refl self)) as [Hval Hsame].
  change (fst (loop self) = foldl (MolLL_read_pair self) (Ok (0%R, 0%N)) pairs)
    in Hval.
  change (same_reads (snd (loop self)) self) in Hsame.
  rewrite <- Hval.
  change ((loop ≫= λ acc, pure_call (correct_for_atoms self acc)) self)
    with (match loop self with
          | (Ok a, self') => pure_call (correct_for_atoms self a) self'
          | (Raise e, self') => (Raise e, self')
          end).
  by destruct (loop self) as [[acc|e] self1].
Qed.

End MolLLReads.

(** ** Scoring many molecules *)

Section Batch.

Lemma mapM_result_cons {A B} (f : A → result B) (x : A) (l : list A) :
  mapM f (x :: l) = y ← f x; k ← mapM f l; Ok (y :: k).
Proof. done. Qed.

Lemma mapM_method_cons {KD A B} (f : A → method KD B) (x : A) (l : list A)
    (self : BaseLL KD) :
  mapM f (x :: l) self
  = match f x self with
    | (Ok y, self1) =>
        match mapM f l self1 with
        | (Ok k, self2) => (Ok (y :: k), self2)
        | (Raise e, self2) => (Raise e, self2)
        end
    | (Raise e, self1) => (Raise e, self1)
    end.
Proof. done. Qed.

Lemma mapM_result_Ok {A B} (f : A → result B) (l : list A) (k : list B) :
  mapM f l = Ok k ↔ Forall2 (λ x y, f x = Ok y) l k.
Proof.
  revert k. induction l as [|x l IH]; intros k.
  - split.
    + intros [= <-]. constructor.
    + intros Hk. by inversion Hk.
  - rewrite mapM_result_cons. split.
    + destruct (f x) as [y|e] eqn:Hx; [|done].
      destruct (mapM f l) as [k'|e] eqn:Hl; [|done].
      intros [= <-]. constructor; [done|]. by apply IH.
    + intros Hk. inversion Hk as [|? y ? k' Hx Hl]; subst.
      rewrite Hx. apply IH in Hl. by rewrite Hl.
Qed.

Lemma AtomLL_calculate_lls (self : BaseLL (gmap Z Z)) (mols : list Mol) :
  calculate_lls mols self
  = (mapM (λ mol, fst (calculate_ll mol self)) mols, self).
Proof.
  unfold calculate_lls.
  induction mols as [|mol mols IH]; [done|].
  rewrite mapM_method_cons, mapM_result_cons. cbn beta.
  change (calculate_ll mol self)
    with (fst (AtomLL.calculate_ll mol self), self).
  cbn [fst]. destruct (fst (AtomLL.calculate_ll mol self)) as [ll|e]; [|done].
  rewrite IH. by destruct (mapM (M := result) _ mols).
Qed.

Lemma same_reads_trans (s1 s2 s3 : BaseLL (gmap molkey (gmap Z Z))) :
  same_reads s1 s2 → same_reads s2 s3 → same_reads s1 s3.
Proof.
  intros (? & ? & ? & ? & ? & ? & H12) (? & ? & ? & ? & ? & ? & H23).
  unfold same_reads. repeat split; try congruence.
  destruct (_key_data s1), (_key_data s2), (_key_data s3); try done.
  intros key. by rewrite H12.
Qed.

Lemma same_reads_sym (s1 s2 : BaseLL (gmap molkey (gmap Z Z))) :
  same_reads s1 s2 → same_reads s2 s1.
Proof.
  intros (? & ? & ? & ? & ? & ? & H12).
  unfold same_reads. repeat split; try congruence.
  by destruct (_key_data s1), (_key_data s2).
Qed.

Lemma MolLL_read_pair_same_reads (s1 s2 : BaseLL (gmap molkey (gmap Z Z)))
    acc pair :
  same_reads s1 s2 → MolLL_read_pair s1 acc pair = MolLL_read_pair s2 acc pair.
Proof.
  intros Hsame. pose proof Hsame as (_ & _ & _ & _ & _ & _ & Hkd).
  unfold MolLL_read_pair. destruct acc as [a|e]; [|done].
  cbn [mbind result_bind].
  destruct (_key_data s1) as [kd1|], (_key_data s2) as [kd2|]; try done.
  unfold MolLL_stat. rewrite Hkd. by apply accumulate_same_reads.
Qed.

(** The pure score does not tell such objects apart either. *)
Lemma MolLL_score_same_reads (s1 s2 : BaseLL (gmap molkey (gmap Z Z))) mol :
  same_reads s1 s2 → MolLL_score s1 mol = MolLL_score s2 mol.
Proof.
  intros Hsame. pose proof Hsame as (_ & _ & _ & Ha & Hr & _ & _).
  unfold MolLL_score, _get_fp. rewrite Hr.
  generalize (MolLL.scored_pairs (mol (_radius s2))). intros pairs.
  assert (foldl (MolLL_read_pair s1) (Ok (0%R, 0%N)) pairs
          = foldl (MolLL_read_pair s2) (Ok (0%R, 0%N)) pairs) as ->.
  { generalize (Ok (0%R, 0%N) : result (R * N)).
    induction pairs as [|pair pairs IH]; intros acc; cbn [foldl]; [done|].
    by rewrite (MolLL_read_pair_same_reads s1 s2), IH. }
  destruct (foldl _ _ pairs) as [[ll n]|e]; [|done].
  cbn [mbind result_bind]. unfold correct_for_atoms. by rewrite Ha.
Qed.

Lemma MolLL_calculate_lls (self self1 : BaseLL (gmap molkey (gmap Z Z)))
    (mols : list Mol) :
  same_reads self1 self →
  fst (calculate_lls mols self1)
  = mapM (λ mol, fst (calculate_ll mol self)) mols
  ∧ same_reads (snd (calculate_lls mols self1)) self.
Proof.
  unfold calculate_lls. revert self1.
  induction mols as [|mol mols IH]; intros self1 Hsame; [done|].
  rewrite mapM_method_cons, mapM_result_cons.
  cbn [calculate_ll MolLL_model].
  destruct (MolLL_calculate_ll_reads self1 mol) as [Hval1 Hsame1].
  destruct (MolLL_calculate_ll_reads self mol) as [Hval _].
  rewrite Hval, <- (MolLL_score_same_reads self1 self mol Hsame), <- Hval1.
  destruct (MolLL.calculate_ll mol self1) as [[ll|e] self2];
    cbn [fst snd] in *; [|split; [done|by eapply same_reads_trans]].
  destruct (IH self2 (same_reads_trans _ _ _ Hsame1 Hsame)) as [Hrest Hsame2].
  cbn [calculate_ll MolLL_model] in Hrest, Hsame2.
  cbn [mbind result_bind]. rewrite <- Hrest.
  by destruct (mapM MolLL.calculate_ll mols self2) as [[lls|e] self3].
Qed.

End Batch.

(** C9 — For a model of either class and a list of molecules,
    [calculate_lls] returns a list exactly when every molecule scores, and
    the list it returns has one score per molecule, in the order of the
    input: its i-th element is the score of the i-th molecule. *)
Theorem calculate_lls_in_order
    (atom_model : BaseLL (gmap Z Z))
    (mol_model : BaseLL (gmap molkey (gmap Z Z)))
    (mols : list Mol) (lls : list R) :
  (fst (calculate_lls mols atom_model) = Ok lls
   ↔ Forall2 (λ mol ll, fst (calculate_ll mol atom_model) = Ok ll) mols lls)
  ∧ (fst (calculate_lls mols mol_model) = Ok lls
     ↔ Forall2 (λ mol ll, fst (calculate_ll mol mol_model) = Ok ll) mols lls)
  ∧ (fst (calculate_lls mols atom_model) = Ok lls
     ∨ fst (calculate_lls mols mol_model) = Ok lls →
     length lls = length mols).
Proof.
  rewrite AtomLL_calculate_lls. cbn [fst].
  destruct (MolLL_calculate_lls mol_model mol_model mols
              (same_reads_refl mol_model)) as [-> _].
  rewrite !mapM_result_Ok. split; [done|]. split; [done|].
  intros [H|H]; symmetry; by eapply Forall2_length.
Qed.

(** ** A smoothed frequency never exceeds the observations behind it *)

Section SmoothedBounds.

Lemma scaled_product_le_sum (a b c : Z) :
  0 <= a → 0 <= b → 0 <= c →
  Exec.scaled_product a b c
  <= 8000 * (Z.max 1 (a + b + c) * Z.max 1 (a + b + c) * Z.max 1 (a + b + c)).
Proof.
  intros Ha Hb Hc. unfold Exec.scaled_product.
  destruct (decide (a + b + c = 0)) as [Hz|Hnz].
  - assert (a = 0) as -> by lia. assert (b = 0) as -> by lia.
    assert (c = 0) as -> by lia. simpl. lia.
  - set (s := a + b + c). assert (1 <= s) as Hs by lia.
    rewrite Z.max_r by lia.
    assert (4 * (b * c) <= (b + c) * (b + c)) as Hbc.
    { pose proof (Z.square_nonneg (b - c)). lia. }
    assert ((b + c) * (b + c) <= s * s) as Hbcs.
    { apply Z.mul_le_mono_nonneg; unfold s; lia. }
    assert (a * (4 * (b * c)) <= s * (s * s)) as Habc.
    { apply Z.mul_le_mono_nonneg; unfold s; lia. }
    assert (a * b + b * c + c * a <= s * s) as Hpairs.
    { pose proof (Z.square_nonneg a). pose proof (Z.square_nonneg b).
      pose proof (Z.square_nonneg c).
      pose proof (Z.mul_nonneg_nonneg a b Ha Hb).
      pose proof (Z.mul_nonneg_nonneg b c Hb Hc).
      pose proof (Z.mul_nonneg_nonneg c a Hc Ha).
      unfold s. lia. }
    assert (s <= s * s) as Hs2 by nia.
    assert (s * s <= s * s * s) as Hs3 by nia.
    pose proof (Z.mul_nonneg_nonneg a (4 * (b * c)) Ha) as Hnn.
    replace ((20 * a + 3) * (20 * b + 3) * (20 * c + 3))
      with (2000 * (a * (4 * (b * c))) + 1200 * (a * b + b * c + c * a)
            + 180 * s + 27) by (unfold s; ring).
    nia.
Qed.

Variable counter : gmap Z Z.
Hypothesis frequencies_nonneg : map_Forall (λ _ freq, 0 <= freq) counter.

Lemma smoothed_value_spec (k : Z) :
  let p := Exec.scaled_product (Counter_get counter (k - 1))
             (Counter_get counter k) (Counter_get counter (k + 1)) in
  let v := smoothed_value counter k in
  8000 * ((v - 1) * (v - 1) * (v - 1)) < p ∧ p <= 8000 * (v * v * v).
Proof.
  intros p v.
  pose proof (Counter_get_nonneg counter (k - 1) frequencies_nonneg) as Ha.
  pose proof (Counter_get_nonneg counter k frequencies_nonneg) as Hb.
  pose proof (Counter_get_nonneg counter (k + 1) frequencies_nonneg) as Hc.
  set (m := Z.max (Counter_get counter (k - 1))
              (Z.max (Counter_get counter k) (Counter_get counter (k + 1)))).
  destruct (first_cube_above_spec (Z.to_nat m) 1 p) as (_ & Hlo & Hhi).
  - lia.
  - pose proof (scaled_product_pos _ _ _ Ha Hb Hc). fold p in H. lia.
  - rewrite Z2Nat.id by lia. apply scaled_product_le; lia.
  - assert (v = Exec.first_cube_above (Z.to_nat m) 1 p) as ->; [|done].
    unfold v, smoothed_value.
    rewrite <- exp_mean_log3_geometric by (by apply shifted_count_pos).
    by apply ceil_geomean_between.
Qed.

Lemma smoothed_value_le_sum (k : Z) :
  smoothed_value counter k
  <= Z.max 1 (Counter_get counter (k - 1) + Counter_get counter k
              + Counter_get counter (k + 1)).
Proof.
  pose proof (Counter_get_nonneg counter (k - 1) frequencies_nonneg) as Ha.
  pose proof (Counter_get_nonneg counter k frequencies_nonneg) as Hb.
  pose proof (Counter_get_nonneg counter (k + 1) frequencies_nonneg) as Hc.
  destruct (smoothed_value_spec k) as [Hlo _].
  pose proof (scaled_product_le_sum _ _ _ Ha Hb Hc) as Hsum.
  pose proof (smoothed_value_pos counter frequencies_nonneg k) as Hpos.
  set (v := smoothed_value counter k) in *.
  set (m := Z.max 1 _) in *.
  assert (1 <= m) as Hm by (unfold m; lia).
  destruct (decide (v <= m)) as [|Hgt]; [done|].
  assert (m <= v - 1) as Hle by lia.
  assert (m * m <= (v - 1) * (v - 1)) as Hsq by nia.
  assert (m * m * m <= (v - 1) * (v - 1) * (v - 1)) as Hcube.
  { apply Z.mul_le_mono_nonneg; nia. }
  lia.
Qed.

End SmoothedBounds.

Section FittedStatistics.

Lemma raw_ok_entries (c : gmap Z Z) :
  raw_ok c → map_Forall (λ count freq, 0 <= count ∧ 0 <= freq) c.
Proof. intros [_ Hall] k f Hk. destruct (Hall k f Hk). lia. Qed.

Lemma counter_total_get (c : gmap Z Z) (k : Z) :
  counter_total c = k * Counter_get c k + counter_total (delete k c).
Proof.
  unfold Counter_get. destruct (c !! k) as [f|] eqn:Hk; simpl.
  - by apply counter_total_delete.
  - rewrite delete_id by done. lia.
Qed.

Lemma Counter_get_delete_ne (c : gmap Z Z) (j k : Z) :
  j ≠ k → Counter_get (delete j c) k = Counter_get c k.
Proof. intros. unfold Counter_get. by rewrite lookup_delete_ne. Qed.

Lemma counter_total_three (c : gmap Z Z) (k : Z) :
  map_Forall (λ count freq, 0 <= count ∧ 0 <= freq) c →
  (k - 1) * Counter_get c (k - 1) + k * Counter_get c k
  + (k + 1) * Counter_get c (k + 1) <= counter_total c.
Proof.
  intros Hall.
  rewrite (counter_total_get c (k - 1)).
  rewrite (counter_total_get (delete (k - 1) c) k).
  rewrite (counter_total_get (delete k (delete (k - 1) c)) (k + 1)).
  rewrite !Counter_get_delete_ne by lia.
  assert (0 <= counter_total (delete (k + 1) (delete k (delete (k - 1) c))))
    as Hrest by (apply counter_total_nonneg; by do 3 apply map_Forall_delete).
  lia.
Qed.

Lemma counter_total_one (c : gmap Z Z) (k : Z) :
  map_Forall (λ count freq, 0 <= count ∧ 0 <= freq) c →
  k * Counter_get c k <= counter_total c.
Proof.
  intros Hall. rewrite (counter_total_get c k).
  pose proof (counter_total_nonneg (delete k c)
                (map_Forall_delete _ _ k Hall)). lia.
Qed.

(** Every entry of a smoothed counter lies between 0 and the number of
    observations in the raw counter. *)
Lemma smoothed_get_bounds (c : gmap Z Z) (count : Z) :
  raw_ok c → 0 <= Counter_get (smoothed c) count <= counter_total c.
Proof.
  intros Hok. pose proof Hok as [Hne Hraw].
  pose proof (raw_ok_frequencies c Hok) as Hfreq.
  pose proof (raw_ok_entries c Hok) as Hent.
  pose proof (counter_total_nonneg c Hent) as Htot.
  destruct (counter_top_exists c Hne) as [top Htop].
  destruct (smooth_counter_lookup c Hfreq top Htop) as (s & Hs & Hlook).
  pose proof (counter_top_spec c top Htop) as [[ftop Hftop] Hmax].
  unfold smoothed. rewrite Hs. unfold Counter_get at 1 2. rewrite Hlook.
  destruct (decide (2 <= count <= top)) as [Hrange|_]; simpl.
  - pose proof (smoothed_value_pos c Hfreq count).
    pose proof (smoothed_value_le_sum c Hfreq count) as Hle.
    pose proof (counter_total_three c count Hent) as Hthree.
    pose proof (counter_total_one c top Hent) as Hone.
    pose proof (Counter_get_nonneg c (count - 1) Hfreq).
    pose proof (Counter_get_nonneg c count Hfreq).
    pose proof (Counter_get_nonneg c (count + 1) Hfreq).
    assert (Counter_get c top = ftop) as Hget
      by (unfold Counter_get; by rewrite Hftop).
    destruct (Hraw top ftop Hftop) as [_ Hf1].
    rewrite Hget in Hone.
    split; [lia|]. nia.
  - destruct (decide (count = 1)) as [->|_]; simpl; [|lia].
    pose proof (counter_total_one c 1 Hent).
    pose proof (Counter_get_nonneg c 1 Hfreq). lia.
Qed.

(** The same for the statistics a fitted [MolLL] reads. *)
Lemma MolLL_fitted_stat_bounds (radius : Z) (mols : list Mol) key counts :
  0 <= MolLL_stat (smoothed <$> raw_key_data radius mols) key counts
    <= weighted_total (raw_key_data radius mols).
Proof.
  pose proof (raw_key_data_ok radius mols) as Hok.
  assert (map_Forall (λ _ c, 0 <= counter_total c)
            (raw_key_data radius mols)) as Htot.
  { intros k c Hk. apply counter_total_nonneg, raw_ok_entries.
    by apply (Hok k). }
  unfold MolLL_stat. rewrite lookup_fmap.
  destruct (raw_key_data radius mols !! key) as [c|] eqn:Hkey; simpl.
  - pose proof (smoothed_get_bounds c (Z.of_N counts) (Hok key c Hkey)).
    pose proof (weighted_total_ge _ key c Htot Hkey). lia.
  - pose proof (weighted_total_nonneg _ Htot).
    unfold Counter_get. rewrite lookup_empty. simpl. lia.
Qed.

End FittedStatistics.

(** ** What [AtomLL.fit] gathers *)

Section AtomStatistics.

Lemma Counter_update_nonneg (c : gmap Z Z) (fp : fingerprint) :
  map_Forall (λ _ v, 0 <= v) c →
  map_Forall (λ _ v, 0 <= v) (Counter_update c fp).
Proof.
  intros Hc. unfold Counter_update.
  apply (map_fold_weak_ind (λ r _, map_Forall (λ _ v, 0 <= v) r)); [done|].
  intros k v m r _ Hr. apply map_Forall_insert_2; [|done].
  pose proof (Counter_get_nonneg r k Hr). lia.
Qed.

Lemma atom_key_data_nonneg (radius : Z) (mols : list Mol) :
  map_Forall (λ _ v, 0 <= v) (atom_key_data radius mols).
Proof.
  unfold atom_key_data.
  assert (map_Forall (λ _ v, 0 <= v) (∅ : gmap Z Z)) as Hstart
    by apply map_Forall_empty.
  revert Hstart. generalize (∅ : gmap Z Z).
  induction mols as [|mol mols IH]; intros kd Hkd; simpl; [done|].
  apply IH. by apply Counter_update_nonneg.
Qed.

Lemma values_sum_nonneg (kd : gmap Z Z) :
  map_Forall (λ _ v, 0 <= v) kd → 0 <= map_fold (λ _ v acc, acc + v) 0 kd.
Proof.
  apply (map_fold_weak_ind
    (λ r m, map_Forall (λ _ v, 0 <= v) m → 0 <= r)); [done|].
  intros k v m r Hfresh IH Hall.
  apply map_Forall_insert in Hall as [Hv Hall]; [|done].
  specialize (IH Hall). lia.
Qed.

Lemma values_sum_get (kd : gmap Z Z) (k : Z) :
  map_Forall (λ _ v, 0 <= v) kd →
  0 <= Counter_get kd k <= map_fold (λ _ v acc, acc + v) 0 kd.
Proof.
  intros Hall. pose proof (values_sum_nonneg kd Hall) as Hsum.
  unfold Counter_get. destruct (kd !! k) as [v|] eqn:Hk; simpl; [|lia].
  rewrite (map_fold_delete_L _ _ k v kd); [|intros; lia|done].
  pose proof (values_sum_nonneg (delete k kd) (map_Forall_delete _ _ k Hall)).
  pose proof (Hall k v Hk). simpl in *. lia.
Qed.

(** Every count a fitted [AtomLL] reads lies between 0 and the number of
    observations. *)
Lemma AtomLL_fitted_stat_bounds (radius : Z) (mols : list Mol) (key : Z) :
  0 <= Counter_get (atom_key_data radius mols) key
    <= map_fold (λ _ v acc, acc + v) 0 (atom_key_data radius mols).
Proof. apply values_sum_get, atom_key_data_nonneg. Qed.

End AtomStatistics.

(** ** Likelihoods are probabilities *)

Section Likelihood.

Context {KD : Type}.
Implicit Types self : BaseLL KD.

Lemma Rdiv_le_one (x d : R) : (0 < d)%R → (x <= d)%R → (x / d <= 1)%R.
Proof.
  intros Hd Hx. apply (Rmult_le_reg_r d); [done|].
  unfold Rdiv. rewrite Rmult_assoc, Rinv_l by lra. lra.
Qed.

Lemma Rdiv_lt_one (x d : R) : (0 < d)%R → (x < d)%R → (x / d < 1)%R.
Proof.
  intros Hd Hx. apply (Rmult_lt_reg_r d); [done|].
  unfold Rdiv. rewrite Rmult_assoc, Rinv_l by lra. lra.
Qed.

Lemma denominator_pos self :
  (0 < smoothing self)%R → (0 < estimated_keyspace self)%R →
  0 <= _n_observations self → (0 < denominator self)%R.
Proof.
  intros Hs Hk Hn%IZR_le. unfold denominator.
  assert (0 < estimated_keyspace self * smoothing self)%R
    by (apply Rmult_lt_0_compat; lra).
  lra.
Qed.

Lemma likelihood_value_le_1 self (count : Z) :
  (0 < smoothing self)%R → (1 <= estimated_keyspace self)%R →
  0 <= count <= _n_observations self →
  (likelihood_value self count <= 1)%R.
Proof.
  intros Hs Hk [Hc Hn]. pose proof (IZR_le _ _ Hn) as Hn'.
  assert (0 < denominator self)%R as Hd by (apply denominator_pos; lia || lra).
  unfold likelihood_value. apply Rdiv_le_one; [done|].
  pose proof (IZR_le _ _ Hc) as Hc'.
  unfold denominator in *.
  assert (smoothing self <= estimated_keyspace self * smoothing self)%R
    by nra.
  lra.
Qed.

Lemma likelihood_value_unseen self :
  (0 < smoothing self)%R → (1 <= estimated_keyspace self)%R →
  0 <= _n_observations self →
  (1 < estimated_keyspace self)%R ∨ 0 < _n_observations self →
  (likelihood_value self 0 < 1)%R ∧ (ln (likelihood_value self 0) < 0)%R.
Proof.
  intros Hs Hk Hn Hstrict.
  assert (0 < denominator self)%R as Hd by (apply denominator_pos; lia || lra).
  assert (likelihood_value self 0 < 1)%R as Hlt.
  { unfold likelihood_value. apply Rdiv_lt_one; [done|].
    unfold denominator in *. pose proof (IZR_le _ _ Hn) as Hn'.
    destruct Hstrict as [Hk1|Hn1%IZR_lt]; nra. }
  split; [done|].
  rewrite <- ln_1. apply ln_increasing; [|done].
  apply likelihood_value_pos; [done|done|lia].
Qed.

End Likelihood.


(** ** The scoring loops run to the end *)

Section LoopsSucceed.

Lemma stat_count_ok (self : BaseLL (gmap Z Z)) (kd : gmap Z Z) (key : Z) :
  _key_data self = Some kd →
  AtomLL.stat_count self key = Ok (Counter_get kd key).
Proof. intros Hkd. unfold AtomLL.stat_count. by rewrite Hkd. Qed.

Lemma AtomLL_loop_ok (self : BaseLL (gmap Z Z)) (kd : gmap Z Z)
    (items : list (Z * positive)) (ll : R) (n : N) :
  _key_data self = Some kd →
  (0 < smoothing self)%R → (0 < denominator self)%R →
  (∀ k, 0 <= Counter_get kd k) →
  ∃ ll' n',
    foldl (λ acc '(key, num_atoms),
             a ← acc;
             c ← AtomLL.stat_count self key;
             accumulate self c (Npos num_atoms) a)
          (Ok (ll, n)) items = Ok (ll', n')
    ∧ (n <= n')%N ∧ (items ≠ [] → (n < n')%N).
Proof.
  intros Hkd Hs Hd Hstat. revert ll n.
  induction items as [|[key num_atoms] items IH]; intros ll n; cbn [foldl].
  - exists ll, n. split; [done|]. split; [lia|done].
  - cbn [mbind result_bind]. rewrite (stat_count_ok self kd key Hkd).
    cbn [mbind result_bind]. rewrite accumulate_ok by done.
    destruct (IH (ll + ln (likelihood_value self (Counter_get kd key))
                       * IZR (Z.of_N (N.pos num_atoms)))%R
                 (n + N.pos num_atoms)%N) as (ll' & n' & -> & Hle & _).
    exists ll', n'. split; [done|]. split; [lia|]. intros _. lia.
Qed.

Lemma MolLL_loop_ok (self : BaseLL (gmap molkey (gmap Z Z)))
    (kd : gmap molkey (gmap Z Z)) (pairs : list (molkey * N)) (ll : R) (n : N) :
  _key_data self = Some kd →
  (0 < smoothing self)%R → (0 < denominator self)%R →
  (∀ key counts, 0 <= MolLL_stat kd key counts) →
  ∃ ll' n',
    foldl (MolLL_read_pair self) (Ok (ll, n)) pairs = Ok (ll', n')
    ∧ (n <= n')%N
    ∧ (∀ key counts, (key, counts) ∈ pairs → (0 < counts)%N → (n < n')%N)
    ∧ (n' = n + foldr N.add 0 (map snd pairs))%N.
Proof.
  intros Hkd Hs Hd Hstat. revert ll n.
  induction pairs as [|[key counts] pairs IH]; intros ll n; cbn [foldl].
  - exists ll, n. split; [done|]. split; [lia|]. split; [|simpl; lia].
    intros ? ? Hin. by apply elem_of_nil in Hin.
  - unfold MolLL_read_pair at 2. cbn [mbind result_bind fst snd].
    rewrite Hkd, accumulate_ok by done.
    destruct (IH (ll + ln (likelihood_value self (MolLL_stat kd key counts))
                       * IZR (Z.of_N counts))%R
                 (n + counts)%N) as (ll' & n' & -> & Hle & Hlt & Hsum).
    exists ll', n'. split; [done|]. split; [lia|]. split; [|simpl; lia].
    intros key' counts' [[= -> ->]|Hin]%elem_of_cons Hpos; [lia|].
    specialize (Hlt key' counts' Hin Hpos). lia.
Qed.

Lemma AtomLL_loop_sum (self : BaseLL (gmap Z Z)) (kd : gmap Z Z)
    (items : list (Z * positive)) (ll : R) (n : N) :
  _key_data self = Some kd →
  (0 < smoothing self)%R → (0 < denominator self)%R →
  (∀ k, 0 <= Counter_get kd k) →
  foldl (λ acc '(key, num_atoms),
           a ← acc;
           c ← AtomLL.stat_count self key;
           accumulate self c (Npos num_atoms) a)
        (Ok (ll, n)) items
  = Ok ((ll + loglik_sum self (Counter_get kd) items)%R,
        (n + foldr (λ '(_, v) acc, acc + Npos v) 0 items)%N).
Proof.
  intros Hkd Hs Hd Hstat. revert ll n.
  induction items as [|[key num_atoms] items IH]; intros ll n; cbn [foldl].
  - simpl. f_equal. f_equal; [lra|lia].
  - cbn [mbind result_bind]. rewrite (stat_count_ok self kd key Hkd).
    cbn [mbind result_bind]. rewrite accumulate_ok by done.
    rewrite IH. f_equal. f_equal.
    + unfold loglik_sum. cbn [foldr].
      change (Z.of_N (N.pos num_atoms)) with (Z.pos num_atoms).
      fold (loglik_sum self (Counter_get kd) items). lra.
    + cbn [foldr]. lia.
Qed.

Lemma sum_values_to_list (fp : fingerprint) :
  sum_values fp = foldr (λ '(_, v) acc, acc + Npos v)%N 0%N (map_to_list fp).
Proof.
  unfold sum_values. rewrite map_fold_foldr.
  induction (map_to_list fp) as [|[k v] l IH]; [done|].
  simpl. by rewrite IH.
Qed.

Lemma sum_values_pos (fp : fingerprint) : fp ≠ ∅ → (0 < sum_values fp)%N.
Proof.
  intros Hne. rewrite sum_values_to_list.
  destruct (map_to_list fp) as [|[k v] l] eqn:Hl.
  - by apply map_to_list_empty_iff in Hl.
  - simpl. lia.
Qed.

Lemma loglik_sum_nonpos {KD} (self : BaseLL KD) (stat : Z → Z)
    (items : list (Z * positive)) :
  (∀ k, (0 < likelihood_value self (stat k) <= 1)%R) →
  (loglik_sum self stat items <= 0)%R.
Proof.
  intros Hlik. induction items as [|[key c] items IH]; simpl; [lra|].
  destruct (Hlik key) as [Hpos Hle].
  assert (ln (likelihood_value self (stat key)) <= 0)%R as Hln.
  { rewrite <- ln_1. destruct Hle as [Hlt| ->]; [|lra].
    left. by apply ln_increasing. }
  assert (0 < IZR (Z.pos c))%R by (apply IZR_lt; lia). nra.
Qed.

Lemma MolLL_loop_sum (self : BaseLL (gmap molkey (gmap Z Z)))
    (kd : gmap molkey (gmap Z Z)) (pairs : list (molkey * N)) (ll : R) (n : N) :
  _key_data self = Some kd →
  (0 < smoothing self)%R → (0 < denominator self)%R →
  (∀ key counts, 0 <= MolLL_stat kd key counts) →
  foldl (MolLL_read_pair self) (Ok (ll, n)) pairs
  = Ok ((ll + MolLL_loglik_sum self kd pairs)%R,
        (n + foldr N.add 0 (map snd pairs))%N).
Proof.
  intros Hkd Hs Hd Hstat. revert ll n.
  induction pairs as [|[key counts] pairs IH]; intros ll n; cbn [foldl].
  - unfold MolLL_loglik_sum. cbn [foldr map]. f_equal. f_equal; [lra|lia].
  - unfold MolLL_read_pair at 2. cbn [mbind result_bind fst snd].
    rewrite Hkd, accumulate_ok; [|done|done|apply Hstat].
    rewrite IH. unfold MolLL_loglik_sum. cbn [foldr map snd].
    f_equal. f_equal; [lra|lia].
Qed.

Lemma scored_pairs_total (fp : fingerprint) :
  foldr N.add 0%N (map snd (MolLL.scored_pairs fp))
  = (sum_values fp + sum_values fp)%N.
Proof.
  unfold MolLL.scored_pairs. rewrite map_app, foldr_app. cbn [map foldr snd].
  rewrite N.add_0_r.
  assert (∀ (l : list (Z * positive)) (total : N),
            foldr N.add total (map snd (map (prod_map Fragment Npos) l))
            = (total + foldr (λ '(_, v) acc, acc + Npos v) 0 l)%N) as Hsum.
  { intros l total. induction l as [|[k v] l IH];
      cbn [map foldr snd prod_map]; [lia|].
    rewrite IH. cbn [fst snd]. lia. }
  by rewrite Hsum, <- sum_values_to_list.
Qed.

Lemma AtomLL_score_ok (self : BaseLL (gmap Z Z)) (kd : gmap Z Z) (mol : Mol) :
  _key_data self = Some kd →
  (0 < smoothing self)%R → (0 < denominator self)%R →
  (∀ k, 0 <= Counter_get kd k) →
  _get_fp self mol ≠ ∅ →
  (0 <= alpha self <= 1)%R →
  Z.of_N (sum_values (_get_fp self mol)) < 2 ^ 64 →
  is_Ok (fst (AtomLL.calculate_ll mol self)).
Proof.
  intros Hkd Hs Hd Hstat Hfp Ha Hsize. unfold AtomLL.calculate_ll. cbn [fst].
  rewrite (AtomLL_loop_sum self kd _ 0%R 0%N Hkd Hs Hd Hstat).
  cbn [mbind result_bind]. rewrite <- sum_values_to_list.
  pose proof (sum_values_pos _ Hfp) as Hpos.
  destruct (sum_values (_get_fp self mol)) as [|p]; [lia|].
  change (0 + N.pos p)%N with (N.pos p).
  rewrite correct_for_atoms_pos by (done || lia). by eexists.
Qed.

Lemma scored_pairs_positive (fp : fingerprint) :
  fp ≠ ∅ → ∃ key counts, (key, counts) ∈ MolLL.scored_pairs fp ∧ (0 < counts)%N.
Proof.
  intros Hfp. unfold MolLL.scored_pairs.
  destruct (map_to_list fp) as [|[key v] l] eqn:Hl.
  - by apply map_to_list_empty_iff in Hl.
  - exists (Fragment key), (Npos v). split; [|lia]. simpl. by left.
Qed.

Lemma MolLL_score_ok (self : BaseLL (gmap molkey (gmap Z Z)))
    (kd : gmap molkey (gmap Z Z)) (mol : Mol) :
  _key_data self = Some kd →
  (0 < smoothing self)%R → (0 < denominator self)%R →
  (∀ key counts, 0 <= MolLL_stat kd key counts) →
  _get_fp self mol ≠ ∅ →
  (0 <= alpha self <= 1)%R →
  Z.of_N (sum_values (_get_fp self mol)) < 2 ^ 63 →
  is_Ok (fst (MolLL.calculate_ll mol self)).
Proof.
  intros Hkd Hs Hd Hstat Hfp Ha Hsize.
  destruct (MolLL_calculate_ll_reads self mol) as [-> _]. unfold MolLL_score.
  rewrite (MolLL_loop_sum self kd _ 0%R 0%N Hkd Hs Hd Hstat).
  cbn [mbind result_bind]. rewrite scored_pairs_total.
  pose proof (sum_values_pos _ Hfp) as Hpos.
  destruct (sum_values (_get_fp self mol)) as [|p]; [lia|].
  change (0 + (N.pos p + N.pos p))%N with (N.pos (p + p)).
  rewrite correct_for_atoms_pos by (done || lia). by eexists.
Qed.

End LoopsSucceed.

(** ** Fitted models *)

Section Fitted.

Lemma AtomLL_fitted (self : BaseLL (gmap Z Z)) (mols : list Mol) :
  let fitted := snd (AtomLL.fit mols self) in
  smoothing fitted = smoothing self
  ∧ estimated_keyspace fitted = estimated_keyspace self
  ∧ alpha fitted = alpha self
  ∧ _radius fitted = _radius self
  ∧ _key_data fitted = Some (atom_key_data (_radius self) mols)
  ∧ 0 <= _n_observations fitted
  ∧ ∀ key, 0 <= Counter_get (atom_key_data (_radius self) mols) key
             <= _n_observations fitted.
Proof.
  rewrite AtomLL_fit_eq. cbn. repeat split; try done.
  - apply values_sum_nonneg, atom_key_data_nonneg.
  - apply AtomLL_fitted_stat_bounds.
  - apply AtomLL_fitted_stat_bounds.
Qed.

Lemma MolLL_fitted (self : BaseLL (gmap molkey (gmap Z Z))) (mols : list Mol) :
  let fitted := snd (MolLL.fit mols self) in
  smoothing fitted = smoothing self
  ∧ estimated_keyspace fitted = estimated_keyspace self
  ∧ alpha fitted = alpha self
  ∧ _radius fitted = _radius self
  ∧ _key_data fitted = Some (smoothed <$> raw_key_data (_radius self) mols)
  ∧ 0 <= _n_observations fitted
  ∧ ∀ key counts,
      0 <= MolLL_stat (smoothed <$> raw_key_data (_radius self) mols) key counts
        <= _n_observations fitted.
Proof.
  rewrite MolLL_fit_eq. cbn. rewrite n_observations_total.
  repeat split; try done.
  - pose proof (MolLL_fitted_stat_bounds (_radius self) mols
                  SampleObservationSum 0). lia.
  - apply MolLL_fitted_stat_bounds.
  - apply MolLL_fitted_stat_bounds.
Qed.

(** What a likelihood satisfies when the statistic read lies between 0 and
    the number of observations. *)
Lemma likelihood_probability {KD} (self : BaseLL KD) (stat : Z) :
  (0 < smoothing self)%R → (1 <= estimated_keyspace self)%R →
  0 <= stat <= _n_observations self →
  likelihood self stat = Ok (likelihood_value self stat)
  ∧ (0 < likelihood_value self stat <= 1)%R.
Proof.
  intros Hs Hk Hstat.
  assert (0 < denominator self)%R as Hd by (apply denominator_pos; lia || lra).
  split; [apply likelihood_ok; lra|]. split.
  - apply likelihood_value_pos; [done|done|lia].
  - by apply likelihood_value_le_1.
Qed.

End Fitted.

(** With an estimated keyspace of 0, a frequency model fitted on one
    molecule whose only fragment occurs once gives that fragment the
    likelihood [(1 + 0.1) / (1 + 0 * 0.1)], which exceeds 1. And with an
    estimated keyspace of 1, a model fitted on no molecule at all gives an
    absent fragment the likelihood [0.1 / (0 + 1 * 0.1) = 1], whose
    contribution [ln(1) * count] is 0, not negative. The claim as stated
    fails on both counts. *)
Lemma likelihood_exceeds_one :
  (∃ fitted L,
     AtomLL.fit [once] keyspace0_AtomLL = (Ok (), fitted)
     ∧ (0 < smoothing fitted)%R
     ∧ AtomLL.stat_count fitted 1 = Ok 1
     ∧ likelihood fitted 1 = Ok L
     ∧ (1 < L)%R)
  ∧ (∃ fitted L,
       AtomLL.fit [] (__init__ "AtomLL" 0.1 1 1 1) = (Ok (), fitted)
       ∧ (0 < smoothing fitted)%R
       ∧ AtomLL.stat_count fitted 9 = Ok 0
       ∧ likelihood fitted 0 = Ok L
       ∧ (ln L * 1 = 0)%R).
Proof.
  split.
  - eexists _, _. split; [apply AtomLL_fit_eq|].
    cbn [keyspace0_AtomLL __init__ class_name smoothing estimated_keyspace
         alpha _radius].
    split; [lra|]. split; [done|].
    split.
    + apply likelihood_ok. unfold denominator.
      cbn [_n_observations estimated_keyspace smoothing].
      change (map_fold _ 0 (atom_key_data 1 [once])) with 1. lra.
    + unfold likelihood_value, denominator.
      cbn [_n_observations estimated_keyspace smoothing].
      change (map_fold _ 0 (atom_key_data 1 [once])) with 1. lra.
  - eexists _, _. split; [apply AtomLL_fit_eq|].
    cbn [__init__ class_name smoothing estimated_keyspace alpha _radius].
    split; [lra|]. split; [done|].
    split.
    + apply likelihood_ok. unfold denominator.
      cbn [_n_observations estimated_keyspace smoothing].
      change (map_fold _ 0 (atom_key_data 1 [])) with 0. lra.
    + unfold likelihood_value, denominator.
      cbn [_n_observations estimated_keyspace smoothing].
      change (map_fold _ 0 (atom_key_data 1 [])) with 0.
      replace ((0 + 0.1) / (0 + 1 * 0.1))%R with 1%R by lra.
      rewrite ln_1. lra.
Qed.

(** C6 (as amended) — For a model of either class fitted by [fit], with a
    strictly positive smoothing prior and an estimated keyspace of at least
    1, every likelihood [(statCount + smoothing) / (observations +
    keyspace * smoothing)] computed while scoring is strictly positive and
    at most 1, for every fragment key and count. For a key absent from the
    statistics the statistic read is 0 and the step of the scoring loop
    that adds its contribution [ln(likelihood) * count] does not fail;
    when the estimated keyspace exceeds 1 or something was observed, that
    contribution is strictly negative. *)
Theorem fitted_likelihood_is_probability
    (atom0 : BaseLL (gmap Z Z)) (mol0 : BaseLL (gmap molkey (gmap Z Z)))
    (mols : list Mol) :
  (0 < smoothing atom0)%R → (1 <= estimated_keyspace atom0)%R →
  (0 < smoothing mol0)%R → (1 <= estimated_keyspace mol0)%R →
  ∃ atom_kd mol_kd,
    let atom := snd (AtomLL.fit mols atom0) in
    let mol := snd (MolLL.fit mols mol0) in
    _key_data atom = Some atom_kd
    ∧ _key_data mol = Some mol_kd
    ∧ (∀ key, ∃ L,
         likelihood atom (Counter_get atom_kd key) = Ok L ∧ (0 < L <= 1)%R)
    ∧ (∀ key counts, ∃ L,
         likelihood mol (MolLL_stat mol_kd key counts) = Ok L
         ∧ (0 < L <= 1)%R)
    ∧ (∀ key (num_atoms : positive) (ll : R) (atom_count : N),
         atom_kd !! key = None →
         ∃ L, AtomLL.stat_count atom key = Ok 0
              ∧ likelihood atom 0 = Ok L
              ∧ accumulate atom 0 (Npos num_atoms) (ll, atom_count)
                = Ok ((ll + ln L * IZR (Z.pos num_atoms))%R,
                      (atom_count + Npos num_atoms)%N)
              ∧ ((1 < estimated_keyspace atom0)%R ∨ 0 < _n_observations atom →
                 (ln L * IZR (Z.pos num_atoms) < 0)%R))
    ∧ (∀ key (counts : positive) (ll : R) (atom_count : N),
         mol_kd !! Fragment key = None →
         ∃ L, likelihood mol 0 = Ok L
              ∧ fst (MolLL.score_pair (Fragment key) (Npos counts)
                       (ll, atom_count) mol)
                = Ok ((ll + ln L * IZR (Z.pos counts))%R,
                      (atom_count + Npos counts)%N)
              ∧ ((1 < estimated_keyspace mol0)%R ∨ 0 < _n_observations mol →
                 (ln L * IZR (Z.pos counts) < 0)%R)).
Proof.
  intros Has Hak Hms Hmk.
  destruct (AtomLL_fitted atom0 mols) as (As & Ak & Aa & Ar & Akd & An & Astat).
  destruct (MolLL_fitted mol0 mols) as (Ms & Mk & Ma & Mr & Mkd & Mn & Mstat).
  exists (atom_key_data (_radius atom0) mols),
         (smoothed <$> raw_key_data (_radius mol0) mols).
  cbv zeta.
  set (atom := snd (AtomLL.fit mols atom0)) in *.
  set (mol := snd (MolLL.fit mols mol0)) in *.
  assert (0 < smoothing atom)%R as Has' by (rewrite As; done).
  assert (1 <= estimated_keyspace atom)%R as Hak' by (rewrite Ak; done).
  assert (0 < smoothing mol)%R as Hms' by (rewrite Ms; done).
  assert (1 <= estimated_keyspace mol)%R as Hmk' by (rewrite Mk; done).
  assert (0 < denominator atom)%R as Had
    by (apply denominator_pos; lia || lra).
  assert (0 < denominator mol)%R as Hmd
    by (apply denominator_pos; lia || lra).
  split; [done|]. split; [done|]. split; [|split; [|split]].
  - intros key. eexists. by apply likelihood_probability.
  - intros key counts. eexists. by apply likelihood_probability.
  - intros key num_atoms ll atom_count Hkey.
    exists (likelihood_value atom 0).
    split.
    { rewrite (stat_count_ok atom _ key Akd). unfold Counter_get.
      by rewrite Hkey. }
    split; [apply likelihood_ok; lra|].
    split; [by apply accumulate_ok|].
    intros Hstrict. rewrite <- Ak in Hstrict.
    destruct (likelihood_value_unseen atom Has' Hak' An Hstrict) as [_ Hln].
    assert (0 < IZR (Z.pos num_atoms))%R by (apply IZR_lt; lia). nra.
  - intros key counts ll atom_count Hkey.
    exists (likelihood_value mol 0).
    split; [apply likelihood_ok; lra|].
    split.
    { destruct (score_pair_reads mol mol (Fragment key) (Npos counts)
                  (ll, atom_count) (same_reads_refl mol)) as [-> _].
      unfold MolLL_read_pair. cbn [mbind result_bind fst snd]. rewrite Mkd.
      replace (MolLL_stat _ (Fragment key) (N.pos counts)) with 0
        by (unfold MolLL_stat, Counter_get; by rewrite Hkey).
      by apply accumulate_ok. }
    intros Hstrict. rewrite <- Mk in Hstrict.
    destruct (likelihood_value_unseen mol Hms' Hmk' Mn Hstrict) as [_ Hln].
    assert (0 < IZR (Z.pos counts))%R by (apply IZR_lt; lia). nra.
Qed.

Lemma fitted_likelihood_is_probability_witness :
  ∃ atom_kd mol_kd,
    let atom := snd (AtomLL.fit scenario_mols scenario_model) in
    let mol := snd (MolLL.fit scenario_mols default_MolLL) in
    _key_data atom = Some atom_kd
    ∧ _key_data mol = Some mol_kd
    ∧ (∀ key, ∃ L,
         likelihood atom (Counter_get atom_kd key) = Ok L ∧ (0 < L <= 1)%R)
    ∧ (∀ key counts, ∃ L,
         likelihood mol (MolLL_stat mol_kd key counts) = Ok L
         ∧ (0 < L <= 1)%R)
    ∧ (∀ key (num_atoms : positive) (ll : R) (atom_count : N),
         atom_kd !! key = None →
         ∃ L, AtomLL.stat_count atom key = Ok 0
              ∧ likelihood atom 0 = Ok L
              ∧ accumulate atom 0 (Npos num_atoms) (ll, atom_count)
                = Ok ((ll + ln L * IZR (Z.pos num_atoms))%R,
                      (atom_count + Npos num_atoms)%N)
              ∧ ((1 < estimated_keyspace scenario_model)%R
                 ∨ 0 < _n_observations atom →
                 (ln L * IZR (Z.pos num_atoms) < 0)%R))
    ∧ (∀ key (counts : positive) (ll : R) (atom_count : N),
         mol_kd !! Fragment key = None →
         ∃ L, likelihood mol 0 = Ok L
              ∧ fst (MolLL.score_pair (Fragment key) (Npos counts)
                       (ll, atom_count) mol)
                = Ok ((ll + ln L * IZR (Z.pos counts))%R,
                      (atom_count + Npos counts)%N)
              ∧ ((1 < estimated_keyspace default_MolLL)%R
                 ∨ 0 < _n_observations mol →
                 (ln L * IZR (Z.pos counts) < 0)%R)).
Proof.
  apply (fitted_likelihood_is_probability scenario_model default_MolLL
           scenario_mols); simpl; lra.
Defined.

(** ** A molecule without fragments *)

Section NoFragments.

Lemma AtomLL_no_fragments (self : BaseLL (gmap Z Z)) (m : Mol) :
  _get_fp self m = ∅ →
  AtomLL.calculate_ll m self = (correct_for_atoms self (0%R, 0%N), self).
Proof.
  intros Hfp. unfold AtomLL.calculate_ll. rewrite Hfp, map_to_list_empty.
  done.
Qed.

Lemma scored_pairs_empty :
  MolLL.scored_pairs ∅ = [(SampleObservationSum, 0%N)].
Proof.
  unfold MolLL.scored_pairs, sum_values.
  by rewrite map_to_list_empty, map_fold_empty.
Qed.

Lemma MolLL_no_fragments (self : BaseLL (gmap molkey (gmap Z Z)))
    (kd : gmap molkey (gmap Z Z)) (m : Mol) :
  _get_fp self m = ∅ → _key_data self = Some kd →
  (0 < smoothing self)%R → (0 < denominator self)%R →
  0 <= MolLL_stat kd SampleObservationSum 0 →
  ∃ ll, fst (MolLL.calculate_ll m self) = correct_for_atoms self (ll, 0%N)
        ∧ ll = (0 + ln (likelihood_value self
                          (MolLL_stat kd SampleObservationSum 0)) * 0)%R.
Proof.
  intros Hfp Hkd Hs Hd Hstat.
  destruct (MolLL_calculate_ll_reads self m) as [-> _].
  unfold MolLL_score. rewrite Hfp, scored_pairs_empty. cbn [foldl].
  unfold MolLL_read_pair. cbn [mbind result_bind fst snd]. rewrite Hkd.
  rewrite accumulate_ok by done. cbn [mbind result_bind].
  eexists. split; [done|]. done.
Qed.

End NoFragments.

(** The frequency model of the scenario has exponent 0; fitted, it scores a
    molecule without fragments as [0.0 / 0 ** 0 = 0.0] and raises nothing:
    the claim as stated fails. *)
Lemma no_fragments_scores_zero :
  fst (AtomLL.calculate_ll no_fragments
         (snd (AtomLL.fit scenario_mols scenario_model)))
  = Ok 0%R.
Proof.
  rewrite AtomLL_no_fragments by done. cbn [fst].
  rewrite correct_for_atoms_zero_alpha by done. f_equal. lra.
Qed.

(** C7 (as amended) — For a molecule whose fingerprint holds no fragment
    (so that the atom count is 0) and a strictly positive atom-count
    correction exponent, scoring raises [ZeroDivisionError] at the final
    division [ll / atom_count ** alpha]: with the frequency model in any
    state, and with the count-distribution model once fitted with a
    strictly positive smoothing prior and estimated keyspace. *)
Theorem no_fragments_divides_by_zero
    (atom : BaseLL (gmap Z Z)) (mol0 : BaseLL (gmap molkey (gmap Z Z)))
    (mols : list Mol) (m : Mol) :
  (0 < alpha atom)%R → _get_fp atom m = ∅ →
  (0 < alpha mol0)%R → (0 < smoothing mol0)%R →
  (0 < estimated_keyspace mol0)%R → m (_radius mol0) = ∅ →
  fst (AtomLL.calculate_ll m atom) = Raise ZeroDivisionError
  ∧ fst (MolLL.calculate_ll m (snd (MolLL.fit mols mol0)))
    = Raise ZeroDivisionError.
Proof.
  intros Haa Hafp Hma Hms Hmk Hmfp. split.
  - rewrite AtomLL_no_fragments by done. cbn [fst].
    by apply correct_for_atoms_zero.
  - destruct (MolLL_fitted mol0 mols) as (Ms & Mk & Ma & Mr & Mkd & Mn & Mstat).
    set (mol := snd (MolLL.fit mols mol0)) in *.
    assert (_get_fp mol m = ∅) as Hfp by (unfold _get_fp; by rewrite Mr).
    assert (0 < smoothing mol)%R as Hs by (by rewrite Ms).
    assert (0 < denominator mol)%R as Hd
      by (apply denominator_pos; [done|by rewrite Mk|done]).
    destruct (MolLL_no_fragments mol _ m Hfp Mkd Hs Hd) as (ll & -> & _).
    + apply Mstat.
    + apply correct_for_atoms_zero. by rewrite Ma.
Qed.

Lemma no_fragments_divides_by_zero_witness :
  fst (AtomLL.calculate_ll no_fragments
         (__init__ "AtomLL" 0.1 2000000 1 1))
  = Raise ZeroDivisionError
  ∧ fst (MolLL.calculate_ll no_fragments
           (snd (MolLL.fit [thrice] default_MolLL)))
    = Raise ZeroDivisionError.
Proof.
  apply (no_fragments_divides_by_zero
           (__init__ "AtomLL" 0.1 2000000 1 1) default_MolLL [thrice]
           no_fragments); simpl; (lra || reflexivity).
Defined.


(** ** What scoring with [MolLL] leaves in the model *)

Section MolLLState.

Implicit Types self : BaseLL (gmap molkey (gmap Z Z)).

Lemma score_pair_state self (kd : gmap molkey (gmap Z Z)) key counts acc :
  snd (MolLL.score_pair key counts acc (set_key_data self kd))
  = set_key_data self (snd (defaultdict_get kd key)).
Proof.
  unfold MolLL.score_pair. cbn [set_key_data _key_data].
  by destruct (defaultdict_get kd key).
Qed.

Lemma score_loop_raises self (pairs : list (molkey * N))
    (m0 : method (gmap molkey (gmap Z Z)) (R * N)) e self1 :
  m0 self = (Raise e, self1) →
  foldl (λ m '(key, counts), a ← m; MolLL.score_pair key counts a)
        m0 pairs self = (Raise e, self1).
Proof.
  revert m0. induction pairs as [|[key counts] pairs IH]; intros m0 Hm0;
    cbn [foldl]; [done|].
  apply IH. unfold mbind, method_bind. by rewrite Hm0.
Qed.

Lemma score_loop_state self (pairs : list (molkey * N))
    (m0 : method (gmap molkey (gmap Z Z)) (R * N)) r0 kd1 acc :
  m0 self = (r0, set_key_data self kd1) →
  fst (foldl (λ m '(key, counts), a ← m; MolLL.score_pair key counts a)
             m0 pairs self) = Ok acc →
  snd (foldl (λ m '(key, counts), a ← m; MolLL.score_pair key counts a)
             m0 pairs self)
  = set_key_data self (after_reads kd1 pairs).
Proof.
  revert m0 r0 kd1. induction pairs as [|[key counts] pairs IH];
    intros m0 r0 kd1 Hm0 Hok; cbn [foldl] in *.
  - by rewrite Hm0.
  - destruct r0 as [a|e].
    + eapply (IH _ (fst (MolLL.score_pair key counts a (set_key_data self kd1))));
        [|done].
      unfold mbind, method_bind. rewrite Hm0.
      rewrite (surjective_pairing (MolLL.score_pair _ _ _ _)).
      by rewrite score_pair_state.
    + rewrite (score_loop_raises self pairs _ e (set_key_data self kd1)) in Hok;
        [done|].
      unfold mbind, method_bind. by rewrite Hm0.
Qed.

(** A score that returns leaves every key it read in the statistics. *)
Lemma MolLL_calculate_ll_state self (kd : gmap molkey (gmap Z Z)) (m : Mol) ll :
  _key_data self = Some kd →
  fst (MolLL.calculate_ll m self) = Ok ll →
  _key_data (snd (MolLL.calculate_ll m self))
  = Some (after_reads kd (MolLL.scored_pairs (_get_fp self m))).
Proof.
  intros Hkd. unfold MolLL.calculate_ll.
  set (pairs := MolLL.scored_pairs (_get_fp self m)).
  set (loop := foldl _ _ pairs).
  change ((loop ≫= λ acc, pure_call (correct_for_atoms self acc)) self)
    with (match loop self with
          | (Ok a, self') => pure_call (correct_for_atoms self a) self'
          | (Raise e, self') => (Raise e, self')
          end).
  assert (self = set_key_data self kd) as Hself.
  { destruct self. cbn in *. by rewrite Hkd. }
  pose proof (score_loop_state self pairs (method_ret _ (0%R, 0%N))
                (Ok (0%R, 0%N)) kd) as Hstate.
  change (foldl _ (method_ret _ _) pairs) with loop in Hstate.
  destruct (loop self) as [[acc|e] self1] eqn:Hloop; cbn [fst snd] in *;
    [|done].
  intros _. rewrite (Hstate acc); [done| |done].
  unfold method_ret. by rewrite <- Hself.
Qed.

End MolLLState.

(** C4 — The claim fails on the count-distribution model: scoring reads
    [self._key_data[key]] from a [defaultdict], which stores an empty
    counter under a key it does not hold. Here the default model is fitted
    on one molecule (fragment 1, once) and then scores a molecule whose
    only fragment is 9: the score is returned, and the statistics, which
    did not hold fragment 9 before, hold it afterwards. *)
Theorem MolLL_score_stores_unseen_key :
  ∃ kd kd' ll,
    _key_data (snd (MolLL.fit [once] default_MolLL)) = Some kd
    ∧ kd !! Fragment 9 = None
    ∧ fst (MolLL.calculate_ll unseen (snd (MolLL.fit [once] default_MolLL)))
      = Ok ll
    ∧ _key_data (snd (MolLL.calculate_ll unseen
                        (snd (MolLL.fit [once] default_MolLL))))
      = Some kd'
    ∧ kd' !! Fragment 9 = Some ∅
    ∧ kd' ≠ kd.
Proof.
  destruct (MolLL_fitted default_MolLL [once])
    as (Ms & Mk & Ma & Mr & Mkd & Mn & Mstat).
  set (fitted := snd (MolLL.fit [once] default_MolLL)) in *.
  change (_radius default_MolLL) with 1 in *.
  rewrite smoothed_fmap_exec in Mkd, Mstat.
  assert ((Exec.smoothed <$> raw_key_data 1 [once]) !! Fragment 9 = None)
    as Hbefore by (vm_compute; reflexivity).
  destruct (MolLL_score_ok fitted _ unseen Mkd) as [ll Hll].
  - rewrite Ms. cbn. lra.
  - apply denominator_pos; [rewrite Ms; cbn; lra|rewrite Mk; cbn; lra|done].
  - intros key counts. apply Mstat.
  - unfold _get_fp, unseen. apply (bool_decide_unpack _). vm_compute. exact I.
  - rewrite Ma. cbn. lra.
  - unfold _get_fp, unseen. vm_compute. reflexivity.
  - pose proof (MolLL_calculate_ll_state fitted _ unseen ll Mkd Hll) as Hafter.
    unfold _get_fp in Hafter. rewrite Mr in Hafter.
    assert (after_reads (Exec.smoothed <$> raw_key_data 1 [once])
                        (MolLL.scored_pairs (unseen 1)) !! Fragment 9
            = Some ∅) as Hstored by (vm_compute; reflexivity).
    eexists _, _, ll.
    split; [exact Mkd|]. split; [exact Hbefore|]. split; [exact Hll|].
    split; [exact Hafter|]. split; [exact Hstored|].
    intros Heq. rewrite Heq, Hbefore in Hstored. done.
Qed.

(** ** Keys through JSON and back *)

Section Keys.

Lemma to_int_not_nil (z : Z) :
  Z.to_int z ≠ Decimal.Pos Decimal.Nil ∧ Z.to_int z ≠ Decimal.Neg Decimal.Nil.
Proof.
  destruct z as [|p|p]; simpl; split; try done;
    intros [= H]; by apply (DecimalPos.Unsigned.to_uint_nonnil p).
Qed.

(** [int(str(z)) == z] *)
Lemma int_of_str_str (z : Z) : Py.int_of_str (Py.str z) = Ok z.
Proof.
  unfold Py.int_of_str, Py.str.
  destruct (to_int_not_nil z) as [Hpos Hneg].
  rewrite NilZero.isi by done. by rewrite DecimalZ.of_to.
Qed.

Lemma str_not_reserved (z : Z) : Py.str z ≠ "SampleObservationSum"%string.
Proof.
  intros Heq. pose proof (int_of_str_str z) as Hz. rewrite Heq in Hz.
  vm_compute in Hz. discriminate.
Qed.

Lemma int_of_json_key (z : Z) : int_of_key (json_key (inl z)) = Ok z.
Proof. apply int_of_str_str. Qed.

Lemma restore_json_key (k : molkey) :
  MolLL.restore_key (json_key (key_to_py k)) = Ok k.
Proof.
  unfold MolLL.restore_key. destruct k as [z|]; cbn [json_key key_to_py].
  - rewrite decide_False.
    + cbn [int_of_key]. by rewrite int_of_str_str.
    + intros [= H]. by apply (str_not_reserved z).
  - by rewrite decide_True.
Qed.

Lemma restore_py_key (k : molkey) : MolLL.restore_key (key_to_py k) = Ok k.
Proof.
  unfold MolLL.restore_key. destruct k as [z|]; cbn [key_to_py].
  - by rewrite decide_False.
  - by rewrite decide_True.
Qed.

End Keys.

(** ** Dictionaries rebuilt from their items *)

Section Rebuild.

Context `{Countable K} {V : Type}.

Lemma foldl_insert_lookup (l : list (K * V)) (d0 : gmap K V) (k : K) :
  NoDup l.*1 →
  foldl (λ d '(k, v), <[k := v]> d) d0 l !! k
  = match (list_to_map l : gmap K V) !! k with
    | Some v => Some v
    | None => d0 !! k
    end.
Proof.
  revert d0. induction l as [|[k1 v1] l IH]; intros d0 Hnd; cbn [foldl].
  - change (list_to_map [] : gmap K V) with (∅ : gmap K V).
    by rewrite lookup_empty.
  - apply NoDup_cons in Hnd as [Hk1 Hnd]. rewrite IH by done.
    rewrite list_to_map_cons.
    destruct (decide (k = k1)) as [->|Hne].
    + rewrite lookup_insert_eq.
      rewrite (not_elem_of_list_to_map_1 l k1) by done.
      by rewrite lookup_insert_eq.
    + rewrite !lookup_insert_ne by done. done.
Qed.

Lemma foldl_insert_map_to_list (m : gmap K V) :
  foldl (λ d '(k, v), <[k := v]> d) ∅ (map_to_list m) = m.
Proof.
  apply map_eq. intros k.
  rewrite foldl_insert_lookup by apply NoDup_fst_map_to_list.
  rewrite list_to_map_to_list, lookup_empty. by destruct (m !! k).
Qed.

End Rebuild.

(** ** Decoding saved statistics *)

Section Decoding.

Lemma int_keyed_decoded (enc : Z → pykey) (items : list (Z * Z)) :
  (∀ z, int_of_key (enc z) = Ok z) →
  int_keyed (map (prod_map enc (λ v : Z, v)) items)
  = Ok (foldl (λ d '(k, v), <[k := v]> d) ∅ items).
Proof.
  intros Henc. unfold int_keyed. generalize (∅ : gmap Z Z).
  induction items as [|[k v] items IH]; intros d0; cbn [map foldl]; [done|].
  cbn [prod_map fst snd mbind result_bind]. rewrite Henc.
  cbn [mbind result_bind]. apply IH.
Qed.

Lemma int_keyed_map_to_list (enc : Z → pykey) (c : gmap Z Z) :
  (∀ z, int_of_key (enc z) = Ok z) →
  int_keyed (map (prod_map enc (λ v : Z, v)) (map_to_list c)) = Ok c.
Proof.
  intros Henc. rewrite int_keyed_decoded by done.
  by rewrite foldl_insert_map_to_list.
Qed.

Lemma restore_decoded (enck : molkey → pykey) (encc : gmap Z Z → list (pykey * Z))
    (items : list (molkey * gmap Z Z)) :
  (∀ k, MolLL.restore_key (enck k) = Ok k) →
  (∀ c, int_keyed (encc c) = Ok c) →
  MolLL.restore (map (prod_map enck encc) items)
  = Ok (foldl (λ d '(k, v), <[k := v]> d) ∅ items).
Proof.
  intros Hk Hc. unfold MolLL.restore.
  generalize (∅ : gmap molkey (gmap Z Z)).
  induction items as [|[k c] items IH]; intros d0; cbn [map foldl]; [done|].
  cbn [prod_map fst snd mbind result_bind]. rewrite Hk.
  cbn [mbind result_bind]. rewrite Hc. cbn [mbind result_bind]. apply IH.
Qed.

(** Decoding raises nothing but [ValueError]. *)
Lemma int_keyed_raises (items : list (pykey * Z)) (e : exn) :
  int_keyed items = Raise e → e = ValueError.
Proof.
  unfold int_keyed.
  assert (∀ acc : result (gmap Z Z),
            (∀ e', acc = Raise e' → e' = ValueError) →
            foldl (λ acc '(key, value),
                     d ← acc; k ← int_of_key key; Ok (<[k := value]> d))
                  acc items = Raise e → e = ValueError) as Hgen.
  { induction items as [|[key value] items IH]; intros acc Hacc; cbn [foldl].
    - apply Hacc.
    - apply IH. intros e'. destruct acc as [d|e0]; cbn [mbind result_bind].
      + destruct key as [z|s]; cbn [int_of_key mbind result_bind]; [done|].
        unfold Py.int_of_str. destruct (NilZero.int_of_string s); [done|].
        cbn [mbind result_bind]. by intros [= <-].
      + intros [= <-]. by apply Hacc. }
  apply Hgen. done.
Qed.

Lemma restore_key_raises (fpkey : pykey) (e : exn) :
  MolLL.restore_key fpkey = Raise e → e = ValueError.
Proof.
  unfold MolLL.restore_key. destruct (decide _); [done|].
  destruct fpkey as [z|s]; cbn [int_of_key fmap result_fmap]; [done|].
  unfold Py.int_of_str. destruct (NilZero.int_of_string s); [done|].
  by intros [= <-].
Qed.

Lemma restore_raises (items : list (pykey * list (pykey * Z))) (e : exn) :
  MolLL.restore items = Raise e → e = ValueError.
Proof.
  unfold MolLL.restore.
  assert (∀ acc : result (gmap molkey (gmap Z Z)),
            (∀ e', acc = Raise e' → e' = ValueError) →
            foldl (λ acc '(fpkey, counterdict),
                     key_data_object ← acc;
                     fpkey ← MolLL.restore_key fpkey;
                     counterdict ← int_keyed counterdict;
                     Ok (<[fpkey := counterdict]> key_data_object))
                  acc items = Raise e → e = ValueError) as Hgen.
  { induction items as [|[key cd] items IH]; intros acc Hacc; cbn [foldl].
    - apply Hacc.
    - apply IH. intros e'. destruct acc as [d|e0]; cbn [mbind result_bind].
      + destruct (MolLL.restore_key key) as [k|e1] eqn:Hk;
          cbn [mbind result_bind].
        * destruct (int_keyed cd) as [c|e2] eqn:Hc; cbn [mbind result_bind];
            [done|].
          intros [= <-]. by apply (int_keyed_raises cd).
        * intros [= <-]. by apply (restore_key_raises key).
      + intros [= <-]. by apply Hacc. }
  apply Hgen. done.
Qed.

End Decoding.


(** ** Saving and loading *)

Section Persistence.


Lemma AtomLL_items_json (kd : gmap Z Z) :
  map (prod_map json_key (λ v : Z, v))
      (map (prod_map inl (λ v : Z, v)) (map_to_list kd))
  = map (prod_map (λ z, json_key (inl z)) (λ v : Z, v)) (map_to_list kd).
Proof. rewrite map_map. apply map_ext. by intros [k v]. Qed.

Lemma AtomLL_load_saved (self fresh : BaseLL (gmap Z Z)) (kd : gmap Z Z) :
  _key_data self = Some kd → class_name fresh = class_name self →
  ∃ sd, get_savedict self = Ok sd
        ∧ set_savedict sd fresh = (Ok (), self)
        ∧ set_savedict (json_roundtrip sd) fresh = (Ok (), self).
Proof.
  intros Hkd Hcls. unfold get_savedict.
  cbn [_get_keydata_as_dict AtomLL_model]. unfold AtomLL._get_keydata_as_dict.
  rewrite Hkd. cbn [mbind result_bind]. eexists. split; [done|].
  unfold set_savedict, json_roundtrip.
  cbn [sd_Model sd_smoothing sd_estimated_keyspace sd_alpha sd__radius
       sd__n_observations sd__key_data json_keydata
       _set_keydata_from_dict AtomLL_model].
  rewrite !decide_True by done. unfold AtomLL._set_keydata_from_dict.
  rewrite AtomLL_items_json.
  rewrite !int_keyed_map_to_list by (done || apply int_of_json_key).
  destruct self. cbn in *. subst. done.
Qed.

Lemma MolLL_items_json (kd : gmap molkey (gmap Z Z)) :
  map (prod_map json_key (map (prod_map json_key (λ v : Z, v))))
      (map (prod_map key_to_py
                     (λ c : gmap Z Z,
                        map (prod_map inl (λ v : Z, v)) (map_to_list c)))
           (map_to_list kd))
  = map (prod_map (λ k, json_key (key_to_py k))
                  (λ c : gmap Z Z,
                     map (prod_map (λ z, json_key (inl z)) (λ v : Z, v))
                         (map_to_list c)))
        (map_to_list kd).
Proof.
  rewrite map_map. apply map_ext. intros [k c]. cbn [prod_map fst snd].
  by rewrite AtomLL_items_json.
Qed.

Lemma MolLL_load_saved (self fresh : BaseLL (gmap molkey (gmap Z Z)))
    (kd : gmap molkey (gmap Z Z)) :
  _key_data self = Some kd → class_name fresh = class_name self →
  ∃ sd, get_savedict self = Ok sd
        ∧ set_savedict sd fresh = (Ok (), self)
        ∧ set_savedict (json_roundtrip sd) fresh = (Ok (), self).
Proof.
  intros Hkd Hcls. unfold get_savedict.
  cbn [_get_keydata_as_dict MolLL_model]. unfold MolLL._get_keydata_as_dict.
  rewrite Hkd. cbn [mbind result_bind]. eexists. split; [done|].
  unfold set_savedict, json_roundtrip.
  cbn [sd_Model sd_smoothing sd_estimated_keyspace sd_alpha sd__radius
       sd__n_observations sd__key_data json_keydata
       _set_keydata_from_dict MolLL_model].
  rewrite !decide_True by done. unfold MolLL._set_keydata_from_dict.
  rewrite MolLL_items_json.
  rewrite (restore_decoded key_to_py); [|apply restore_py_key|].
  2:{ intros c. by apply int_keyed_map_to_list. }
  rewrite (restore_decoded (λ k, json_key (key_to_py k)));
    [|apply restore_json_key|].
  2:{ intros c. apply int_keyed_map_to_list, int_of_json_key. }
  rewrite foldl_insert_map_to_list.
  destruct self. cbn in *. subst. done.
Qed.

Lemma AtomLL_set_keydata_no_assert (d : keydata_dict) (self : BaseLL (gmap Z Z)) :
  fst (AtomLL._set_keydata_from_dict d self) ≠ Raise AssertionError.
Proof.
  unfold AtomLL._set_keydata_from_dict. destruct d as [items|items].
  - destruct (int_keyed items) as [kd|e] eqn:Hd; [done|].
    apply int_keyed_raises in Hd as ->. done.
  - destruct items as [|item items]; [done|].
    destruct (int_keyed _) as [kd|e] eqn:Hd; [done|].
    apply int_keyed_raises in Hd as ->. done.
Qed.

Lemma MolLL_set_keydata_no_assert (d : keydata_dict)
    (self : BaseLL (gmap molkey (gmap Z Z))) :
  fst (MolLL._set_keydata_from_dict d self) ≠ Raise AssertionError.
Proof.
  unfold MolLL._set_keydata_from_dict. destruct d as [items|items].
  - destruct items as [|[fpkey v] items]; [done|].
    destruct (MolLL.restore_key fpkey) as [k|e] eqn:Hk; [done|].
    apply restore_key_raises in Hk as ->. done.
  - destruct (MolLL.restore items) as [kd|e] eqn:Hd; [done|].
    apply restore_raises in Hd as ->. done.
Qed.

End Persistence.

(** C5 — For a fitted model of either class, loading the record that
    serializing it produces (after the passage through JSON, which turns
    the integer fragment keys into text and leaves the reserved key as it
    is) into a fresh model of the same class gives back the same object:
    the same statistics, observation count and configuration. The loaded
    model therefore scores every molecule as the saved one does. *)
Theorem save_load_round_trip
    (atom fresh_atom : BaseLL (gmap Z Z))
    (mol fresh_mol : BaseLL (gmap molkey (gmap Z Z)))
    (atom_kd : gmap Z Z) (mol_kd : gmap molkey (gmap Z Z)) :
  _key_data atom = Some atom_kd → class_name fresh_atom = class_name atom →
  _key_data mol = Some mol_kd → class_name fresh_mol = class_name mol →
  ∃ atom_sd mol_sd,
    get_savedict atom = Ok atom_sd
    ∧ get_savedict mol = Ok mol_sd
    ∧ set_savedict (json_roundtrip atom_sd) fresh_atom = (Ok (), atom)
    ∧ set_savedict (json_roundtrip mol_sd) fresh_mol = (Ok (), mol)
    ∧ (∀ m, calculate_ll m
              (snd (set_savedict (json_roundtrip atom_sd) fresh_atom))
            = calculate_ll m atom)
    ∧ (∀ m, calculate_ll m
              (snd (set_savedict (json_roundtrip mol_sd) fresh_mol))
            = calculate_ll m mol).
Proof.
  intros Hakd Hacls Hmkd Hmcls.
  destruct (AtomLL_load_saved atom fresh_atom atom_kd Hakd Hacls)
    as (asd & Haget & _ & Haset).
  destruct (MolLL_load_saved mol fresh_mol mol_kd Hmkd Hmcls)
    as (msd & Hmget & _ & Hmset).
  exists asd, msd. rewrite Haset, Hmset. by repeat split.
Qed.

Lemma save_load_round_trip_witness :
  ∃ atom_sd mol_sd,
    get_savedict scenario_fitted = Ok atom_sd
    ∧ get_savedict thrice_fitted = Ok mol_sd
    ∧ set_savedict (json_roundtrip atom_sd) scenario_model
      = (Ok (), scenario_fitted)
    ∧ set_savedict (json_roundtrip mol_sd) default_MolLL
      = (Ok (), thrice_fitted)
    ∧ (∀ m, calculate_ll m
              (snd (set_savedict (json_roundtrip atom_sd) scenario_model))
            = calculate_ll m scenario_fitted)
    ∧ (∀ m, calculate_ll m
              (snd (set_savedict (json_roundtrip mol_sd) default_MolLL))
            = calculate_ll m thrice_fitted).
Proof.
  apply (save_load_round_trip scenario_fitted scenario_model
           thrice_fitted default_MolLL
           {[1 := 3; 2 := 1; 3 := 3]}
           {[Fragment 7 := {[1 := 0; 2 := 1; 3 := 1]};
             SampleObservationSum := {[1 := 0; 2 := 1; 3 := 1]}]});
    reflexivity.
Defined.

Section DecodeLast.

Context `{Countable K} {V W : Type}.
Variable decode : pykey → result K.
Variable conv : V → result W.

Lemma fold_decode_snoc (items : list (pykey * V)) (key : pykey) (v : V) :
  foldl (λ acc '(key, v), d ← acc; k ← decode key; w ← conv v;
                          Ok (<[k := w]> d))
        (Ok (∅ : gmap K W)) (items ++ [(key, v)])
  = d ← foldl (λ acc '(key, v), d ← acc; k ← decode key; w ← conv v;
                                Ok (<[k := w]> d))
              (Ok ∅) items;
    k ← decode key; w ← conv v; Ok (<[k := w]> d).
Proof. by rewrite foldl_app. Qed.

Lemma last_decoding_snoc_same (items : list (pykey * V)) key v0 k v :
  decode key = Ok k →
  last_decoding decode (items ++ [(key, v0)]) k v ↔ v = v0.
Proof.
  intros Hkey. split.
  - intros (i & key' & Hi & Hdec & Hlast).
    destruct (decide (i = length items)) as [->|Hne].
    + rewrite lookup_app_r, Nat.sub_diag in Hi by lia. by injection Hi.
    + assert (i < length items)%nat as Hlt.
      { apply lookup_lt_Some in Hi. rewrite length_app in Hi. simpl in Hi.
        lia. }
      exfalso. apply (Hlast (length items) key v0 Hlt); [|done].
      by rewrite lookup_app_r, Nat.sub_diag by lia.
  - intros ->. exists (length items), key. split; [|split; [done|]].
    + by rewrite lookup_app_r, Nat.sub_diag by lia.
    + intros j key' v' Hj Hlook. apply lookup_lt_Some in Hlook.
      rewrite length_app in Hlook. simpl in Hlook. lia.
Qed.

Lemma last_decoding_snoc_other (items : list (pykey * V)) key v0 k v :
  decode key ≠ Ok k →
  last_decoding decode (items ++ [(key, v0)]) k v
  ↔ last_decoding decode items k v.
Proof.
  intros Hkey. split.
  - intros (i & key' & Hi & Hdec & Hlast).
    assert (i < length items)%nat as Hlt.
    { destruct (decide (i = length items)) as [->|Hne].
      - rewrite lookup_app_r, Nat.sub_diag in Hi by lia.
        injection Hi as <- <-. done.
      - apply lookup_lt_Some in Hi. rewrite length_app in Hi. simpl in Hi.
        lia. }
    exists i, key'. rewrite lookup_app_l in Hi by done.
    split; [done|]. split; [done|].
    intros j key'' v'' Hj Hlook. apply (Hlast j key'' v'' Hj).
    rewrite lookup_app_l; [done|]. by apply lookup_lt_Some in Hlook.
  - intros (i & key' & Hi & Hdec & Hlast).
    exists i, key'. split; [|split; [done|]].
    + rewrite lookup_app_l; [done|]. by apply lookup_lt_Some in Hi.
    + intros j key'' v'' Hj Hlook.
      destruct (decide (j < length items)%nat) as [Hlt|Hge].
      * rewrite lookup_app_l in Hlook by done. by apply (Hlast j key'' v'').
      * assert (j = length items) as ->.
        { apply lookup_lt_Some in Hlook. rewrite length_app in Hlook.
          simpl in Hlook. lia. }
        rewrite lookup_app_r, Nat.sub_diag in Hlook by lia.
        by injection Hlook as <- <-.
Qed.

(** What the decoding loop returns, key by key. *)
Lemma fold_decode_lookup (items : list (pykey * V)) (kd : gmap K W) :
  foldl (λ acc '(key, v), d ← acc; k ← decode key; w ← conv v;
                          Ok (<[k := w]> d))
        (Ok ∅) items = Ok kd →
  ∀ k w, kd !! k = Some w
         ↔ ∃ v, last_decoding decode items k v ∧ conv v = Ok w.
Proof.
  revert kd. induction items as [|[key v0] items IH] using rev_ind;
    intros kd Hfold k w.
  - injection Hfold as <-. rewrite lookup_empty. split; [done|].
    intros (v & (i & key & Hi & _) & _). by rewrite lookup_nil in Hi.
  - rewrite fold_decode_snoc in Hfold.
    destruct (foldl _ _ items) as [d|e]; [|done].
    cbn [mbind result_bind] in Hfold.
    destruct (decode key) as [k0|e] eqn:Hkey; [|done].
    cbn [mbind result_bind] in Hfold.
    destruct (conv v0) as [w0|e] eqn:Hconv; [|done].
    injection Hfold as <-.
    destruct (decide (k = k0)) as [->|Hne].
    + rewrite lookup_insert_eq. split.
      * intros [= <-]. exists v0. split; [|done].
        by apply last_decoding_snoc_same.
      * intros (v & Hlast & Hv).
        apply last_decoding_snoc_same in Hlast; [|done]. subst v.
        congruence.
    + rewrite lookup_insert_ne by done. rewrite (IH d eq_refl k w).
      split; intros (v & Hlast & Hv); exists v; (split; [|done]).
      * apply last_decoding_snoc_other; [congruence|done].
      * apply last_decoding_snoc_other in Hlast; [done|congruence].
Qed.

Lemma fold_decode_ok (items : list (pykey * V)) :
  Forall (λ item, is_Ok (decode item.1) ∧ is_Ok (conv item.2)) items →
  is_Ok (foldl (λ acc '(key, v), d ← acc; k ← decode key; w ← conv v;
                                 Ok (<[k := w]> d))
               (Ok (∅ : gmap K W)) items).
Proof.
  induction items as [|[key v0] items IH] using rev_ind; intros Hall.
  - by eexists.
  - apply Forall_app in Hall as [Hall Hlast].
    apply Forall_singleton in Hlast as [[k Hk] [w Hw]].
    cbn [fst snd] in Hk, Hw.
    rewrite fold_decode_snoc. destruct (IH Hall) as [d ->].
    cbn [mbind result_bind]. rewrite Hk. cbn [mbind result_bind].
    rewrite Hw. by eexists.
Qed.

End DecodeLast.

Section LoadedStatistics.

Lemma int_keyed_lookup (items : list (pykey * Z)) (kd : gmap Z Z) :
  int_keyed items = Ok kd →
  ∀ z v, kd !! z = Some v ↔ last_decoding int_of_key items z v.
Proof.
  intros Hkd z v.
  rewrite (fold_decode_lookup int_of_key Ok items kd Hkd z v). split.
  - by intros (v' & Hlast & [= ->]).
  - intros Hlast. by exists v.
Qed.

Lemma int_keyed_ok (items : list (pykey * Z)) :
  Forall (λ item, is_Ok (int_of_key item.1)) items → is_Ok (int_keyed items).
Proof.
  intros Hall. apply (fold_decode_ok int_of_key Ok).
  eapply Forall_impl; [exact Hall|]. intros item Hitem. split; [done|].
  by eexists.
Qed.

Lemma restore_lookup (items : list (pykey * list (pykey * Z)))
    (kd : gmap molkey (gmap Z Z)) :
  MolLL.restore items = Ok kd →
  ∀ k c, kd !! k = Some c
         ↔ ∃ inner, last_decoding MolLL.restore_key items k inner
                    ∧ ∀ z v, c !! z = Some v
                             ↔ last_decoding int_of_key inner z v.
Proof.
  intros Hkd k c.
  rewrite (fold_decode_lookup MolLL.restore_key int_keyed items kd Hkd k c).
  split.
  - intros (inner & Hlast & Hinner). exists inner. split; [done|].
    by apply int_keyed_lookup.
  - intros (inner & Hlast & Hc). exists inner. split; [done|].
    pose proof Hlast as (i & key & Hi & _).
    destruct (int_keyed inner) as [c'|e] eqn:Hinner.
    + f_equal. apply map_eq. intros z.
      apply option_eq. intros v.
      rewrite (int_keyed_lookup inner c' Hinner z v). symmetry. apply Hc.
    + exfalso.
      destruct (fold_decode_lookup MolLL.restore_key int_keyed items kd Hkd
                  k c) as [_ Hback].
      clear Hback.
      assert (∀ (l : list (pykey * list (pykey * Z))) d,
                foldl (λ acc '(key, v), d ← acc; k ← MolLL.restore_key key;
                                        w ← int_keyed v; Ok (<[k := w]> d))
                      (Ok (∅ : gmap molkey (gmap Z Z))) l = Ok d →
                ∀ j key' v', l !! j = Some (key', v') →
                             is_Ok (MolLL.restore_key key') →
                             is_Ok (int_keyed v')) as Hall.
      { induction l as [|[key0 v0] l IHl] using rev_ind; intros d Hd j key' v'
          Hj Hdec.
        - by rewrite lookup_nil in Hj.
        - rewrite (fold_decode_snoc MolLL.restore_key int_keyed) in Hd.
          destruct (foldl _ _ l) as [d0|e0] eqn:Hl; [|done].
          cbn [mbind result_bind] in Hd.
          destruct (MolLL.restore_key key0) as [k0|e0]; [|done].
          cbn [mbind result_bind] in Hd.
          destruct (int_keyed v0) as [w0|e0] eqn:Hv0; [|done].
          destruct (decide (j < length l)%nat) as [Hlt|Hge].
          + rewrite lookup_app_l in Hj by done. by eapply (IHl d0).
          + assert (j = length l) as ->.
            { apply lookup_lt_Some in Hj. rewrite length_app in Hj.
              simpl in Hj. lia. }
            rewrite lookup_app_r, Nat.sub_diag in Hj by lia.
            injection Hj as <- <-. by eexists. }
      destruct Hlast as (i' & key' & Hi' & Hdec' & _).
      destruct (Hall items kd Hkd i' key' inner Hi') as [c' Hc'];
        [by eexists|]. congruence.
Qed.

Lemma restore_ok (items : list (pykey * list (pykey * Z))) :
  Forall (λ item, is_Ok (MolLL.restore_key item.1)
                  ∧ Forall (λ inner, is_Ok (int_of_key inner.1)) item.2)
         items →
  is_Ok (MolLL.restore items).
Proof.
  intros Hall. apply (fold_decode_ok MolLL.restore_key int_keyed).
  eapply Forall_impl; [exact Hall|]. intros item [Hkey Hinner].
  split; [done|]. by apply int_keyed_ok.
Qed.

End LoadedStatistics.




Lemma calculate_lls_in_order_witness :
  fst (calculate_lls [no_fragments; no_fragments] scenario_fitted)
  = Ok [0%R; 0%R].
Proof.
  apply (calculate_lls_in_order scenario_fitted default_MolLL
           [no_fragments; no_fragments] [0%R; 0%R]).
  assert (fst (calculate_ll no_fragments scenario_fitted) = Ok 0%R) as Hscore.
  { cbn [calculate_ll AtomLL_model].
    rewrite AtomLL_no_fragments by reflexivity. cbn [fst].
    rewrite correct_for_atoms_zero_alpha by reflexivity. f_equal. lra. }
  repeat constructor; exact Hscore.
Defined.


(** * Further properties of the code *)

(** ** [Counter.update] and the statistics of [AtomLL.fit] *)

Section AtomFit.

Lemma Counter_update_get (c : gmap Z Z) (fp : fingerprint) (key : Z) :
  Counter_get (Counter_update c fp) key
  = Counter_get c key + occurrences_in fp key.
Proof.
  unfold Counter_update, occurrences_in.
  apply (map_fold_weak_ind
    (λ r m, Counter_get r key
            = Counter_get c key + default 0 (Z.pos <$> m !! key))).
  - rewrite lookup_empty. simpl. lia.
  - intros i x m r Hfresh IH. unfold Counter_get at 1.
    destruct (decide (key = i)) as [->|Hne].
    + rewrite !lookup_insert_eq. rewrite Hfresh in IH. simpl in *. lia.
    + rewrite !lookup_insert_ne by done. exact IH.
Qed.

Lemma atom_key_data_from (radius : Z) (mols : list Mol) (start : gmap Z Z)
    (key : Z) :
  Counter_get (foldl (λ kd (mol : Mol), Counter_update kd (mol radius))
                     start mols) key
  = Counter_get start key + occurrences radius mols key.
Proof.
  unfold occurrences.
  revert start. induction mols as [|mol mols IH]; intros start; simpl.
  - lia.
  - rewrite IH, Counter_update_get. lia.
Qed.

Lemma atom_key_data_get (radius : Z) (mols : list Mol) (key : Z) :
  Counter_get (atom_key_data radius mols) key = occurrences radius mols key.
Proof.
  unfold atom_key_data. rewrite atom_key_data_from.
  unfold Counter_get. by rewrite lookup_empty.
Qed.

Lemma Counter_update_positive (c : gmap Z Z) (fp : fingerprint) :
  map_Forall (λ _ v, 1 <= v) c →
  map_Forall (λ _ v, 1 <= v) (Counter_update c fp).
Proof.
  intros Hc. unfold Counter_update.
  apply (map_fold_weak_ind (λ r _, map_Forall (λ _ v, 1 <= v) r)); [done|].
  intros k v m r _ Hr. apply map_Forall_insert_2; [|done].
  assert (0 <= Counter_get r k); [|lia].
  apply Counter_get_nonneg. intros j w Hj. specialize (Hr j w Hj).
  simpl in Hr. lia.
Qed.

Lemma atom_key_data_positive (radius : Z) (mols : list Mol) :
  map_Forall (λ _ v, 1 <= v) (atom_key_data radius mols).
Proof.
  unfold atom_key_data.
  assert (map_Forall (λ _ v, 1 <= v) (∅ : gmap Z Z)) as Hstart
    by apply map_Forall_empty.
  revert Hstart. generalize (∅ : gmap Z Z).
  induction mols as [|mol mols IH]; intros kd Hkd; simpl; [done|].
  apply IH. by apply Counter_update_positive.
Qed.

Lemma values_sum_insert (kd : gmap Z Z) (k x : Z) :
  map_fold (λ _ v acc, acc + v) 0 (<[k := x]> kd)
  = map_fold (λ _ v acc, acc + v) 0 kd - Counter_get kd k + x.
Proof.
  unfold Counter_get. destruct (kd !! k) as [y|] eqn:Hk; simpl.
  - rewrite <- (insert_delete_eq kd k x).
    rewrite map_fold_insert_L; [|intros; lia|apply lookup_delete_eq].
    rewrite (map_fold_delete_L _ _ k y kd); [|intros; lia|done]. lia.
  - rewrite map_fold_insert_L; [|intros; lia|done]. lia.
Qed.

Lemma sum_values_insert (fp : fingerprint) (k : Z) (v : positive) :
  fp !! k = None →
  sum_values (<[k := v]> fp) = (sum_values fp + Npos v)%N.
Proof.
  intros Hk. unfold sum_values.
  rewrite map_fold_insert_L; [done|intros; lia|done].
Qed.

Lemma Counter_update_sum (c : gmap Z Z) (fp : fingerprint) :
  map_fold (λ _ v acc, acc + v) 0 (Counter_update c fp)
  = map_fold (λ _ v acc, acc + v) 0 c + Z.of_N (sum_values fp).
Proof.
  unfold Counter_update.
  induction fp as [|k v fp Hfresh Hfirst IH] using map_first_key_ind.
  - rewrite map_fold_empty. unfold sum_values. rewrite map_fold_empty. lia.
  - rewrite map_fold_insert_first_key by done.
    rewrite values_sum_insert, IH, sum_values_insert by done. lia.
Qed.

Lemma atom_key_data_sum_from (radius : Z) (mols : list Mol) (start : gmap Z Z) :
  map_fold (λ _ v acc, acc + v) 0
           (foldl (λ kd (mol : Mol), Counter_update kd (mol radius)) start mols)
  = map_fold (λ _ v acc, acc + v) 0 start + total_occurrences radius mols.
Proof.
  unfold total_occurrences.
  revert start. induction mols as [|mol mols IH]; intros start; simpl.
  - lia.
  - rewrite IH, Counter_update_sum. lia.
Qed.

Lemma atom_key_data_sum (radius : Z) (mols : list Mol) :
  map_fold (λ _ v acc, acc + v) 0 (atom_key_data radius mols)
  = total_occurrences radius mols.
Proof.
  unfold atom_key_data. rewrite atom_key_data_sum_from.
  by rewrite map_fold_empty.
Qed.

Lemma occurrences_app (radius : Z) (mols1 mols2 : list Mol) (key : Z) :
  occurrences radius (mols1 ++ mols2) key
  = occurrences radius mols1 key + occurrences radius mols2 key.
Proof.
  unfold occurrences. induction mols1 as [|mol mols1 IH]; simpl; lia.
Qed.

Lemma total_occurrences_app (radius : Z) (mols1 mols2 : list Mol) :
  total_occurrences radius (mols1 ++ mols2)
  = total_occurrences radius mols1 + total_occurrences radius mols2.
Proof.
  unfold total_occurrences. induction mols1 as [|mol mols1 IH]; simpl; lia.
Qed.

End AtomFit.

Lemma size_le_values_sum (kd : gmap Z Z) :
  map_Forall (λ _ v, 1 <= v) kd →
  Z.of_nat (size kd) <= map_fold (λ _ v acc, acc + v) 0 kd.
Proof.
  induction kd as [|k v kd Hfresh IH] using map_ind; intros Hall.
  - rewrite map_size_empty, map_fold_empty. lia.
  - apply map_Forall_insert in Hall as [Hv Hall]; [|done].
    rewrite map_size_insert_None by done.
    rewrite map_fold_insert_L; [|intros; lia|done].
    specialize (IH Hall). lia.
Qed.

(** X1 — [AtomLL.fit] always completes, and the statistic it keeps for a
    fragment is the number of times that fragment occurs in all the
    training molecules together; a fragment is a key of the statistics
    exactly when it occurs in some molecule. *)
Theorem AtomLL_fit_counts_occurrences
    (self : BaseLL (gmap Z Z)) (mols : list Mol) :
  ∃ kd,
    fst (AtomLL.fit mols self) = Ok ()
    ∧ _key_data (snd (AtomLL.fit mols self)) = Some kd
    ∧ (∀ key, Counter_get kd key = occurrences (_radius self) mols key)
    ∧ (∀ key, is_Some (kd !! key) ↔ 0 < occurrences (_radius self) mols key).
Proof.
  exists (atom_key_data (_radius self) mols). rewrite AtomLL_fit_eq.
  split; [done|]. split; [done|]. split.
  - intros key. apply atom_key_data_get.
  - intros key. rewrite <- atom_key_data_get. unfold Counter_get.
    pose proof (atom_key_data_positive (_radius self) mols) as Hpos.
    destruct (atom_key_data (_radius self) mols !! key) as [v|] eqn:Hkey;
      simpl.
    + specialize (Hpos key v Hkey). simpl in Hpos. split; [lia|by eexists].
    + split; [by intros [? ?]|lia].
Qed.

(** X2 — The observation count [AtomLL.fit] records is the total number of
    fragment occurrences in the training molecules, the sum over the
    molecules of [sum(fp.values())]. *)
Theorem AtomLL_fit_observations
    (self : BaseLL (gmap Z Z)) (mols : list Mol) :
  _n_observations (snd (AtomLL.fit mols self))
  = total_occurrences (_radius self) mols.
Proof.
  rewrite AtomLL_fit_eq. cbn [snd _n_observations]. apply atom_key_data_sum.
Qed.

(** X3 — Fitting on the concatenation of two collections gives, key by key,
    the sum of the statistics of fitting on each, and the sum of their
    observation counts. *)
Theorem AtomLL_fit_additive
    (self : BaseLL (gmap Z Z)) (mols1 mols2 : list Mol) :
  ∃ kd1 kd2 kd,
    _key_data (snd (AtomLL.fit mols1 self)) = Some kd1
    ∧ _key_data (snd (AtomLL.fit mols2 self)) = Some kd2
    ∧ _key_data (snd (AtomLL.fit (mols1 ++ mols2) self)) = Some kd
    ∧ (∀ key, Counter_get kd key = Counter_get kd1 key + Counter_get kd2 key)
    ∧ _n_observations (snd (AtomLL.fit (mols1 ++ mols2) self))
      = _n_observations (snd (AtomLL.fit mols1 self))
        + _n_observations (snd (AtomLL.fit mols2 self)).
Proof.
  rewrite !AtomLL_fit_eq. cbn [snd _key_data _n_observations].
  eexists _, _, _. split; [done|]. split; [done|]. split; [done|]. split.
  - intros key. rewrite !atom_key_data_get. apply occurrences_app.
  - rewrite !atom_key_data_sum. apply total_occurrences_app.
Qed.

(** X4 — After [AtomLL.fit] the observed keyspace (the number of distinct
    fragments seen) is defined and never exceeds the observation count. *)
Theorem AtomLL_observed_keyspace_le
    (self : BaseLL (gmap Z Z)) (mols : list Mol) :
  ∃ n, AtomLL.observed_keyspace (snd (AtomLL.fit mols self)) = Ok n
       ∧ Z.of_nat n <= _n_observations (snd (AtomLL.fit mols self)).
Proof.
  rewrite AtomLL_fit_eq. unfold AtomLL.observed_keyspace.
  cbn [snd _key_data _n_observations]. eexists. split; [done|].
  apply size_le_values_sum, atom_key_data_positive.
Qed.

(** X5 — [fit] overwrites: for either class, fitting a model that was
    already fitted on another collection gives exactly what fitting the
    unfitted model gives. *)
Theorem fit_overwrites
    (atom : BaseLL (gmap Z Z)) (mol : BaseLL (gmap molkey (gmap Z Z)))
    (before mols : list Mol) :
  AtomLL.fit mols (snd (AtomLL.fit before atom)) = AtomLL.fit mols atom
  ∧ MolLL.fit mols (snd (MolLL.fit before mol)) = MolLL.fit mols mol.
Proof.
  split.
  - rewrite (AtomLL_fit_eq before). by rewrite !AtomLL_fit_eq.
  - rewrite (MolLL_fit_eq before). by rewrite !MolLL_fit_eq.
Qed.

(** ** The statistics of [MolLL.fit] *)

Section MolFit.

Lemma counter_total_empty : counter_total ∅ = 0.
Proof. unfold counter_total. by rewrite map_to_list_empty. Qed.

Lemma counter_total_insert (c : gmap Z Z) (k f : Z) :
  counter_total (<[k := f]> c)
  = counter_total c - k * Counter_get c k + k * f.
Proof.
  rewrite (counter_total_get (<[k := f]> c) k), (counter_total_get c k).
  rewrite delete_insert_eq. unfold Counter_get at 1.
  rewrite lookup_insert_eq. simpl. lia.
Qed.

Lemma counter_total_incr (c : gmap Z Z) (count : Z) :
  counter_total (Counter_incr c count) = counter_total c + count.
Proof. unfold Counter_incr. rewrite counter_total_insert. lia. Qed.

Lemma weighted_total_insert (kd : gmap molkey (gmap Z Z)) key c :
  weighted_total (<[key := c]> kd)
  = weighted_total kd - counter_total (default ∅ (kd !! key))
    + counter_total c.
Proof.
  rewrite (weighted_total_delete (<[key := c]> kd) key c)
    by apply lookup_insert_eq.
  rewrite delete_insert_eq.
  destruct (kd !! key) as [old|] eqn:Hkey; simpl.
  - rewrite (weighted_total_delete kd key old Hkey). lia.
  - rewrite delete_id by done. rewrite counter_total_empty. lia.
Qed.

Lemma weighted_total_incr (kd : gmap molkey (gmap Z Z)) key count :
  weighted_total (defaultdict_incr kd key count) = weighted_total kd + count.
Proof.
  rewrite defaultdict_incr_insert, weighted_total_insert, counter_total_incr.
  lia.
Qed.

Lemma weighted_total_count_mol (kd : gmap molkey (gmap Z Z)) (fp : fingerprint) :
  weighted_total (MolLL.count_mol kd fp)
  = weighted_total kd + 2 * Z.of_N (sum_values fp).
Proof.
  unfold MolLL.count_mol. rewrite weighted_total_incr.
  assert (weighted_total
            (map_fold (λ key count kd,
                         defaultdict_incr kd (Fragment key) (Z.pos count))
                      kd fp)
          = weighted_total kd + Z.of_N (sum_values fp)) as ->; [|lia].
  induction fp as [|k v fp Hfresh Hfirst IH] using map_first_key_ind.
  - rewrite map_fold_empty. unfold sum_values. rewrite map_fold_empty. lia.
  - rewrite map_fold_insert_first_key by done.
    rewrite weighted_total_incr, IH, sum_values_insert by done. lia.
Qed.

Lemma weighted_total_raw (radius : Z) (mols : list Mol) :
  weighted_total (raw_key_data radius mols)
  = 2 * total_occurrences radius mols.
Proof.
  unfold raw_key_data, total_occurrences.
  assert (∀ start : gmap molkey (gmap Z Z),
            weighted_total
              (foldl (λ kd (mol : Mol), MolLL.count_mol kd (mol radius))
                     start mols)
            = weighted_total start
              + 2 * foldr Z.add 0
                      (map (λ mol : Mol, Z.of_N (sum_values (mol radius)))
                           mols)) as Hgen.
  { induction mols as [|mol mols IH]; intros start; simpl; [lia|].
    rewrite IH, weighted_total_count_mol. lia. }
  rewrite Hgen. unfold weighted_total. rewrite map_to_list_empty. simpl. lia.
Qed.

(** Which keys [fit] has gathered. *)
Lemma defaultdict_incr_is_Some (kd : gmap molkey (gmap Z Z)) key count k :
  is_Some (defaultdict_incr kd key count !! k)
  ↔ k = key ∨ is_Some (kd !! k).
Proof.
  rewrite defaultdict_incr_insert. destruct (decide (k = key)) as [->|Hne].
  - rewrite lookup_insert_eq. split; [by left|by eexists].
  - rewrite lookup_insert_ne by done. split; [by right|by intros [?|?]].
Qed.

Lemma count_mol_is_Some (kd : gmap molkey (gmap Z Z)) (fp : fingerprint) k :
  is_Some (MolLL.count_mol kd fp !! k)
  ↔ k = SampleObservationSum
    ∨ (∃ z, k = Fragment z ∧ is_Some (fp !! z))
    ∨ is_Some (kd !! k).
Proof.
  unfold MolLL.count_mol. rewrite defaultdict_incr_is_Some.
  assert (is_Some (map_fold (λ key count kd,
                               defaultdict_incr kd (Fragment key) (Z.pos count))
                            kd fp !! k)
          ↔ (∃ z, k = Fragment z ∧ is_Some (fp !! z)) ∨ is_Some (kd !! k))
    as ->; [|done].
  induction fp as [|z v fp Hfresh Hfirst IH] using map_first_key_ind.
  - rewrite map_fold_empty. split; [by right|].
    intros [(z & _ & Hz)|?]; [|done]. rewrite lookup_empty in Hz.
    by destruct Hz.
  - rewrite map_fold_insert_first_key by done.
    rewrite defaultdict_incr_is_Some, IH. split.
    + intros [->|[(z' & -> & Hz')|Hkd]].
      * left. exists z. split; [done|]. rewrite lookup_insert_eq. by eexists.
      * left. exists z'. split; [done|].
        destruct (decide (z' = z)) as [->|Hne].
        -- rewrite lookup_insert_eq. by eexists.
        -- by rewrite lookup_insert_ne.
      * by right.
    + intros [(z' & -> & Hz')|Hkd]; [|by do 2 right].
      destruct (decide (z' = z)) as [->|Hne]; [by left|].
      right. left. exists z'. split; [done|].
      by rewrite lookup_insert_ne in Hz'.
Qed.

Lemma occurrences_pos (radius : Z) (mols : list Mol) (z : Z) :
  0 < occurrences radius mols z
  ↔ ∃ mol : Mol, mol ∈ mols ∧ is_Some (mol radius !! z).
Proof.
  unfold occurrences. induction mols as [|mol mols IH]; simpl.
  - split; [lia|]. intros (mol & Hin & _). by apply elem_of_nil in Hin.
  - assert (0 <= foldr Z.add 0
                   (map (λ mol0 : Mol, occurrences_in (mol0 radius) z) mols))
      as Hnn.
    { clear IH. induction mols as [|m ms IHm]; simpl; [lia|].
      unfold occurrences_in at 1. destruct (m radius !! z); simpl; lia. }
    unfold occurrences_in at 1. split.
    + destruct (mol radius !! z) as [v|] eqn:Hz; simpl.
      * intros _. exists mol. split; [by left|]. rewrite Hz. by eexists.
      * intros Hpos. destruct IH as [IH _].
        destruct (IH ltac:(lia)) as (mol' & Hin & Hsome).
        exists mol'. split; [by right|done].
    + intros (mol' & Hin & Hsome).
      apply elem_of_cons in Hin as [->|Hin].
      * destruct Hsome as [v ->]. simpl. lia.
      * destruct IH as [_ IH]. specialize (IH (ex_intro _ mol' (conj Hin Hsome))).
        destruct (mol radius !! z); simpl; lia.
Qed.

Lemma raw_key_data_is_Some (radius : Z) (mols : list Mol) k :
  is_Some (raw_key_data radius mols !! k)
  ↔ (k = SampleObservationSum ∧ mols ≠ [])
    ∨ (∃ z, k = Fragment z ∧ 0 < occurrences radius mols z).
Proof.
  unfold raw_key_data.
  assert (∀ start : gmap molkey (gmap Z Z),
            is_Some (foldl (λ kd (mol : Mol), MolLL.count_mol kd (mol radius))
                           start mols !! k)
            ↔ (k = SampleObservationSum ∧ mols ≠ [])
              ∨ (∃ z, k = Fragment z ∧ 0 < occurrences radius mols z)
              ∨ is_Some (start !! k)) as Hgen.
  { induction mols as [|mol mols IH]; intros start; cbn [foldl].
    - split; [by do 2 right|].
      intros [[_ ?]|[(z & _ & Hz)|?]]; [done| |done].
      unfold occurrences in Hz. simpl in Hz. lia.
    - rewrite IH, count_mol_is_Some. setoid_rewrite occurrences_pos. split.
      + intros [[-> Hne]|[(z & -> & mol' & Hin & Hz)|[->|[(z & -> & Hz)|Hs]]]].
        * by left.
        * right. left. exists z. split; [done|]. exists mol'.
          split; [by right|done].
        * by left.
        * right. left. exists z. split; [done|]. exists mol.
          split; [by left|done].
        * by do 2 right.
      + intros [[-> _]|[(z & -> & mol' & Hin & Hz)|Hs]].
        * do 2 right. by left.
        * apply elem_of_cons in Hin as [->|Hin].
          -- do 2 right. right. left. by exists z.
          -- right. left. exists z. split; [done|]. by exists mol'.
        * by do 4 right. }
  rewrite Hgen, lookup_empty. split.
  - intros [?|[?|[? ?]]]; [by left|by right|done].
  - intros [?|?]; [by left|right; by left].
Qed.

End MolFit.

(** X6 — The observation count [MolLL.fit] records is twice the total
    number of fragment occurrences in the training molecules: every
    molecule adds its occurrences once under its fragments and once more
    under the reserved key. *)
Theorem MolLL_fit_observations
    (self : BaseLL (gmap molkey (gmap Z Z))) (mols : list Mol) :
  fst (MolLL.fit mols self) = Ok ()
  ∧ _n_observations (snd (MolLL.fit mols self))
    = 2 * total_occurrences (_radius self) mols.
Proof.
  rewrite MolLL_fit_eq. cbn [fst snd _n_observations]. split; [done|].
  rewrite n_observations_total. apply weighted_total_raw.
Qed.

(** X7 — After [MolLL.fit] the statistics hold a counter for a fragment
    exactly when it occurs in some training molecule, and a counter under
    the reserved key exactly when there was at least one molecule. *)
Theorem MolLL_fit_keys
    (self : BaseLL (gmap molkey (gmap Z Z))) (mols : list Mol) :
  ∃ kd,
    _key_data (snd (MolLL.fit mols self)) = Some kd
    ∧ (∀ z, is_Some (kd !! Fragment z)
            ↔ 0 < occurrences (_radius self) mols z)
    ∧ (is_Some (kd !! SampleObservationSum) ↔ mols ≠ []).
Proof.
  rewrite MolLL_fit_eq. cbn [snd _key_data]. eexists. split; [done|].
  split.
  - intros z. rewrite lookup_fmap, fmap_is_Some, raw_key_data_is_Some. split.
    + intros [[? _]|(z' & [= ->] & Hz)]; done.
    + intros Hz. right. by exists z.
  - rewrite lookup_fmap, fmap_is_Some, raw_key_data_is_Some. split.
    + intros [[_ ?]|(z' & ? & _)]; done.
    + intros Hne. by left.
Qed.

(** ** More on the smoothing pass *)

Section SmoothingMore.

Lemma smooth_key_negative (c : gmap Z Z) (s : gmap Z Z) (k : Z) :
  Counter_get c (k - 1) < 0 ∨ Counter_get c k < 0 ∨ Counter_get c (k + 1) < 0 →
  MolLL.smooth_key c (Ok s) k = Raise ValueError.
Proof.
  intros Hneg. rewrite smooth_key_exec.
  unfold Exec.smooth_key, Exec.ceil_geomean. cbn [mbind result_bind].
  destruct (Z.ltb_spec (Counter_get c (k - 1)) 0),
           (Z.ltb_spec (Counter_get c k) 0),
           (Z.ltb_spec (Counter_get c (k + 1)) 0); try done; lia.
Qed.

Lemma smooth_key_nonneg (c : gmap Z Z) (s : gmap Z Z) (k : Z) :
  0 <= Counter_get c (k - 1) → 0 <= Counter_get c k →
  0 <= Counter_get c (k + 1) →
  ∃ v, MolLL.smooth_key c (Ok s) k = Ok (<[k := v]> s).
Proof.
  intros Ha Hb Hc. rewrite smooth_key_exec.
  unfold Exec.smooth_key, Exec.ceil_geomean. cbn [mbind result_bind].
  destruct (Z.ltb_spec (Counter_get c (k - 1)) 0),
           (Z.ltb_spec (Counter_get c k) 0),
           (Z.ltb_spec (Counter_get c (k + 1)) 0); try lia.
  cbn [orb mbind result_bind]. by eexists.
Qed.

Lemma smooth_loop_raised (c : gmap Z Z) (keys : list Z) (e : exn) :
  foldl (MolLL.smooth_key c) (Raise e) keys = Raise e.
Proof. induction keys as [|k keys IH]; [done|]. cbn [foldl]. exact IH. Qed.

Lemma smooth_loop_negative (c : gmap Z Z) (keys : list Z) (s : gmap Z Z) :
  Exists (λ k, Counter_get c (k - 1) < 0 ∨ Counter_get c k < 0
               ∨ Counter_get c (k + 1) < 0) keys →
  foldl (MolLL.smooth_key c) (Ok s) keys = Raise ValueError.
Proof.
  revert s. induction keys as [|k keys IH]; intros s Hex; cbn [foldl].
  - by apply Exists_nil in Hex.
  - destruct (decide (Counter_get c (k - 1) < 0 ∨ Counter_get c k < 0
                      ∨ Counter_get c (k + 1) < 0)) as [Hneg|Hok].
    + rewrite smooth_key_negative by done. apply smooth_loop_raised.
    + apply Exists_cons in Hex as [?|Hex]; [done|].
      destruct (smooth_key_nonneg c s k) as [v ->]; [lia..|]. by apply IH.
Qed.

Lemma smooth_loop_nonneg (c : gmap Z Z) (keys : list Z) (s : gmap Z Z) :
  Forall (λ k, 0 <= Counter_get c (k - 1) ∧ 0 <= Counter_get c k
               ∧ 0 <= Counter_get c (k + 1)) keys →
  ∃ s', foldl (MolLL.smooth_key c) (Ok s) keys = Ok s'.
Proof.
  revert s. induction keys as [|k keys IH]; intros s Hall; cbn [foldl].
  - by eexists.
  - apply Forall_cons in Hall as [(Ha & Hb & Hc) Hall].
    destruct (smooth_key_nonneg c s k Ha Hb Hc) as [v ->]. by apply IH.
Qed.

End SmoothingMore.

(** X8 — On a counter whose frequencies are 64-bit signed integers (the
    range in which numpy builds an integer array from them),
    [_smooth_counter] raises nothing but [ValueError], and it returns a
    counter exactly when the counter given is not empty and, in case its
    largest count is 2 or more, no count from 1 up to the largest has a
    negative frequency. *)
Theorem smooth_counter_raises (counter : gmap Z Z) :
  map_Forall (λ _ freq, - 2 ^ 63 <= freq < 2 ^ 63) counter →
  (∀ e, MolLL._smooth_counter counter = Raise e → e = ValueError)
  ∧ (is_Ok (MolLL._smooth_counter counter)
     ↔ counter ≠ ∅
       ∧ ∀ top j,
           is_Some (counter !! top) →
           (∀ k, is_Some (counter !! k) → k <= top) →
           2 <= top → 1 <= j <= top → 0 <= Counter_get counter j).
Proof.
  intros _.
  destruct (decide (counter = ∅)) as [->|Hne].
  { unfold MolLL._smooth_counter. rewrite map_to_list_empty.
    cbn [map Py.max mbind result_bind]. split.
    - by intros e [= <-].
    - split; [by intros [? ?]|by intros [? _]]. }
  destruct (counter_top_exists counter Hne) as [top Htop].
  pose proof (counter_top_spec counter top Htop) as [Hin Hmax].
  unfold MolLL._smooth_counter. rewrite Htop. cbn [mbind result_bind].
  set (start := <[1 := Counter_get counter 1]> ∅).
  destruct (decide (Exists (λ k, Counter_get counter (k - 1) < 0
                                 ∨ Counter_get counter k < 0
                                 ∨ Counter_get counter (k + 1) < 0)
                           (Py.range 2 (top + 1)))) as [Hex|Hall].
  - rewrite (smooth_loop_negative counter _ start Hex). split.
    + by intros e [= <-].
    + split; [by intros [? ?]|]. intros [_ Hnonneg]. exfalso.
      apply Exists_exists in Hex as (k & Hk%elem_of_range & Hneg).
      pose proof (Counter_get_above counter top (k + 1) Hmax) as Habove.
      destruct Hneg as [Hneg|[Hneg|Hneg]].
      * specialize (Hnonneg top (k - 1) Hin Hmax). lia.
      * specialize (Hnonneg top k Hin Hmax). lia.
      * destruct (decide (k = top)) as [->|Hlt]; [lia|].
        specialize (Hnonneg top (k + 1) Hin Hmax). lia.
  - apply not_Exists_Forall in Hall; [|intros k; apply _].
    destruct (smooth_loop_nonneg counter (Py.range 2 (top + 1)) start)
      as [s ->].
    { eapply Forall_impl; [exact Hall|]. intros k Hk. cbn in Hk. lia. }
    split; [done|]. split; [|by eexists]. intros _. split; [done|].
    intros top' j Hin' Hmax' Htop2 Hj.
    assert (top' = top) as ->.
    { specialize (Hmax top' Hin'). specialize (Hmax' top Hin). lia. }
    rewrite Forall_forall in Hall.
    destruct (decide (j = 1)) as [->|Hj1].
    + assert (2 ∈ Py.range 2 (top + 1)) as H2 by (apply elem_of_range; lia).
      specialize (Hall 2 H2). cbn in Hall.
      change (2 - 1) with 1 in Hall. lia.
    + assert (j ∈ Py.range 2 (top + 1)) as Hjr by (apply elem_of_range; lia).
      specialize (Hall j Hjr). cbn in Hall. lia.
Qed.

Lemma smooth_counter_raises_witness :
  (∀ e, MolLL._smooth_counter {[1 := 2; 2 := -1]} = Raise e → e = ValueError)
  ∧ (is_Ok (MolLL._smooth_counter {[1 := 2; 2 := -1]})
     ↔ ({[1 := 2; 2 := -1]} : gmap Z Z) ≠ ∅
       ∧ ∀ top j,
           is_Some (({[1 := 2; 2 := -1]} : gmap Z Z) !! top) →
           (∀ k, is_Some (({[1 := 2; 2 := -1]} : gmap Z Z) !! k) → k <= top) →
           2 <= top → 1 <= j <= top →
           0 <= Counter_get {[1 := 2; 2 := -1]} j).
Proof.
  apply (smooth_counter_raises {[1 := 2; 2 := -1]}).
  apply (bool_decide_unpack _). vm_compute. exact I.
Defined.

(** X9 — Smoothing a non-empty counter without negative frequencies always
    gives count 1 a key and never keeps a count below 1: the keys of the
    result are 1 and the counts from 2 up to the largest raw count.
    Observations at count 0 (molecules without fragments, under the
    reserved key) are therefore dropped. *)
Theorem smooth_counter_keys (counter : gmap Z Z) :
  counter ≠ ∅ →
  map_Forall (λ _ freq, 0 <= freq) counter →
  ∃ top smoothed_counter,
    (is_Some (counter !! top) ∧ ∀ k, is_Some (counter !! k) → k <= top)
    ∧ MolLL._smooth_counter counter = Ok smoothed_counter
    ∧ (∀ k, is_Some (smoothed_counter !! k) ↔ k = 1 ∨ 2 <= k <= top)
    ∧ (∀ k, k < 1 → Counter_get smoothed_counter k = 0).
Proof.
  intros Hne Hfreq.
  destruct (counter_top_exists counter Hne) as [top Htop].
  destruct (smooth_counter_lookup counter Hfreq top Htop) as (s & Hs & Hlook).
  exists top, s. split; [by apply counter_top_spec|]. split; [done|]. split.
  - intros k. rewrite Hlook.
    destruct (decide (2 <= k <= top)); [split; [by right|by eexists]|].
    destruct (decide (k = 1)); [split; [by left|by eexists]|].
    split; [by intros [? ?]|lia].
  - intros k Hk. unfold Counter_get. rewrite Hlook.
    rewrite decide_False by lia. by rewrite decide_False by lia.
Qed.

Lemma smooth_counter_keys_witness :
  ∃ top smoothed_counter,
    (is_Some (({[0 := 2]} : gmap Z Z) !! top)
     ∧ ∀ k, is_Some (({[0 := 2]} : gmap Z Z) !! k) → k <= top)
    ∧ MolLL._smooth_counter {[0 := 2]} = Ok smoothed_counter
    ∧ (∀ k, is_Some (smoothed_counter !! k) ↔ k = 1 ∨ 2 <= k <= top)
    ∧ (∀ k, k < 1 → Counter_get smoothed_counter k = 0).
Proof.
  apply (smooth_counter_keys {[0 := 2]}).
  - apply (bool_decide_unpack _). vm_compute. exact I.
  - apply (bool_decide_unpack _). vm_compute. exact I.
Defined.

Section SmoothedWindow.

Lemma cube_le_mono (x y : Z) : 0 <= x <= y → x * x * x <= y * y * y.
Proof.
  intros Hxy. assert (x * x <= y * y) by (apply Z.mul_le_mono_nonneg; lia).
  apply Z.mul_le_mono_nonneg; lia.
Qed.

Lemma cube_lt_inv (x y : Z) : 0 <= y → x * x * x < y * y * y → x < y.
Proof.
  intros Hy Hlt. destruct (decide (x < y)) as [|Hge]; [done|].
  pose proof (cube_le_mono y x). lia.
Qed.

Lemma scaled_product_ge (a b c n : Z) :
  0 <= n → n <= a → n <= b → n <= c →
  (20 * n + 3) * (20 * n + 3) * (20 * n + 3) <= Exec.scaled_product a b c.
Proof.
  intros Hn Ha Hb Hc. unfold Exec.scaled_product.
  repeat apply Z.mul_le_mono_nonneg; lia.
Qed.

Lemma scaled_product_mono (a b c a' b' c' : Z) :
  0 <= a <= a' → 0 <= b <= b' → 0 <= c <= c' →
  Exec.scaled_product a b c <= Exec.scaled_product a' b' c'.
Proof.
  intros Ha Hb Hc. unfold Exec.scaled_product.
  repeat apply Z.mul_le_mono_nonneg; lia.
Qed.

(** The entries of a smoothed counter from count 2 up. *)
Lemma smooth_counter_entry (counter s : gmap Z Z) (count v : Z) :
  map_Forall (λ _ freq, 0 <= freq) counter →
  MolLL._smooth_counter counter = Ok s →
  2 <= count → s !! count = Some v →
  v = smoothed_value counter count.
Proof.
  intros Hfreq Hs Hcount Hv.
  assert (counter ≠ ∅) as Hne.
  { intros ->. unfold MolLL._smooth_counter in Hs.
    by rewrite map_to_list_empty in Hs. }
  destruct (counter_top_exists counter Hne) as [top Htop].
  destruct (smooth_counter_lookup counter Hfreq top Htop) as (s' & Hs' & Hlook).
  rewrite Hs in Hs'. injection Hs' as <-. rewrite Hlook in Hv.
  destruct (decide (2 <= count <= top)); [by injection Hv|].
  destruct (decide (count = 1)); [lia|done].
Qed.

End SmoothedWindow.



(** X11 — Smoothing is monotone: if, at count-1, count and count+1, one raw
    counter has frequencies at most those of another, its smoothed
    frequency at that count (2 or more) is at most the other's. *)
Theorem smoothing_monotone (c1 c2 s1 s2 : gmap Z Z) (count v1 v2 : Z) :
  map_Forall (λ _ freq, 0 <= freq) c1 →
  map_Forall (λ _ freq, 0 <= freq) c2 →
  MolLL._smooth_counter c1 = Ok s1 → MolLL._smooth_counter c2 = Ok s2 →
  2 <= count → s1 !! count = Some v1 → s2 !! count = Some v2 →
  Counter_get c1 (count - 1) <= Counter_get c2 (count - 1) →
  Counter_get c1 count <= Counter_get c2 count →
  Counter_get c1 (count + 1) <= Counter_get c2 (count + 1) →
  v1 <= v2.
Proof.
  intros Hf1 Hf2 Hs1 Hs2 Hcount Hv1 Hv2 Ha Hb Hc.
  rewrite (smooth_counter_entry c1 s1 count v1 Hf1 Hs1 Hcount Hv1).
  rewrite (smooth_counter_entry c2 s2 count v2 Hf2 Hs2 Hcount Hv2).
  destruct (smoothed_value_spec c1 Hf1 count) as [Hlo1 _].
  destruct (smoothed_value_spec c2 Hf2 count) as [_ Hhi2].
  pose proof (smoothed_value_pos c2 Hf2 count) as Hpos2.
  pose proof (Counter_get_nonneg c1 (count - 1) Hf1).
  pose proof (Counter_get_nonneg c1 count Hf1).
  pose proof (Counter_get_nonneg c1 (count + 1) Hf1).
  pose proof (scaled_product_mono
                (Counter_get c1 (count - 1)) (Counter_get c1 count)
                (Counter_get c1 (count + 1))
                (Counter_get c2 (count - 1)) (Counter_get c2 count)
                (Counter_get c2 (count + 1))
                ltac:(lia) ltac:(lia) ltac:(lia)) as Hmono.
  assert (smoothed_value c1 count - 1 < smoothed_value c2 count); [|lia].
  apply cube_lt_inv; lia.
Qed.

Lemma smoothing_monotone_witness : 1 <= 49.
Proof.
  apply (smoothing_monotone scenario_histogram
           {[1 := 100; 2 := 1000; 3 := 1; 4 := 50]}
           {[1 := 5; 2 := 1; 3 := 1]}
           {[1 := 100; 2 := 49; 3 := 39; 4 := 3]} 2 1 49).
  - apply (bool_decide_unpack _). vm_compute. exact I.
  - apply (bool_decide_unpack _). vm_compute. exact I.
  - rewrite smooth_counter_exec. vm_compute. reflexivity.
  - rewrite smooth_counter_exec. vm_compute. reflexivity.
  - lia.
  - reflexivity.
  - reflexivity.
  - vm_compute. discriminate.
  - vm_compute. discriminate.
  - vm_compute. discriminate.
Defined.


Section RoundedWindow.

Lemma scaled_cube (a b c : Z) :
  0 <= a → 0 <= b → 0 <= c →
  (8000 * (exp_mean_log3 (IZR a + 0.15) (IZR b + 0.15) (IZR c + 0.15)
           * exp_mean_log3 (IZR a + 0.15) (IZR b + 0.15) (IZR c + 0.15)
           * exp_mean_log3 (IZR a + 0.15) (IZR b + 0.15) (IZR c + 0.15))
   = IZR (Exec.scaled_product a b c))%R.
Proof.
  intros Ha Hb Hc.
  rewrite (exp_mean_log3_cube _ _ _ (shifted_count_pos a Ha)
             (shifted_count_pos b Hb) (shifted_count_pos c Hc)).
  rewrite !shifted_count. unfold Exec.scaled_product.
  rewrite !mult_IZR. lra.
Qed.

Lemma Rcube_le_mono (x y : R) :
  (0 <= x <= y)%R → (x * x * x <= y * y * y)%R.
Proof.
  intros [Hx Hxy].
  assert (x * x <= y * y)%R by nra.
  assert (0 <= x * x)%R by nra. nra.
Qed.

Lemma Rcube_lt_mono (x y : R) :
  (0 <= x < y)%R → (x * x * x < y * y * y)%R.
Proof.
  intros [Hx Hxy].
  assert (x * x <= y * y)%R by nra.
  assert (0 < y * y)%R by nra. nra.
Qed.

End RoundedWindow.

(** X12 — The value [math.ceil(np.exp(np.mean(np.log(values))))] computed
    in double precision for three non-negative frequencies [a], [b], [c]
    raised by 0.15, with a relative error of at most [eps] on the mean, is
    tied to the integers without logarithms. With
    [P = (20a+3)(20b+3)(20c+3)]: an [n] with
    [8000 (n-1)^3 < P (1-eps)^3] and [P (1+eps)^3 <= 8000 n^3] is the value
    computed; and the value [n] computed always satisfies
    [8000 (n-1)^3 < P (1+eps)^3] and [P (1-eps)^3 <= 8000 n^3]. *)
Theorem ceil_geometric_mean_integer
    (rel_err : list R → R) (eps : R) (a b c n : Z) :
  (∀ values, Rabs (rel_err values) <= eps)%R → (eps < 1)%R →
  0 <= a → 0 <= b → 0 <= c →
  let P := IZR ((20 * a + 3) * (20 * b + 3) * (20 * c + 3)) in
  ((IZR (8000 * ((n - 1) * (n - 1) * (n - 1)))
    < P * ((1 - eps) * (1 - eps) * (1 - eps)))%R →
   (P * ((1 + eps) * (1 + eps) * (1 + eps)) <= IZR (8000 * (n * n * n)))%R →
   Float64.ceil_exp_mean_log rel_err (map (λ v, IZR v + 0.15)%R [a; b; c])
   = Ok n)
  ∧ (Float64.ceil_exp_mean_log rel_err (map (λ v, IZR v + 0.15)%R [a; b; c])
     = Ok n →
     (IZR (8000 * ((n - 1) * (n - 1) * (n - 1)))
      < P * ((1 + eps) * (1 + eps) * (1 + eps)))%R
     ∧ (P * ((1 - eps) * (1 - eps) * (1 - eps))
        <= IZR (8000 * (n * n * n)))%R).
Proof.
  intros Herr Heps Ha Hb Hc P.
  rewrite rounded_ceil_shifted by done.
  set (e := rel_err _).
  assert (- eps <= e <= eps)%R as [Helo Hehi].
  { pose proof (Herr (map (λ v, IZR v + 0.15)%R [a; b; c])) as He.
    fold e in He. by apply Rabs_le_bounds in He. }
  assert (0 < P)%R as HP.
  { unfold P. apply IZR_lt.
    pose proof (scaled_product_pos a b c Ha Hb Hc) as Hpos.
    unfold Exec.scaled_product in Hpos. lia. }
  pose proof (Rcube_le_mono (1 - eps) (1 + e)) as Hlow.
  pose proof (Rcube_le_mono (1 + e) (1 + eps)) as Hhigh.
  assert ((1 - eps) * (1 - eps) * (1 - eps)
          <= (1 + e) * (1 + e) * (1 + e))%R as Hlow' by (apply Hlow; lra).
  assert ((1 + e) * (1 + e) * (1 + e)
          <= (1 + eps) * (1 + eps) * (1 + eps))%R as Hhigh'
    by (apply Hhigh; lra).
  split.
  - intros Hlo Hhi. f_equal.
    pose proof (Rmult_le_compat_l P _ _ (Rlt_le _ _ HP) Hlow') as Hl.
    pose proof (Rmult_le_compat_l P _ _ (Rlt_le _ _ HP) Hhigh') as Hh.
    apply ceil_scaled_between; try done; [lra| |];
      change (IZR (Exec.scaled_product a b c)) with P; lra.
  - intros [= <-].
    pose proof (scaled_cube a b c Ha Hb Hc) as Hcube.
    pose proof (exp_mean_log3_pos (IZR a + 0.15) (IZR b + 0.15)
                  (IZR c + 0.15)) as Hg.
    set (g := exp_mean_log3 _ _ _) in *.
    change (IZR (Exec.scaled_product a b c)) with P in Hcube.
    destruct (math_ceil_bounds (g * (1 + e))) as [Hclo Hchi].
    set (m := Py.math_ceil (g * (1 + e))) in *.
    assert (0 < g * (1 + e))%R as Hgd by (apply Rmult_lt_0_compat; lra).
    assert (1 <= m) as Hm.
    { assert (0 < IZR m)%R as Hpos%lt_IZR by lra. lia. }
    assert (g * (1 + e) * (g * (1 + e)) * (g * (1 + e))
            = g * g * g * ((1 + e) * (1 + e) * (1 + e)))%R as Hprod by ring.
    rewrite !mult_IZR, !minus_IZR.
    assert (0 <= IZR m - 1)%R as Hm1.
    { rewrite <- minus_IZR. apply IZR_le. lia. }
    pose proof (Rcube_lt_mono (IZR m - 1) (g * (1 + e))) as Hc1.
    pose proof (Rcube_le_mono (g * (1 + e)) (IZR m)) as Hc2.
    assert ((IZR m - 1) * (IZR m - 1) * (IZR m - 1)
            < g * (1 + e) * (g * (1 + e)) * (g * (1 + e)))%R as Hc1'
      by (apply Hc1; lra).
    assert (g * (1 + e) * (g * (1 + e)) * (g * (1 + e))
            <= IZR m * IZR m * IZR m)%R as Hc2' by (apply Hc2; lra).
    rewrite Hprod in Hc1', Hc2'.
    change (IZR 8000) with 8000%R. change (IZR 1) with 1%R.
    split; nra.
Qed.

Lemma ceil_geometric_mean_integer_witness :
  Float64.ceil_exp_mean_log (λ _, / 2 ^ 52)%R
    (map (λ v, IZR v + 0.15)%R [5; 0; 1]) = Ok 1.
Proof.
  apply (ceil_geometric_mean_integer (λ _, / 2 ^ 52)%R (/ 2 ^ 40)%R 5 0 1 1).
  - intros _. rewrite Rabs_pos_eq; lra.
  - lra.
  - lia.
  - lia.
  - lia.
  - eval_IZR. lra.
  - eval_IZR. lra.
Defined.

(** ** Scores in closed form *)

(** X13 — For a frequency model that holds statistics without negative
    counts, with a positive smoothing prior, a positive likelihood
    denominator and an exponent [alpha] in its documented range, from 0 to
    1, the score of a molecule with at least one fragment (and a number of
    fragment occurrences that fits 64 bits) is the sum over its fragments
    of [ln(likelihood) * occurrences], divided by the total number of
    occurrences to the power [alpha]. *)
Theorem AtomLL_score_closed_form
    (self : BaseLL (gmap Z Z)) (kd : gmap Z Z) (m : Mol) :
  _key_data self = Some kd →
  (0 < smoothing self)%R → (0 < denominator self)%R →
  (∀ k, 0 <= Counter_get kd k) →
  _get_fp self m ≠ ∅ →
  (0 <= alpha self <= 1)%R →
  Z.of_N (sum_values (_get_fp self m)) < 2 ^ 64 →
  AtomLL.calculate_ll m self
  = (Ok (loglik_sum self (Counter_get kd) (map_to_list (_get_fp self m))
         / Rpower (IZR (Z.of_N (sum_values (_get_fp self m)))) (alpha self))%R,
     self).
Proof.
  intros Hkd Hs Hd Hstat Hfp Ha Hsize. unfold AtomLL.calculate_ll. f_equal.
  rewrite (AtomLL_loop_sum self kd _ 0%R 0%N Hkd Hs Hd Hstat).
  cbn [mbind result_bind]. rewrite <- sum_values_to_list.
  pose proof (sum_values_pos _ Hfp) as Hpos.
  destruct (sum_values (_get_fp self m)) as [|p] eqn:Hsum; [lia|].
  change (0 + N.pos p)%N with (N.pos p).
  rewrite correct_for_atoms_pos by (done || lia).
  f_equal. f_equal. lra.
Qed.

Lemma AtomLL_score_closed_form_witness :
  AtomLL.calculate_ll scenario_query scenario_fitted
  = (Ok (Rdiv
           (loglik_sum scenario_fitted (Counter_get {[1 := 3; 2 := 1; 3 := 3]})
                       (map_to_list (_get_fp scenario_fitted scenario_query)))
           (Rpower (IZR (Z.of_N (sum_values
                                   (_get_fp scenario_fitted scenario_query))))
                   (alpha scenario_fitted))),
     scenario_fitted).
Proof.
  apply (AtomLL_score_closed_form scenario_fitted
           {[1 := 3; 2 := 1; 3 := 3]} scenario_query).
  - reflexivity.
  - simpl. lra.
  - unfold denominator. simpl. lra.
  - intros k. apply Counter_get_nonneg.
    apply (bool_decide_unpack _). vm_compute. exact I.
  - apply (bool_decide_unpack _). vm_compute. exact I.
  - simpl. lra.
  - vm_compute. reflexivity.
Defined.

(** ** The sign of a score *)

Section ScoreSign.

Lemma Rdiv_nonpos (x d : R) : (x <= 0)%R → (0 < d)%R → (x / d <= 0)%R.
Proof.
  intros Hx Hd. unfold Rdiv.
  pose proof (Rinv_0_lt_compat d Hd). nra.
Qed.

Lemma ln_likelihood_nonpos {KD} (self : BaseLL KD) (stat : Z) :
  (0 < smoothing self)%R → (1 <= estimated_keyspace self)%R →
  0 <= stat <= _n_observations self →
  (ln (likelihood_value self stat) <= 0)%R.
Proof.
  intros Hs Hk Hstat.
  destruct (likelihood_probability self stat Hs Hk Hstat) as [_ [Hpos Hle]].
  rewrite <- ln_1. destruct Hle as [Hlt| ->]; [|lra].
  left. by apply ln_increasing.
Qed.

Lemma MolLL_loop_nonpos (self : BaseLL (gmap molkey (gmap Z Z)))
    (kd : gmap molkey (gmap Z Z)) (pairs : list (molkey * N)) (ll : R) (n : N) :
  _key_data self = Some kd →
  (0 < smoothing self)%R → (1 <= estimated_keyspace self)%R →
  (∀ key counts, 0 <= MolLL_stat kd key counts <= _n_observations self) →
  ∃ ll' n',
    foldl (MolLL_read_pair self) (Ok (ll, n)) pairs = Ok (ll', n')
    ∧ (ll' <= ll)%R
    ∧ (n' = n + foldr N.add 0 (map snd pairs))%N.
Proof.
  intros Hkd Hs Hk Hstat.
  assert (0 <= _n_observations self) as Hn
    by (specialize (Hstat SampleObservationSum 0%N); lia).
  assert (0 < denominator self)%R as Hd
    by (apply denominator_pos; lia || lra).
  revert ll n.
  induction pairs as [|[key counts] pairs IH]; intros ll n; cbn [foldl].
  - exists ll, n. split; [done|]. split; [lra|simpl; lia].
  - unfold MolLL_read_pair at 2. cbn [mbind result_bind fst snd].
    rewrite Hkd, accumulate_ok; [|done|done|apply Hstat].
    destruct (IH (ll + ln (likelihood_value self (MolLL_stat kd key counts))
                       * IZR (Z.of_N counts))%R
                 (n + counts)%N) as (ll' & n' & -> & Hle & Hsum).
    exists ll', n'. split; [done|]. split; [|simpl; lia].
    pose proof (ln_likelihood_nonpos self _ Hs Hk (Hstat key counts)).
    assert (0 <= IZR (Z.of_N counts))%R by (apply IZR_le; lia). nra.
Qed.

End ScoreSign.

(** X14 — For a model of either class fitted by [fit] with a positive
    smoothing prior, an estimated keyspace of at least 1 and an exponent
    [alpha] in its documented range, from 0 to 1, the score of every
    molecule with at least one fragment (and a number of fragment
    occurrences below [2 ** 63]) is a number that is zero or negative. *)
Theorem fitted_scores_nonpositive
    (atom0 : BaseLL (gmap Z Z)) (mol0 : BaseLL (gmap molkey (gmap Z Z)))
    (mols : list Mol) (m : Mol) :
  (0 < smoothing atom0)%R → (1 <= estimated_keyspace atom0)%R →
  (0 < smoothing mol0)%R → (1 <= estimated_keyspace mol0)%R →
  (0 <= alpha atom0 <= 1)%R → (0 <= alpha mol0 <= 1)%R →
  m (_radius atom0) ≠ ∅ → m (_radius mol0) ≠ ∅ →
  Z.of_N (sum_values (m (_radius atom0))) < 2 ^ 63 →
  Z.of_N (sum_values (m (_radius mol0))) < 2 ^ 63 →
  ∃ atom_ll mol_ll,
    fst (AtomLL.calculate_ll m (snd (AtomLL.fit mols atom0))) = Ok atom_ll
    ∧ (atom_ll <= 0)%R
    ∧ fst (MolLL.calculate_ll m (snd (MolLL.fit mols mol0))) = Ok mol_ll
    ∧ (mol_ll <= 0)%R.
Proof.
  intros Has Hak Hms Hmk Haa Hma Hafp Hmfp Hasize Hmsize.
  destruct (AtomLL_fitted atom0 mols) as (As & Ak & Aa & Ar & Akd & An & Astat).
  destruct (MolLL_fitted mol0 mols) as (Ms & Mk & Ma & Mr & Mkd & Mn & Mstat).
  set (atom := snd (AtomLL.fit mols atom0)) in *.
  set (mol := snd (MolLL.fit mols mol0)) in *.
  assert (0 < smoothing atom)%R as Has' by (by rewrite As).
  assert (1 <= estimated_keyspace atom)%R as Hak' by (by rewrite Ak).
  assert (0 < smoothing mol)%R as Hms' by (by rewrite Ms).
  assert (1 <= estimated_keyspace mol)%R as Hmk' by (by rewrite Mk).
  assert (0 < denominator atom)%R as Had
    by (apply denominator_pos; lia || lra).
  assert (∃ atom_ll, fst (AtomLL.calculate_ll m atom) = Ok atom_ll
                     ∧ (atom_ll <= 0)%R) as (atom_ll & Hall & Hale).
  { unfold AtomLL.calculate_ll. cbn [fst].
    rewrite (AtomLL_loop_sum atom _ _ 0%R 0%N Akd Has' Had);
      [|intros k; apply Astat].
    cbn [mbind result_bind]. rewrite <- sum_values_to_list.
    assert (_get_fp atom m ≠ ∅) as Hfp by (unfold _get_fp; by rewrite Ar).
    pose proof (sum_values_pos _ Hfp) as Hpos.
    assert (Z.of_N (sum_values (_get_fp atom m)) < 2 ^ 63) as Hsize
      by (unfold _get_fp; by rewrite Ar).
    destruct (sum_values (_get_fp atom m)) as [|p]; [lia|].
    change (0 + N.pos p)%N with (N.pos p).
    rewrite correct_for_atoms_pos by (by rewrite Aa || lia).
    eexists. split; [done|]. apply Rdiv_nonpos; [|apply exp_pos].
    pose proof (loglik_sum_nonpos atom
                  (Counter_get (atom_key_data (_radius atom0) mols))
                  (map_to_list (_get_fp atom m))) as Hsum.
    assert (loglik_sum atom (Counter_get (atom_key_data (_radius atom0) mols))
                       (map_to_list (_get_fp atom m)) <= 0)%R; [|lra].
    apply Hsum. intros k. by apply likelihood_probability. }
  assert (∃ mol_ll, fst (MolLL.calculate_ll m mol) = Ok mol_ll
                    ∧ (mol_ll <= 0)%R) as (mol_ll & Hmll & Hmle).
  { destruct (MolLL_calculate_ll_reads mol m) as [-> _]. unfold MolLL_score.
    destruct (MolLL_loop_nonpos mol _ (MolLL.scored_pairs (_get_fp mol m))
                0%R 0%N Mkd Hms' Hmk' Mstat) as (ll & n & -> & Hle & Hn).
    cbn [mbind result_bind].
    assert (_get_fp mol m ≠ ∅) as Hfp by (unfold _get_fp; by rewrite Mr).
    rewrite scored_pairs_total in Hn.
    pose proof (sum_values_pos _ Hfp) as Hpos.
    assert (Z.of_N (sum_values (_get_fp mol m)) < 2 ^ 63) as Hsize
      by (unfold _get_fp; by rewrite Mr).
    destruct n as [|p]; [lia|].
    rewrite correct_for_atoms_pos by (by rewrite Ma || lia).
    eexists. split; [done|]. apply Rdiv_nonpos; [lra|apply exp_pos]. }
  by exists atom_ll, mol_ll.
Qed.

Lemma fitted_scores_nonpositive_witness :
  ∃ atom_ll mol_ll,
    fst (AtomLL.calculate_ll unseen (snd (AtomLL.fit scenario_mols scenario_model)))
    = Ok atom_ll
    ∧ (atom_ll <= 0)%R
    ∧ fst (MolLL.calculate_ll unseen (snd (MolLL.fit scenario_mols default_MolLL)))
      = Ok mol_ll
    ∧ (mol_ll <= 0)%R.
Proof.
  apply (fitted_scores_nonpositive scenario_model default_MolLL
           scenario_mols unseen).
  - simpl. lra.
  - simpl. lra.
  - simpl. lra.
  - simpl. lra.
  - simpl. lra.
  - simpl. lra.
  - apply (bool_decide_unpack _). vm_compute. exact I.
  - apply (bool_decide_unpack _). vm_compute. exact I.
  - vm_compute. reflexivity.
  - vm_compute. reflexivity.
Defined.

(** ** Scoring before any statistics exist *)

Section Unfitted.

Lemma foldl_result_raise {A B} (f : result A → B → result A)
    (e : exn) (l : list B) :
  (∀ b, f (Raise e) b = Raise e) → foldl f (Raise e) l = Raise e.
Proof.
  intros Hf. induction l as [|b l IH]; cbn [foldl]; [done|]. by rewrite Hf.
Qed.

Lemma AtomLL_loop_unfitted (self : BaseLL (gmap Z Z))
    (items : list (Z * positive)) (acc : R * N) :
  _key_data self = None → items ≠ [] →
  foldl (λ acc '(key, num_atoms),
           a ← acc;
           c ← AtomLL.stat_count self key;
           accumulate self c (Npos num_atoms) a)
        (Ok acc) items = Raise TypeError.
Proof.
  intros Hkd Hne. destruct items as [|[key num_atoms] items]; [done|].
  cbn [foldl]. unfold AtomLL.stat_count at 2. rewrite Hkd.
  cbn [mbind result_bind].
  apply foldl_result_raise. by intros [key' num_atoms'].
Qed.

Lemma scored_pairs_cons (fp : fingerprint) :
  ∃ pair pairs, MolLL.scored_pairs fp = pair :: pairs.
Proof.
  unfold MolLL.scored_pairs.
  destruct (map (prod_map Fragment Npos) (map_to_list fp)) as [|p l]; eauto.
Qed.

End Unfitted.

(** X15 — A model that was constructed but neither fitted nor loaded holds
    no statistics, and nothing can be read from it: scoring a molecule that
    has a fragment raises [TypeError] in both classes (the
    count-distribution model raises it for every molecule), [get_savedict]
    raises [TypeError] for the frequency model and [AttributeError] for the
    count-distribution model, and so does [observed_keyspace]. The model is
    left as constructed. *)
Theorem unfitted_model_raises
    (cls : string) (smoothing estimated_keyspace alpha : R) (radius : Z)
    (m : Mol) :
  let atom : BaseLL (gmap Z Z) :=
    __init__ cls smoothing estimated_keyspace alpha radius in
  let mol : BaseLL (gmap molkey (gmap Z Z)) :=
    __init__ cls smoothing estimated_keyspace alpha radius in
  (m radius ≠ ∅ → AtomLL.calculate_ll m atom = (Raise TypeError, atom))
  ∧ MolLL.calculate_ll m mol = (Raise TypeError, mol)
  ∧ get_savedict atom = Raise TypeError
  ∧ get_savedict mol = Raise AttributeError
  ∧ AtomLL.observed_keyspace atom = Raise TypeError
  ∧ MolLL.observed_keyspace mol = Raise AttributeError.
Proof.
  intros atom mol. split; [|split; [|done]].
  - intros Hfp. unfold AtomLL.calculate_ll.
    rewrite AtomLL_loop_unfitted; [done|done|].
    intros Hnil. apply Hfp. apply map_to_list_empty_iff. exact Hnil.
  - unfold MolLL.calculate_ll.
    destruct (scored_pairs_cons (_get_fp mol m)) as ([key counts] & pairs & ->).
    cbn [foldl].
    unfold mbind at 1, method_bind at 1.
    by rewrite (score_loop_raises mol pairs _ TypeError mol).
Qed.

Lemma unfitted_model_raises_witness :
  AtomLL.calculate_ll scenario_query scenario_model
  = (Raise TypeError, scenario_model)
  ∧ MolLL.calculate_ll no_fragments default_MolLL
    = (Raise TypeError, default_MolLL).
Proof.
  destruct (unfitted_model_raises "AtomLL" 0.1 10 0 1 scenario_query)
    as (Hatom & _).
  destruct (unfitted_model_raises "MolLL" 0.1 2000000 1 1 no_fragments)
    as (_ & Hmol & _).
  split; [|exact Hmol].
  apply Hatom. apply (bool_decide_unpack _). vm_compute. exact I.
Defined.

(** ** What a [MolLL] score leaves in the model, in general *)

Section MolLLFrame.

Implicit Types self : BaseLL (gmap molkey (gmap Z Z)).
Implicit Types kd : gmap molkey (gmap Z Z).

Lemma same_configuration_refl {KD} (s : BaseLL KD) : same_configuration s s.
Proof. by repeat split. Qed.

Lemma grown_by_reads_refl kd keys : grown_by_reads kd kd keys.
Proof. intros key. by left. Qed.

Lemma grown_by_reads_mono kd kd' keys keys' :
  keys ⊆ keys' → grown_by_reads kd kd' keys → grown_by_reads kd kd' keys'.
Proof.
  intros Hsub Hg key. destruct (Hg key) as [Heq|(Hnone & Hsome & Hin)];
    [by left|right]. split; [done|]. split; [done|]. by apply Hsub.
Qed.

Lemma subseteq_app_keys (keys rest : list molkey) : keys ⊆ keys ++ rest.
Proof. intros x Hx. apply elem_of_app. by left. Qed.

Lemma elem_of_app_key (keys : list molkey) (key : molkey) :
  key ∈ keys ++ [key].
Proof. apply elem_of_app. right. by apply list_elem_of_singleton. Qed.

Lemma defaultdict_get_grown kd kd1 keys key :
  grown_by_reads kd kd1 keys →
  grown_by_reads kd (snd (defaultdict_get kd1 key)) (keys ++ [key]).
Proof.
  intros Hg. unfold defaultdict_get.
  destruct (kd1 !! key) as [c|] eqn:Hkey; cbn [snd].
  - eapply grown_by_reads_mono; [|exact Hg]. apply subseteq_app_keys.
  - intros k. destruct (decide (k = key)) as [->|Hne].
    + rewrite lookup_insert_eq.
      destruct (Hg key) as [Heq|(_ & Hsome & _)]; [|congruence].
      right. split; [congruence|]. split; [done|apply elem_of_app_key].
    + rewrite lookup_insert_ne by done.
      destruct (Hg k) as [Heq|(Hnone & Hsome & Hin)]; [by left|right].
      split; [done|]. split; [done|by apply subseteq_app_keys].
Qed.

Lemma score_pair_frame self kd kd1 keys key counts acc s1 :
  same_configuration s1 self → _key_data s1 = Some kd1 →
  grown_by_reads kd kd1 keys →
  let s2 := snd (MolLL.score_pair key counts acc s1) in
  same_configuration s2 self
  ∧ ∃ kd2, _key_data s2 = Some kd2 ∧ grown_by_reads kd kd2 (keys ++ [key]).
Proof.
  intros Hcfg Hkd1 Hg. unfold MolLL.score_pair. rewrite Hkd1.
  pose proof (defaultdict_get_grown kd kd1 keys key Hg) as Hg'.
  destruct (defaultdict_get kd1 key) as [counter kd2]. cbn [snd] in *.
  split; [exact Hcfg|]. by exists kd2.
Qed.

Lemma score_loop_frame self kd (pairs : list (molkey * N))
    (m0 : method (gmap molkey (gmap Z Z)) (R * N)) kd1 keys :
  same_configuration (snd (m0 self)) self →
  _key_data (snd (m0 self)) = Some kd1 →
  grown_by_reads kd kd1 keys →
  let s2 := snd (foldl (λ m '(key, counts), a ← m; MolLL.score_pair key counts a)
                       m0 pairs self) in
  same_configuration s2 self
  ∧ ∃ kd2, _key_data s2 = Some kd2
           ∧ grown_by_reads kd kd2 (keys ++ pairs.*1).
Proof.
  revert m0 kd1 keys.
  induction pairs as [|[key counts] pairs IH]; intros m0 kd1 keys Hcfg Hkd1 Hg;
    cbn [foldl].
  - split; [done|]. exists kd1. split; [done|].
    eapply grown_by_reads_mono; [|exact Hg]. apply subseteq_app_keys.
  - cbn [fmap list_fmap fst].
    replace (keys ++ key :: pairs.*1) with ((keys ++ [key]) ++ pairs.*1)
      by (by rewrite <- app_assoc).
    unfold mbind at 2, method_bind at 1.
    destruct (m0 self) as [[a|e] s1] eqn:Hm0; cbn [snd] in Hcfg, Hkd1.
    + destruct (score_pair_frame self kd kd1 keys key counts a s1 Hcfg Hkd1 Hg)
        as (Hcfg2 & kd2 & Hkd2 & Hg2).
      apply (IH (λ self0, match m0 self0 with
                          | (Ok a, s) => MolLL.score_pair key counts a s
                          | (Raise e, s) => (Raise e, s)
                          end) kd2 (keys ++ [key])); by rewrite ?Hm0.
    + apply (IH (λ self0, match m0 self0 with
                          | (Ok a, s) => MolLL.score_pair key counts a s
                          | (Raise e, s) => (Raise e, s)
                          end) kd1 (keys ++ [key])); rewrite ?Hm0; try done.
      eapply grown_by_reads_mono; [|exact Hg]. apply subseteq_app_keys.
Qed.

Lemma scored_pairs_keys (fp : fingerprint) (key : molkey) :
  key ∈ (MolLL.scored_pairs fp).*1 →
  key = SampleObservationSum ∨ ∃ z, key = Fragment z ∧ is_Some (fp !! z).
Proof.
  unfold MolLL.scored_pairs. rewrite fmap_app. intros Hin.
  apply elem_of_app in Hin as [Hin|Hin].
  - right. apply list_elem_of_fmap in Hin as ([k c] & -> & Hin).
    apply list_elem_of_fmap in Hin as ([z p] & [= -> ->] & Hin).
    apply elem_of_map_to_list in Hin. exists z. by rewrite Hin.
  - left. cbn in Hin. by apply list_elem_of_singleton in Hin.
Qed.

Lemma MolLL_calculate_ll_snd self (m : Mol) :
  snd (MolLL.calculate_ll m self)
  = snd (foldl (λ m '(key, counts), a ← m; MolLL.score_pair key counts a)
               (method_ret _ (0%R, 0%N))
               (MolLL.scored_pairs (_get_fp self m)) self).
Proof.
  unfold MolLL.calculate_ll.
  set (loop := foldl _ _ _).
  change ((loop ≫= λ acc, pure_call (correct_for_atoms self acc)) self)
    with (match loop self with
          | (Ok a, self') => pure_call (correct_for_atoms self a) self'
          | (Raise e, self') => (Raise e, self')
          end).
  by destruct (loop self) as [[a|e] s1].
Qed.

End MolLLFrame.

(** X16 — Whatever the outcome of [MolLL.calculate_ll] (a score or an
    exception), the model that held statistics keeps its class, its
    configuration and its observation count, and no stored counter is
    changed or removed: the statistics afterwards are those before, plus an
    empty counter under each key that was missing, and such a key is the
    reserved key or a fragment of the scored molecule. *)
Theorem MolLL_scoring_only_adds_empty_counters
    (self : BaseLL (gmap molkey (gmap Z Z))) (kd : gmap molkey (gmap Z Z))
    (m : Mol) :
  _key_data self = Some kd →
  same_configuration (snd (MolLL.calculate_ll m self)) self
  ∧ ∃ kd', _key_data (snd (MolLL.calculate_ll m self)) = Some kd'
           ∧ ∀ key,
               kd' !! key = kd !! key
               ∨ (kd !! key = None ∧ kd' !! key = Some ∅
                  ∧ (key = SampleObservationSum
                     ∨ ∃ z, key = Fragment z
                            ∧ is_Some (_get_fp self m !! z))).
Proof.
  intros Hkd. rewrite MolLL_calculate_ll_snd.
  destruct (score_loop_frame self kd (MolLL.scored_pairs (_get_fp self m))
              (method_ret _ (0%R, 0%N)) kd [])
    as (Hcfg & kd' & Hkd' & Hg).
  - apply same_configuration_refl.
  - exact Hkd.
  - apply grown_by_reads_refl.
  - split; [exact Hcfg|]. exists kd'. split; [exact Hkd'|].
    intros key. destruct (Hg key) as [Heq|(Hnone & Hsome & Hin)]; [by left|].
    right. split; [done|]. split; [done|].
    apply scored_pairs_keys. exact Hin.
Qed.

Lemma MolLL_scoring_only_adds_empty_counters_witness :
  same_configuration (snd (MolLL.calculate_ll unseen thrice_fitted))
                     thrice_fitted
  ∧ ∃ kd', _key_data (snd (MolLL.calculate_ll unseen thrice_fitted)) = Some kd'
           ∧ ∀ key,
               kd' !! key
               = ({[Fragment 7 := {[1 := 0; 2 := 1; 3 := 1]};
                    SampleObservationSum := {[1 := 0; 2 := 1; 3 := 1]}]}
                  : gmap molkey (gmap Z Z)) !! key
               ∨ (({[Fragment 7 := {[1 := 0; 2 := 1; 3 := 1]};
                     SampleObservationSum := {[1 := 0; 2 := 1; 3 := 1]}]}
                   : gmap molkey (gmap Z Z)) !! key = None
                  ∧ kd' !! key = Some ∅
                  ∧ (key = SampleObservationSum
                     ∨ ∃ z, key = Fragment z
                            ∧ is_Some (_get_fp thrice_fitted unseen !! z))).
Proof.
  apply (MolLL_scoring_only_adds_empty_counters thrice_fitted _ unseen).
  reflexivity.
Defined.

(** ** Scoring the same molecule again *)

Section ScoreAgain.

Implicit Types self : BaseLL (gmap molkey (gmap Z Z)).
Implicit Types kd : gmap molkey (gmap Z Z).

Lemma defaultdict_get_present kd key :
  is_Some (kd !! key) → snd (defaultdict_get kd key) = kd.
Proof. intros [c Hc]. unfold defaultdict_get. by rewrite Hc. Qed.

Lemma defaultdict_get_keeps kd key k :
  is_Some (kd !! k) → is_Some (snd (defaultdict_get kd key) !! k).
Proof.
  intros Hk. unfold defaultdict_get.
  destruct (kd !! key) as [c|] eqn:Hkey; cbn [snd]; [done|].
  destruct (decide (k = key)) as [->|Hne].
  - rewrite Hkey in Hk. by destruct Hk.
  - by rewrite lookup_insert_ne.
Qed.

Lemma defaultdict_get_stores kd key :
  is_Some (snd (defaultdict_get kd key) !! key).
Proof.
  unfold defaultdict_get.
  destruct (kd !! key) as [c|] eqn:Hkey; cbn [snd].
  - by rewrite Hkey.
  - by rewrite lookup_insert_eq.
Qed.

Lemma after_reads_keeps kd (pairs : list (molkey * N)) k :
  is_Some (kd !! k) → is_Some (after_reads kd pairs !! k).
Proof.
  revert kd. induction pairs as [|p pairs IH]; intros kd Hk; [done|].
  unfold after_reads. cbn [foldl]. apply IH. by apply defaultdict_get_keeps.
Qed.

Lemma after_reads_stores kd (pairs : list (molkey * N)) p :
  p ∈ pairs → is_Some (after_reads kd pairs !! p.1).
Proof.
  revert kd. induction pairs as [|q pairs IH]; intros kd Hin.
  - by apply elem_of_nil in Hin.
  - unfold after_reads. cbn [foldl].
    apply elem_of_cons in Hin as [->|Hin].
    + apply after_reads_keeps, defaultdict_get_stores.
    + by apply IH.
Qed.

Lemma after_reads_fixed kd (pairs : list (molkey * N)) :
  (∀ p, p ∈ pairs → is_Some (kd !! p.1)) → after_reads kd pairs = kd.
Proof.
  induction pairs as [|q pairs IH]; intros Hall; [done|].
  unfold after_reads. cbn [foldl].
  rewrite defaultdict_get_present by (apply Hall; by left).
  apply IH. intros p Hp. apply Hall. by right.
Qed.

Lemma after_reads_idempotent kd (pairs : list (molkey * N)) :
  after_reads (after_reads kd pairs) pairs = after_reads kd pairs.
Proof. apply after_reads_fixed. intros p Hp. by apply after_reads_stores. Qed.

Lemma set_key_data_self self kd : _key_data self = Some kd → set_key_data self kd = self.
Proof. intros Hkd. destruct self. cbn in *. by rewrite Hkd. Qed.

Lemma MolLL_calculate_ll_full_state self kd (m : Mol) ll :
  _key_data self = Some kd →
  fst (MolLL.calculate_ll m self) = Ok ll →
  snd (MolLL.calculate_ll m self)
  = set_key_data self (after_reads kd (MolLL.scored_pairs (_get_fp self m))).
Proof.
  intros Hkd Hok. rewrite MolLL_calculate_ll_snd.
  assert (∃ acc,
    fst (foldl (λ m '(key, counts), a ← m; MolLL.score_pair key counts a)
               (method_ret _ (0%R, 0%N))
               (MolLL.scored_pairs (_get_fp self m)) self) = Ok acc)
    as [acc Hacc].
  { revert Hok. unfold MolLL.calculate_ll.
    set (loop := foldl _ _ _).
    change ((loop ≫= λ acc, pure_call (correct_for_atoms self acc)) self)
      with (match loop self with
            | (Ok a, self') => pure_call (correct_for_atoms self a) self'
            | (Raise e, self') => (Raise e, self')
            end).
    destruct (loop self) as [[a|e] s1]; cbn [fst]; [by eexists|done]. }
  apply (score_loop_state self _ (method_ret _ (0%R, 0%N)) (Ok (0%R, 0%N))
           kd acc); [|exact Hacc].
  unfold method_ret. by rewrite set_key_data_self.
Qed.

End ScoreAgain.

(** X17 — Scoring is repeatable on the count-distribution model, although
    the first score may store empty counters: if
    [MolLL.calculate_ll] returns a score for a molecule, scoring the same
    molecule again on the model it left returns the same score and leaves
    that model unchanged. *)
Theorem MolLL_score_again
    (self : BaseLL (gmap molkey (gmap Z Z))) (kd : gmap molkey (gmap Z Z))
    (m : Mol) (ll : R) :
  _key_data self = Some kd →
  fst (MolLL.calculate_ll m self) = Ok ll →
  MolLL.calculate_ll m (snd (MolLL.calculate_ll m self))
  = (Ok ll, snd (MolLL.calculate_ll m self)).
Proof.
  intros Hkd Hok.
  destruct (MolLL_calculate_ll_reads self m) as [Hfst Hsame].
  pose proof (MolLL_calculate_ll_full_state self kd m ll Hkd Hok) as Hstate.
  set (self' := snd (MolLL.calculate_ll m self)) in *.
  set (pairs := MolLL.scored_pairs (_get_fp self m)) in *.
  assert (_key_data self' = Some (after_reads kd pairs)) as Hkd'
    by (by rewrite Hstate).
  assert (_get_fp self' m = _get_fp self m) as Hfp by (by rewrite Hstate).
  assert (fst (MolLL.calculate_ll m self') = Ok ll) as Hok'.
  { destruct (MolLL_calculate_ll_reads self' m) as [-> _].
    rewrite (MolLL_score_same_reads self' self m Hsame).
    by rewrite <- Hfst. }
  rewrite (surjective_pairing (MolLL.calculate_ll m self')). f_equal; [done|].
  rewrite (MolLL_calculate_ll_full_state self' _ m ll Hkd' Hok').
  rewrite Hfp. fold pairs. rewrite after_reads_idempotent.
  by apply set_key_data_self.
Qed.

Lemma MolLL_score_again_witness :
  MolLL.calculate_ll no_fragments
    (snd (MolLL.calculate_ll no_fragments
            (mkLL "MolLL" 0.1 2000000 0 1
                  (Some {[Fragment 7 := {[1 := 0; 2 := 1; 3 := 1]}]}) 6)))
  = (Ok 0%R,
     snd (MolLL.calculate_ll no_fragments
            (mkLL "MolLL" 0.1 2000000 0 1
                  (Some {[Fragment 7 := {[1 := 0; 2 := 1; 3 := 1]}]}) 6))).
Proof.
  apply (MolLL_score_again _ {[Fragment 7 := {[1 := 0; 2 := 1; 3 := 1]}]}).
  - reflexivity.
  - destruct (MolLL_calculate_ll_reads
                (mkLL "MolLL" 0.1 2000000 0 1
                      (Some {[Fragment 7 := {[1 := 0; 2 := 1; 3 := 1]}]}) 6)
                no_fragments) as [-> _].
    unfold MolLL_score.
    change (_get_fp _ no_fragments) with (∅ : fingerprint).
    rewrite scored_pairs_empty. cbn [foldl].
    unfold MolLL_read_pair. cbn [mbind result_bind _key_data fst snd].
    rewrite accumulate_ok.
    + cbn [mbind result_bind].
      rewrite correct_for_atoms_zero_alpha by reflexivity.
      f_equal. replace (IZR (Z.of_N 0)) with 0%R by reflexivity.
      unfold Rdiv. rewrite Rinv_1. ring.
    + simpl. lra.
    + unfold denominator. simpl. lra.
    + vm_compute. discriminate.
Defined.

(** ** A batch with a molecule that cannot be scored *)

Section BatchErrors.

Lemma mapM_result_raise {A B} (f : A → result B) (pre post : list A) (x : A)
    (e : exn) :
  Forall (λ a, is_Ok (f a)) pre → f x = Raise e →
  mapM f (pre ++ x :: post) = Raise e.
Proof.
  intros Hpre Hx. induction Hpre as [|a pre [b Hb] _ IH].
  - cbn [app]. rewrite mapM_result_cons, Hx. done.
  - change ((a :: pre) ++ x :: post) with (a :: (pre ++ x :: post)).
    rewrite mapM_result_cons, Hb. cbn [mbind result_bind]. by rewrite IH.
Qed.

End BatchErrors.

(** X18 — [calculate_lls] stops at the first molecule that cannot be
    scored: if every molecule before it scores and it raises an exception,
    the batch raises that exception and returns no list, whatever follows
    in the batch. The frequency model is left as it was. *)
Theorem calculate_lls_first_failure
    (atom_model : BaseLL (gmap Z Z))
    (mol_model : BaseLL (gmap molkey (gmap Z Z)))
    (pre post : list Mol) (m : Mol) (e : exn) :
  (Forall (λ mol, is_Ok (fst (calculate_ll mol atom_model))) pre →
   fst (calculate_ll m atom_model) = Raise e →
   calculate_lls (pre ++ m :: post) atom_model = (Raise e, atom_model))
  ∧ (Forall (λ mol, is_Ok (fst (calculate_ll mol mol_model))) pre →
     fst (calculate_ll m mol_model) = Raise e →
     fst (calculate_lls (pre ++ m :: post) mol_model) = Raise e).
Proof.
  split; intros Hpre Hm.
  - rewrite AtomLL_calculate_lls. f_equal.
    by apply (mapM_result_raise (λ mol, fst (calculate_ll mol atom_model))).
  - destruct (MolLL_calculate_lls mol_model mol_model (pre ++ m :: post)
                (same_reads_refl mol_model)) as [-> _].
    by apply (mapM_result_raise (λ mol, fst (calculate_ll mol mol_model))).
Qed.

Lemma calculate_lls_first_failure_witness :
  calculate_lls [scenario_query; no_fragments; scenario_query]
    (mkLL "AtomLL" 0.1 10 1 1 (Some {[1 := 3; 2 := 1; 3 := 3]}) 7)
  = (Raise ZeroDivisionError,
     mkLL "AtomLL" 0.1 10 1 1 (Some {[1 := 3; 2 := 1; 3 := 3]}) 7).
Proof.
  apply (calculate_lls_first_failure
           (mkLL "AtomLL" 0.1 10 1 1 (Some {[1 := 3; 2 := 1; 3 := 3]}) 7)
           default_MolLL [scenario_query] [scenario_query] no_fragments
           ZeroDivisionError).
  - constructor; [|constructor].
    apply (AtomLL_score_ok _ {[1 := 3; 2 := 1; 3 := 3]}).
    + reflexivity.
    + simpl. lra.
    + unfold denominator. simpl. lra.
    + intros k. apply Counter_get_nonneg.
      apply (bool_decide_unpack _). vm_compute. exact I.
    + apply (bool_decide_unpack _). vm_compute. exact I.
    + simpl. lra.
    + vm_compute. reflexivity.
  - cbn [calculate_ll AtomLL_model]. rewrite AtomLL_no_fragments by reflexivity.
    cbn [fst]. apply correct_for_atoms_zero. simpl. lra.
Defined.

(** ** A load that fails half-way *)

(** X19 — [set_savedict] assigns the record's configuration and observation
    count before it decodes the statistics. So when the tag matches but the
    statistics cannot be decoded (for the frequency model: a flat dict with
    a key that is no integer), the load raises [ValueError], or
    [AttributeError] when the count-distribution model is given a flat
    dict, and never the type-mismatch error; and it leaves a half-updated
    model: configuration and observation count are already the record's,
    the statistics are still the old ones. *)
Theorem set_savedict_partial_update
    (sd : savedict) (atom : BaseLL (gmap Z Z))
    (mol : BaseLL (gmap molkey (gmap Z Z))) (e : exn) :
  (sd_Model sd = class_name atom →
   (∃ items, sd__key_data sd = FlatDict items) →
   fst (set_savedict sd atom) = Raise e →
   e = ValueError
   ∧ snd (set_savedict sd atom)
     = mkLL (class_name atom) (sd_smoothing sd) (sd_estimated_keyspace sd)
            (sd_alpha sd) (sd__radius sd) (_key_data atom)
            (sd__n_observations sd))
  ∧ (sd_Model sd = class_name mol →
     fst (set_savedict sd mol) = Raise e →
     (e = ValueError ∨ e = AttributeError)
     ∧ snd (set_savedict sd mol)
       = mkLL (class_name mol) (sd_smoothing sd) (sd_estimated_keyspace sd)
              (sd_alpha sd) (sd__radius sd) (_key_data mol)
              (sd__n_observations sd)).
Proof.
  split.
  - intros Htag [items Hitems]. unfold set_savedict.
    rewrite decide_True by done.
    cbn [_set_keydata_from_dict AtomLL_model].
    unfold AtomLL._set_keydata_from_dict. rewrite Hitems.
    destruct (int_keyed items) as [kd|e'] eqn:Hkeyed; cbn [fst snd]; [done|].
    intros [= ->]. split; [|done]. by apply (int_keyed_raises items).
  - intros Htag. unfold set_savedict. rewrite decide_True by done.
    cbn [_set_keydata_from_dict MolLL_model].
    unfold MolLL._set_keydata_from_dict.
    destruct (sd__key_data sd) as [[|[fpkey v] items]|items].
    + done.
    + destruct (MolLL.restore_key fpkey) as [k|e'] eqn:Hkey; cbn [fst snd];
        intros [= <-]; (split; [|done]); [by right|left].
      by apply (restore_key_raises fpkey).
    + destruct (MolLL.restore items) as [kd|e'] eqn:Hrestore; cbn [fst snd];
        [done|].
      intros [= ->]. split; [|done]. left. by apply (restore_raises items).
Qed.

Lemma set_savedict_partial_update_witness :
  ValueError = ValueError
  ∧ snd (set_savedict
           (mkSave "AtomLL" 0.5 20 1 2 9 (FlatDict [(inr "C"%string, 3)]))
           scenario_fitted)
    = mkLL "AtomLL" 0.5 20 1 2 (Some {[1 := 3; 2 := 1; 3 := 3]}) 9.
Proof.
  apply (set_savedict_partial_update
           (mkSave "AtomLL" 0.5 20 1 2 9 (FlatDict [(inr "C"%string, 3)]))
           scenario_fitted default_MolLL ValueError).
  - reflexivity.
  - by eexists.
  - vm_compute. reflexivity.
Defined.

(** ** The precomputed models *)

Section Precomputed.

Lemma LibInvent_init_eq `{LLModel KD} (cls base : string) (file : savedict) :
  LibInvent.__init__ (KD := KD) cls base file
  = if decide (sd_Model file = base) then
      match _set_keydata_from_dict (sd__key_data file)
              (mkLL cls (sd_smoothing file) (sd_estimated_keyspace file)
                    (sd_alpha file) (sd__radius file) None
                    (sd__n_observations file)) with
      | (Ok _, self') => Ok self'
      | (Raise e, _) => Raise e
      end
    else Raise AssertionError.
Proof.
  unfold LibInvent.__init__, set_savedict, LibInvent.retag, __init__.
  cbn [sd_Model sd_smoothing sd_estimated_keyspace sd_alpha sd__radius
       sd__n_observations sd__key_data class_name _key_data].
  by rewrite (decide_True (P := cls = cls)).
Qed.

Lemma AtomLL_set_keydata_ok (d : keydata_dict) (self s : BaseLL (gmap Z Z)) u :
  AtomLL._set_keydata_from_dict d self = (Ok u, s) →
  ∃ kd, s = set_key_data self kd.
Proof.
  unfold AtomLL._set_keydata_from_dict.
  destruct d as [items|[|item items]].
  - destruct (int_keyed items) as [kd|e]; intros [= <- <-]. by exists kd.
  - intros [= <- <-]. by exists ∅.
  - by destruct (int_keyed _).
Qed.

Lemma MolLL_set_keydata_ok (d : keydata_dict)
    (self s : BaseLL (gmap molkey (gmap Z Z))) u :
  MolLL._set_keydata_from_dict d self = (Ok u, s) →
  ∃ kd, s = set_key_data self kd.
Proof.
  unfold MolLL._set_keydata_from_dict.
  destruct d as [[|[fpkey v] items]|items].
  - intros [= <- <-]. by exists ∅.
  - by destruct (MolLL.restore_key fpkey).
  - destruct (MolLL.restore items) as [kd|e]; intros [= <- <-]. by exists kd.
Qed.

Lemma LibInvent_AtomLL_assertion (cls : string) (file : savedict) :
  LibInvent.__init__ (KD := gmap Z Z) cls "AtomLL" file = Raise AssertionError
  ↔ sd_Model file ≠ "AtomLL"%string.
Proof.
  rewrite LibInvent_init_eq.
  destruct (decide (sd_Model file = "AtomLL"%string)) as [Heq|Hne]; [|done].
  split; [|done]. intros Hraise. exfalso.
  cbn [_set_keydata_from_dict AtomLL_model] in Hraise.
  pose proof (AtomLL_set_keydata_no_assert (sd__key_data file)
                (mkLL cls (sd_smoothing file) (sd_estimated_keyspace file)
                      (sd_alpha file) (sd__radius file) None
                      (sd__n_observations file))) as Hno.
  destruct (AtomLL._set_keydata_from_dict _ _) as [[u|e] s]; [done|].
  cbn [fst] in Hno. congruence.
Qed.

Lemma LibInvent_MolLL_assertion (cls : string) (file : savedict) :
  LibInvent.__init__ (KD := gmap molkey (gmap Z Z)) cls "MolLL" file
  = Raise AssertionError
  ↔ sd_Model file ≠ "MolLL"%string.
Proof.
  rewrite LibInvent_init_eq.
  destruct (decide (sd_Model file = "MolLL"%string)) as [Heq|Hne]; [|done].
  split; [|done]. intros Hraise. exfalso.
  cbn [_set_keydata_from_dict MolLL_model] in Hraise.
  pose proof (MolLL_set_keydata_no_assert (sd__key_data file)
                (mkLL cls (sd_smoothing file) (sd_estimated_keyspace file)
                      (sd_alpha file) (sd__radius file) None
                      (sd__n_observations file))) as Hno.
  destruct (MolLL._set_keydata_from_dict _ _) as [[u|e] s]; [done|].
  cbn [fst] in Hno. congruence.
Qed.

End Precomputed.

(** X20 — The constructor of a precomputed model raises the type-mismatch
    error ([AssertionError]) exactly when the tag of its data file is not
    the name of its base class (["AtomLL"] for the three frequency models,
    ["MolLL"] for the three count-distribution models): having re-tagged
    the record with its own class name, the check inside [set_savedict]
    can no longer fail. *)
Theorem LibInvent_constructor_assertion (file : savedict) :
  (∀ ctor,
     ctor ∈ [LibInvent.LibInventAtomLLr1; LibInvent.LibInventAtomLLr2;
             LibInvent.LibInventAtomLLr3] →
     ctor file = Raise AssertionError ↔ sd_Model file ≠ "AtomLL"%string)
  ∧ (∀ ctor,
       ctor ∈ [LibInvent.LibInventMolLLr1; LibInvent.LibInventMolLLr2;
               LibInvent.LibInventMolLLr3] →
       ctor file = Raise AssertionError ↔ sd_Model file ≠ "MolLL"%string).
Proof.
  split; intros ctor Hin;
    repeat (apply elem_of_cons in Hin as [->|Hin]);
    try (by apply elem_of_nil in Hin).
  - apply LibInvent_AtomLL_assertion.
  - apply LibInvent_AtomLL_assertion.
  - apply LibInvent_AtomLL_assertion.
  - apply LibInvent_MolLL_assertion.
  - apply LibInvent_MolLL_assertion.
  - apply LibInvent_MolLL_assertion.
Qed.

Lemma LibInvent_constructor_assertion_witness :
  LibInvent.LibInventMolLLr2 scenario_record = Raise AssertionError
  ↔ sd_Model scenario_record ≠ "MolLL"%string.
Proof.
  destruct (LibInvent_constructor_assertion scenario_record) as [_ Hmol].
  apply Hmol. apply elem_of_cons. right. apply elem_of_cons. by left.
Defined.

Section PrecomputedLoads.

Lemma AtomLL_score_class_name (cls : string) (self : BaseLL (gmap Z Z)) (m : Mol) :
  fst (AtomLL.calculate_ll m
         (mkLL cls (smoothing self) (estimated_keyspace self) (alpha self)
               (_radius self) (_key_data self) (_n_observations self)))
  = fst (AtomLL.calculate_ll m self).
Proof. by destruct self. Qed.

Lemma MolLL_score_class_name (cls : string)
    (self : BaseLL (gmap molkey (gmap Z Z))) (m : Mol) :
  fst (MolLL.calculate_ll m
         (mkLL cls (smoothing self) (estimated_keyspace self) (alpha self)
               (_radius self) (_key_data self) (_n_observations self)))
  = fst (MolLL.calculate_ll m self).
Proof.
  destruct (MolLL_calculate_ll_reads self m) as [-> _].
  destruct (MolLL_calculate_ll_reads
              (mkLL cls (smoothing self) (estimated_keyspace self) (alpha self)
                    (_radius self) (_key_data self) (_n_observations self)) m)
    as [-> _].
  by destruct self.
Qed.

Lemma LibInvent_AtomLL_loads (cls : string) (atom : BaseLL (gmap Z Z))
    (kd : gmap Z Z) :
  class_name atom = "AtomLL"%string → _key_data atom = Some kd →
  ∃ sd, get_savedict atom = Ok sd
        ∧ LibInvent.__init__ (KD := gmap Z Z) cls "AtomLL" (json_roundtrip sd)
          = Ok (mkLL cls (smoothing atom) (estimated_keyspace atom)
                     (alpha atom) (_radius atom) (Some kd)
                     (_n_observations atom)).
Proof.
  intros Hcls Hkd.
  destruct (AtomLL_load_saved
              (mkLL cls (smoothing atom) (estimated_keyspace atom)
                    (alpha atom) (_radius atom) (Some kd)
                    (_n_observations atom))
              (__init__ cls 0.1 2000000 1 1) kd eq_refl eq_refl)
    as (sd' & Hsd' & _ & Hload).
  revert Hsd'. unfold get_savedict.
  cbn [_get_keydata_as_dict AtomLL_model]. unfold AtomLL._get_keydata_as_dict.
  rewrite Hkd. cbn [_key_data mbind result_bind]. intros [= <-].
  eexists. split; [reflexivity|].
  unfold LibInvent.__init__.
  cbn [json_roundtrip sd_Model]. rewrite Hcls, decide_True by done.
  change (set_savedict (LibInvent.retag cls ?sd)
            (__init__ cls 0.1 2000000 1 1 : BaseLL (gmap Z Z)))
    with (set_savedict
            (json_roundtrip
               (mkSave cls (smoothing atom) (estimated_keyspace atom)
                  (alpha atom) (_radius atom) (_n_observations atom)
                  (FlatDict (map (prod_map inl (λ v : Z, v)) (map_to_list kd)))))
            (__init__ cls 0.1 2000000 1 1 : BaseLL (gmap Z Z))).
  cbn [class_name smoothing estimated_keyspace alpha _radius _n_observations]
    in Hload.
  by rewrite Hload.
Qed.

Lemma LibInvent_MolLL_loads (cls : string)
    (mol : BaseLL (gmap molkey (gmap Z Z))) (kd : gmap molkey (gmap Z Z)) :
  class_name mol = "MolLL"%string → _key_data mol = Some kd →
  ∃ sd, get_savedict mol = Ok sd
        ∧ LibInvent.__init__ (KD := gmap molkey (gmap Z Z)) cls "MolLL"
            (json_roundtrip sd)
          = Ok (mkLL cls (smoothing mol) (estimated_keyspace mol)
                     (alpha mol) (_radius mol) (Some kd)
                     (_n_observations mol)).
Proof.
  intros Hcls Hkd.
  destruct (MolLL_load_saved
              (mkLL cls (smoothing mol) (estimated_keyspace mol)
                    (alpha mol) (_radius mol) (Some kd)
                    (_n_observations mol))
              (__init__ cls 0.1 2000000 1 1) kd eq_refl eq_refl)
    as (sd' & Hsd' & _ & Hload).
  revert Hsd'. unfold get_savedict.
  cbn [_get_keydata_as_dict MolLL_model]. unfold MolLL._get_keydata_as_dict.
  rewrite Hkd. cbn [_key_data mbind result_bind]. intros [= <-].
  eexists. split; [reflexivity|].
  unfold LibInvent.__init__.
  cbn [json_roundtrip sd_Model]. rewrite Hcls, decide_True by done.
  change (set_savedict (LibInvent.retag cls ?sd)
            (__init__ cls 0.1 2000000 1 1 : BaseLL (gmap molkey (gmap Z Z))))
    with (set_savedict
            (json_roundtrip
               (mkSave cls (smoothing mol) (estimated_keyspace mol)
                  (alpha mol) (_radius mol) (_n_observations mol)
                  (NestedDict
                     (map (prod_map key_to_py
                             (λ c : gmap Z Z,
                                map (prod_map inl (λ v : Z, v)) (map_to_list c)))
                          (map_to_list kd)))))
            (__init__ cls 0.1 2000000 1 1 : BaseLL (gmap molkey (gmap Z Z)))).
  cbn [class_name smoothing estimated_keyspace alpha _radius _n_observations]
    in Hload.
  by rewrite Hload.
Qed.

End PrecomputedLoads.

(** X21 — Given as its data file what [save] writes for a base-class model
    that holds statistics (an ["AtomLL"] model for the three precomputed
    frequency models, a ["MolLL"] model for the three count-distribution
    ones), the constructor of a precomputed model succeeds: the object it
    builds has the precomputed class's name, the saved model's
    configuration, observation count and statistics instead of the
    constructor's defaults, and it gives every molecule the score the saved
    model gives. *)
Theorem LibInvent_loads_base_model
    (atom : BaseLL (gmap Z Z)) (mol : BaseLL (gmap molkey (gmap Z Z)))
    (atom_kd : gmap Z Z) (mol_kd : gmap molkey (gmap Z Z)) :
  class_name atom = "AtomLL"%string → _key_data atom = Some atom_kd →
  class_name mol = "MolLL"%string → _key_data mol = Some mol_kd →
  ∃ atom_sd mol_sd,
    get_savedict atom = Ok atom_sd
    ∧ get_savedict mol = Ok mol_sd
    ∧ (∀ cls ctor,
         (cls, ctor) ∈ [("LibInventAtomLLr1"%string, LibInvent.LibInventAtomLLr1);
                        ("LibInventAtomLLr2"%string, LibInvent.LibInventAtomLLr2);
                        ("LibInventAtomLLr3"%string, LibInvent.LibInventAtomLLr3)] →
         ∃ loaded,
           ctor (json_roundtrip atom_sd) = Ok loaded
           ∧ loaded = mkLL cls (smoothing atom) (estimated_keyspace atom)
                           (alpha atom) (_radius atom) (Some atom_kd)
                           (_n_observations atom)
           ∧ ∀ m, fst (calculate_ll m loaded) = fst (calculate_ll m atom))
    ∧ (∀ cls ctor,
         (cls, ctor) ∈ [("LibInventMolLLr1"%string, LibInvent.LibInventMolLLr1);
                        ("LibInventMolLLr2"%string, LibInvent.LibInventMolLLr2);
                        ("LibInventMolLLr3"%string, LibInvent.LibInventMolLLr3)] →
         ∃ loaded,
           ctor (json_roundtrip mol_sd) = Ok loaded
           ∧ loaded = mkLL cls (smoothing mol) (estimated_keyspace mol)
                           (alpha mol) (_radius mol) (Some mol_kd)
                           (_n_observations mol)
           ∧ ∀ m, fst (calculate_ll m loaded) = fst (calculate_ll m mol)).
Proof.
  intros Hacls Hakd Hmcls Hmkd.
  assert (∃ atom_sd, get_savedict atom = Ok atom_sd) as [atom_sd Hasd].
  { destruct (LibInvent_AtomLL_loads "" atom atom_kd Hacls Hakd) as (sd & ? & _).
    by exists sd. }
  assert (∃ mol_sd, get_savedict mol = Ok mol_sd) as [mol_sd Hmsd].
  { destruct (LibInvent_MolLL_loads "" mol mol_kd Hmcls Hmkd) as (sd & ? & _).
    by exists sd. }
  exists atom_sd, mol_sd. split; [done|]. split; [done|].
  split; intros cls ctor Hin.
  - assert (ctor = LibInvent.__init__ (KD := gmap Z Z) cls "AtomLL") as ->.
    { repeat (apply elem_of_cons in Hin as [[= -> ->]|Hin]); try done.
      by apply elem_of_nil in Hin. }
    destruct (LibInvent_AtomLL_loads cls atom atom_kd Hacls Hakd)
      as (sd & Hsd & Hload).
    rewrite Hasd in Hsd. injection Hsd as <-.
    eexists. split; [exact Hload|]. split; [done|].
    intros m. cbn [calculate_ll AtomLL_model]. rewrite <- Hakd.
    apply AtomLL_score_class_name.
  - assert (ctor = LibInvent.__init__ (KD := gmap molkey (gmap Z Z)) cls "MolLL")
      as ->.
    { repeat (apply elem_of_cons in Hin as [[= -> ->]|Hin]); try done.
      by apply elem_of_nil in Hin. }
    destruct (LibInvent_MolLL_loads cls mol mol_kd Hmcls Hmkd)
      as (sd & Hsd & Hload).
    rewrite Hmsd in Hsd. injection Hsd as <-.
    eexists. split; [exact Hload|]. split; [done|].
    intros m. cbn [calculate_ll MolLL_model]. rewrite <- Hmkd.
    apply MolLL_score_class_name.
Qed.

Lemma LibInvent_loads_base_model_witness :
  ∃ atom_sd mol_sd,
    get_savedict scenario_fitted = Ok atom_sd
    ∧ get_savedict thrice_fitted = Ok mol_sd
    ∧ (∀ cls ctor,
         (cls, ctor) ∈ [("LibInventAtomLLr1"%string, LibInvent.LibInventAtomLLr1);
                        ("LibInventAtomLLr2"%string, LibInvent.LibInventAtomLLr2);
                        ("LibInventAtomLLr3"%string, LibInvent.LibInventAtomLLr3)] →
         ∃ loaded,
           ctor (json_roundtrip atom_sd) = Ok loaded
           ∧ loaded = mkLL cls (smoothing scenario_fitted)
                           (estimated_keyspace scenario_fitted)
                           (alpha scenario_fitted) (_radius scenario_fitted)
                           (Some {[1 := 3; 2 := 1; 3 := 3]})
                           (_n_observations scenario_fitted)
           ∧ ∀ m, fst (calculate_ll m loaded)
                  = fst (calculate_ll m scenario_fitted))
    ∧ (∀ cls ctor,
         (cls, ctor) ∈ [("LibInventMolLLr1"%string, LibInvent.LibInventMolLLr1);
                        ("LibInventMolLLr2"%string, LibInvent.LibInventMolLLr2);
                        ("LibInventMolLLr3"%string, LibInvent.LibInventMolLLr3)] →
         ∃ loaded,
           ctor (json_roundtrip mol_sd) = Ok loaded
           ∧ loaded = mkLL cls (smoothing thrice_fitted)
                           (estimated_keyspace thrice_fitted)
                           (alpha thrice_fitted) (_radius thrice_fitted)
                           (Some {[Fragment 7 := {[1 := 0; 2 := 1; 3 := 1]};
                                   SampleObservationSum
                                   := {[1 := 0; 2 := 1; 3 := 1]}]})
                           (_n_observations thrice_fitted)
           ∧ ∀ m, fst (calculate_ll m loaded)
                  = fst (calculate_ll m thrice_fitted)).
Proof.
  apply (LibInvent_loads_base_model scenario_fitted thrice_fitted);
    reflexivity.
Defined.

Section PrecomputedSaves.

Lemma LibInvent_AtomLL_built (cls : string) (file : savedict)
    (loaded : BaseLL (gmap Z Z)) :
  LibInvent.__init__ cls "AtomLL" file = Ok loaded →
  class_name loaded = cls ∧ ∃ kd, _key_data loaded = Some kd.
Proof.
  rewrite LibInvent_init_eq.
  destruct (decide (sd_Model file = "AtomLL"%string)) as [_|_]; [|done].
  cbn [_set_keydata_from_dict AtomLL_model].
  destruct (AtomLL._set_keydata_from_dict _ _) as [[u|e] s] eqn:Hset; [|done].
  intros [= <-]. apply AtomLL_set_keydata_ok in Hset as [kd ->].
  split; [done|]. by exists kd.
Qed.

Lemma LibInvent_MolLL_built (cls : string) (file : savedict)
    (loaded : BaseLL (gmap molkey (gmap Z Z))) :
  LibInvent.__init__ cls "MolLL" file = Ok loaded →
  class_name loaded = cls ∧ ∃ kd, _key_data loaded = Some kd.
Proof.
  rewrite LibInvent_init_eq.
  destruct (decide (sd_Model file = "MolLL"%string)) as [_|_]; [|done].
  cbn [_set_keydata_from_dict MolLL_model].
  destruct (MolLL._set_keydata_from_dict _ _) as [[u|e] s] eqn:Hset; [|done].
  intros [= <-]. apply MolLL_set_keydata_ok in Hset as [kd ->].
  split; [done|]. by exists kd.
Qed.

Lemma get_savedict_Model `{LLModel KD} (self : BaseLL KD) (sd : savedict) :
  get_savedict self = Ok sd → sd_Model sd = class_name self.
Proof.
  unfold get_savedict. destruct (_get_keydata_as_dict self) as [d|e]; [|done].
  by intros [= <-].
Qed.

End PrecomputedSaves.

(** X22 — What a precomputed model saves carries the precomputed class's
    own name as its tag. So the record cannot be given back to the
    constructor that built the model, nor loaded into a model of the base
    class: both raise the type-mismatch error ([AssertionError]). Loaded
    into an existing object of the same precomputed class, it restores the
    model exactly. (The data file of a frequency model is taken to hold a
    flat dict of counts, as the files [save] writes for that class do.) *)
Theorem LibInvent_saved_record
    (file : savedict) (cls : string) :
  (∀ ctor (loaded : BaseLL (gmap Z Z)),
     (cls, ctor) ∈ [("LibInventAtomLLr1"%string, LibInvent.LibInventAtomLLr1);
                    ("LibInventAtomLLr2"%string, LibInvent.LibInventAtomLLr2);
                    ("LibInventAtomLLr3"%string, LibInvent.LibInventAtomLLr3)] →
     (∃ items, sd__key_data file = FlatDict items) →
     ctor file = Ok loaded →
     ∃ sd,
       get_savedict loaded = Ok sd
       ∧ sd_Model sd = cls
       ∧ ctor (json_roundtrip sd) = Raise AssertionError
       ∧ (∀ base : BaseLL (gmap Z Z),
            class_name base = "AtomLL"%string →
            set_savedict (json_roundtrip sd) base = (Raise AssertionError, base))
       ∧ (∀ other : BaseLL (gmap Z Z),
            class_name other = cls →
            set_savedict (json_roundtrip sd) other = (Ok (), loaded)))
  ∧ (∀ ctor (loaded : BaseLL (gmap molkey (gmap Z Z))),
       (cls, ctor) ∈ [("LibInventMolLLr1"%string, LibInvent.LibInventMolLLr1);
                      ("LibInventMolLLr2"%string, LibInvent.LibInventMolLLr2);
                      ("LibInventMolLLr3"%string, LibInvent.LibInventMolLLr3)] →
       ctor file = Ok loaded →
       ∃ sd,
         get_savedict loaded = Ok sd
         ∧ sd_Model sd = cls
         ∧ ctor (json_roundtrip sd) = Raise AssertionError
         ∧ (∀ base : BaseLL (gmap molkey (gmap Z Z)),
              class_name base = "MolLL"%string →
              set_savedict (json_roundtrip sd) base
              = (Raise AssertionError, base))
         ∧ (∀ other : BaseLL (gmap molkey (gmap Z Z)),
              class_name other = cls →
              set_savedict (json_roundtrip sd) other = (Ok (), loaded))).
Proof.
  split; [intros ctor loaded Hin _ Hctor|intros ctor loaded Hin Hctor].
  - assert (ctor = LibInvent.__init__ (KD := gmap Z Z) cls "AtomLL"
            ∧ cls ≠ "AtomLL"%string) as [-> Hcls].
    { repeat (apply elem_of_cons in Hin as [[= -> ->]|Hin]); try done.
      by apply elem_of_nil in Hin. }
    destruct (LibInvent_AtomLL_built cls file loaded Hctor) as [Hname [kd Hkd]].
    destruct (AtomLL_load_saved loaded loaded kd Hkd eq_refl)
      as (sd & Hsd & _ & _).
    pose proof (get_savedict_Model loaded sd Hsd) as Hmodel.
    rewrite Hname in Hmodel.
    exists sd. split; [done|]. split; [done|]. split; [|split].
    + apply LibInvent_AtomLL_assertion. cbn [json_roundtrip sd_Model].
      by rewrite Hmodel.
    + intros base Hbase. unfold set_savedict. cbn [json_roundtrip sd_Model].
      rewrite decide_False; [done|]. by rewrite Hmodel, Hbase.
    + intros other Hother.
      destruct (AtomLL_load_saved loaded other kd Hkd) as (sd' & Hsd' & _ & Hload);
        [by rewrite Hname|].
      rewrite Hsd in Hsd'. by injection Hsd' as <-.
  - assert (ctor = LibInvent.__init__ (KD := gmap molkey (gmap Z Z)) cls "MolLL"
            ∧ cls ≠ "MolLL"%string) as [-> Hcls].
    { repeat (apply elem_of_cons in Hin as [[= -> ->]|Hin]); try done.
      by apply elem_of_nil in Hin. }
    destruct (LibInvent_MolLL_built cls file loaded Hctor) as [Hname [kd Hkd]].
    destruct (MolLL_load_saved loaded loaded kd Hkd eq_refl)
      as (sd & Hsd & _ & _).
    pose proof (get_savedict_Model loaded sd Hsd) as Hmodel.
    rewrite Hname in Hmodel.
    exists sd. split; [done|]. split; [done|]. split; [|split].
    + apply LibInvent_MolLL_assertion. cbn [json_roundtrip sd_Model].
      by rewrite Hmodel.
    + intros base Hbase. unfold set_savedict. cbn [json_roundtrip sd_Model].
      rewrite decide_False; [done|]. by rewrite Hmodel, Hbase.
    + intros other Hother.
      destruct (MolLL_load_saved loaded other kd Hkd) as (sd' & Hsd' & _ & Hload);
        [by rewrite Hname|].
      rewrite Hsd in Hsd'. by injection Hsd' as <-.
Qed.

Lemma LibInvent_saved_record_witness :
  ∃ sd,
    get_savedict (mkLL "LibInventAtomLLr1" 0.1 10 0 1
                       (Some ({[1 := 3; 2 := 1; 3 := 3]} : gmap Z Z)) 7) = Ok sd
    ∧ sd_Model sd = "LibInventAtomLLr1"%string
    ∧ LibInvent.LibInventAtomLLr1 (json_roundtrip sd) = Raise AssertionError
    ∧ (∀ base : BaseLL (gmap Z Z),
         class_name base = "AtomLL"%string →
         set_savedict (json_roundtrip sd) base = (Raise AssertionError, base))
    ∧ (∀ other : BaseLL (gmap Z Z),
         class_name other = "LibInventAtomLLr1"%string →
         set_savedict (json_roundtrip sd) other
         = (Ok (), mkLL "LibInventAtomLLr1" 0.1 10 0 1
                        (Some {[1 := 3; 2 := 1; 3 := 3]}) 7)).
Proof.
  destruct (LibInvent_saved_record scenario_record "LibInventAtomLLr1")
    as [Hatom _].
  apply (Hatom LibInvent.LibInventAtomLLr1).
  - apply elem_of_cons. by left.
  - by eexists.
  - vm_compute. reflexivity.
Defined.

(** ** The order of the training molecules *)

Section FitOrder.

Lemma foldl_comm_permutation {A B} (f : A → B → A) (l l' : list B) :
  (∀ a x y, f (f a x) y = f (f a y) x) →
  l ≡ₚ l' → ∀ a, foldl f a l = foldl f a l'.
Proof.
  intros Hf Hperm. induction Hperm as [|x l l' _ IH|x y l|l l' l'' _ IH1 _ IH2];
    intros a; cbn [foldl].
  - done.
  - apply IH.
  - by rewrite Hf.
  - by rewrite IH1.
Qed.

Lemma Counter_add_comm (c : gmap Z Z) (k1 k2 v1 v2 : Z) :
  <[k1 := Counter_get (<[k2 := Counter_get c k2 + v2]> c) k1 + v1]>
    (<[k2 := Counter_get c k2 + v2]> c)
  = <[k2 := Counter_get (<[k1 := Counter_get c k1 + v1]> c) k2 + v2]>
      (<[k1 := Counter_get c k1 + v1]> c).
Proof.
  unfold Counter_get. destruct (decide (k1 = k2)) as [->|Hne].
  - rewrite !lookup_insert_eq, !insert_insert_eq. cbn [default].
    unfold Datatypes.id.
    by replace (default 0 (c !! k2) + v2 + v1)
      with (default 0 (c !! k2) + v1 + v2) by lia.
  - rewrite lookup_insert_ne by done.
    rewrite (lookup_insert_ne _ k1 k2) by done.
    by apply insert_insert_ne.
Qed.

Lemma Counter_update_comm (c : gmap Z Z) (fp1 fp2 : fingerprint) :
  Counter_update (Counter_update c fp1) fp2
  = Counter_update (Counter_update c fp2) fp1.
Proof.
  unfold Counter_update.
  symmetry.
  apply (map_fold_comm_acc
           (λ k v acc, <[k := Counter_get acc k + Z.pos v]> acc)
           (λ c0, map_fold (λ k v acc, <[k := Counter_get acc k + Z.pos v]> acc)
                           c0 fp2)).
  intros j z y. symmetry.
  apply (map_fold_comm_acc
           (λ k v acc, <[k := Counter_get acc k + Z.pos v]> acc)
           (λ acc, <[j := Counter_get acc j + Z.pos z]> acc)).
  intros j' z' y'. apply Counter_add_comm.
Qed.

Lemma defaultdict_incr_comm (kd : gmap molkey (gmap Z Z)) k1 k2 (c1 c2 : Z) :
  defaultdict_incr (defaultdict_incr kd k1 c1) k2 c2
  = defaultdict_incr (defaultdict_incr kd k2 c2) k1 c1.
Proof.
  rewrite !defaultdict_incr_insert. destruct (decide (k1 = k2)) as [->|Hne].
  - rewrite !lookup_insert_eq, !insert_insert_eq. cbn [default]. f_equal.
    unfold Counter_incr. apply Counter_add_comm.
  - rewrite !lookup_insert_ne by done.
    by apply insert_insert_ne.
Qed.

Lemma count_mol_incr (kd : gmap molkey (gmap Z Z)) (fp : fingerprint) k (c : Z) :
  MolLL.count_mol (defaultdict_incr kd k c) fp
  = defaultdict_incr (MolLL.count_mol kd fp) k c.
Proof.
  unfold MolLL.count_mol.
  rewrite (map_fold_comm_acc
             (λ key count kd0, defaultdict_incr kd0 (Fragment key) (Z.pos count))
             (λ kd0, defaultdict_incr kd0 k c)).
  - apply defaultdict_incr_comm.
  - intros j z y. apply defaultdict_incr_comm.
Qed.

Lemma count_mol_comm (kd : gmap molkey (gmap Z Z)) (fp1 fp2 : fingerprint) :
  MolLL.count_mol (MolLL.count_mol kd fp1) fp2
  = MolLL.count_mol (MolLL.count_mol kd fp2) fp1.
Proof.
  unfold MolLL.count_mol at 2 3.
  rewrite count_mol_incr. f_equal.
  symmetry.
  apply (map_fold_comm_acc
           (λ key count kd0, defaultdict_incr kd0 (Fragment key) (Z.pos count))
           (λ kd0, MolLL.count_mol kd0 fp2)).
  intros j z y. symmetry. apply count_mol_incr.
Qed.

End FitOrder.

(** X23 — The order of the training molecules does not matter: fitting a
    model of either class on a reordering of the same collection leaves the
    same model (the same statistics and the same observation count). *)
Theorem fit_order_irrelevant
    (atom : BaseLL (gmap Z Z)) (mol : BaseLL (gmap molkey (gmap Z Z)))
    (mols mols' : list Mol) :
  mols ≡ₚ mols' →
  AtomLL.fit mols atom = AtomLL.fit mols' atom
  ∧ MolLL.fit mols mol = MolLL.fit mols' mol.
Proof.
  intros Hperm. rewrite !AtomLL_fit_eq, !MolLL_fit_eq.
  assert (atom_key_data (_radius atom) mols
          = atom_key_data (_radius atom) mols') as ->.
  { unfold atom_key_data. apply foldl_comm_permutation; [|done].
    intros a x y. apply Counter_update_comm. }
  assert (raw_key_data (_radius mol) mols
          = raw_key_data (_radius mol) mols') as ->.
  { unfold raw_key_data. apply foldl_comm_permutation; [|done].
    intros a x y. apply count_mol_comm. }
  done.
Qed.

Lemma fit_order_irrelevant_witness :
  AtomLL.fit [once; thrice] scenario_model
  = AtomLL.fit [thrice; once] scenario_model
  ∧ MolLL.fit [once; thrice] default_MolLL
    = MolLL.fit [thrice; once] default_MolLL.
Proof.
  apply (fit_order_irrelevant scenario_model default_MolLL
           [once; thrice] [thrice; once]).
  apply perm_swap.
Defined.

(** ** The score of [MolLL] in closed form *)


(** X24 — For a count-distribution model that holds statistics without
    negative entries, with a positive smoothing prior, a positive
    denominator and an exponent [alpha] in its documented range, from 0 to
    1, the score of a molecule with at least one fragment (and a number of
    fragment occurrences below [2 ** 63]) is the sum of
    [ln(likelihood) * counts] over the molecule's fragments and the
    reserved pair, divided by the atom count to the power [alpha]; and that
    atom count is twice the molecule's number of fragment occurrences,
    since the reserved pair adds the total once more. *)
Theorem MolLL_score_closed_form
    (self : BaseLL (gmap molkey (gmap Z Z))) (kd : gmap molkey (gmap Z Z))
    (m : Mol) :
  _key_data self = Some kd →
  (0 < smoothing self)%R → (0 < denominator self)%R →
  (∀ key counts, 0 <= MolLL_stat kd key counts) →
  _get_fp self m ≠ ∅ →
  (0 <= alpha self <= 1)%R →
  Z.of_N (sum_values (_get_fp self m)) < 2 ^ 63 →
  fst (MolLL.calculate_ll m self)
  = Ok (Rdiv (MolLL_loglik_sum self kd (MolLL.scored_pairs (_get_fp self m)))
             (Rpower (IZR (2 * Z.of_N (sum_values (_get_fp self m))))
                     (alpha self))).
Proof.
  intros Hkd Hs Hd Hstat Hfp Ha Hsize.
  destruct (MolLL_calculate_ll_reads self m) as [-> _]. unfold MolLL_score.
  rewrite (MolLL_loop_sum self kd _ 0%R 0%N Hkd Hs Hd Hstat).
  cbn [mbind result_bind]. rewrite scored_pairs_total.
  pose proof (sum_values_pos _ Hfp) as Hpos.
  destruct (sum_values (_get_fp self m)) as [|p] eqn:Hsum; [lia|].
  change (0 + (N.pos p + N.pos p))%N with (N.pos (p + p)).
  rewrite correct_for_atoms_pos by (done || lia). f_equal. f_equal; [lra|].
  f_equal. f_equal. lia.
Qed.

Lemma MolLL_score_closed_form_witness :
  fst (MolLL.calculate_ll thrice thrice_fitted)
  = Ok (Rdiv (MolLL_loglik_sum thrice_fitted
                {[Fragment 7 := {[1 := 0; 2 := 1; 3 := 1]};
                  SampleObservationSum := {[1 := 0; 2 := 1; 3 := 1]}]}
                (MolLL.scored_pairs (_get_fp thrice_fitted thrice)))
             (Rpower (IZR (2 * Z.of_N (sum_values (_get_fp thrice_fitted thrice))))
                     (alpha thrice_fitted))).
Proof.
  apply (MolLL_score_closed_form thrice_fitted _ thrice).
  - reflexivity.
  - simpl. lra.
  - unfold denominator. simpl. lra.
  - intros key counts. unfold MolLL_stat. apply Counter_get_nonneg.
    destruct (_ !! key) as [c|] eqn:Hkey; cbn [default].
    + apply lookup_insert_Some in Hkey as [[_ <-]|[_ Hkey]].
      * apply (bool_decide_unpack _). vm_compute. exact I.
      * apply lookup_singleton_Some in Hkey as [_ <-].
        apply (bool_decide_unpack _). vm_compute. exact I.
    + apply map_Forall_empty.
  - apply (bool_decide_unpack _). vm_compute. exact I.
  - simpl. lra.
  - vm_compute. reflexivity.
Defined.

(** ** The observed keyspace of [MolLL] *)

Section ObservedKeyspace.

Implicit Types self : BaseLL (gmap molkey (gmap Z Z)).
Implicit Types kd : gmap molkey (gmap Z Z).

Lemma sizes_insert_empty kd key :
  kd !! key = None →
  map_fold (λ _ (counter : gmap Z Z) n, (n + size counter)%nat) 0%nat
           (<[key := ∅]> kd)
  = map_fold (λ _ (counter : gmap Z Z) n, (n + size counter)%nat) 0%nat kd.
Proof.
  intros Hnone. rewrite map_fold_insert_L; [|intros; lia|done].
  rewrite map_size_empty. lia.
Qed.

Lemma score_pair_observed_keyspace key counts acc s :
  MolLL.observed_keyspace (snd (MolLL.score_pair key counts acc s))
  = MolLL.observed_keyspace s.
Proof.
  unfold MolLL.score_pair.
  destruct (_key_data s) as [kd1|] eqn:Hkd1; [|done].
  unfold defaultdict_get.
  destruct (kd1 !! key) as [c|] eqn:Hkey; cbn [snd].
  - by rewrite set_key_data_self.
  - unfold MolLL.observed_keyspace. rewrite Hkd1. cbn [set_key_data _key_data].
    by rewrite sizes_insert_empty.
Qed.

Lemma sizes_ge_size kd :
  map_Forall (λ _ (counter : gmap Z Z), (1 <= size counter)%nat) kd →
  (size kd
   <= map_fold (λ _ (counter : gmap Z Z) n, (n + size counter)%nat) 0%nat kd)%nat.
Proof.
  apply (map_fold_weak_ind
    (λ r (m : gmap molkey (gmap Z Z)),
       map_Forall (λ _ (counter : gmap Z Z), (1 <= size counter)%nat) m →
       (size m <= r)%nat)).
  - intros _. rewrite map_size_empty. lia.
  - intros key counter m r Hnone IH Hall.
    apply map_Forall_insert in Hall as [Hone Hall]; [|done].
    rewrite map_size_insert_None by done. specialize (IH Hall). lia.
Qed.

Lemma smoothed_has_key_1 (c : gmap Z Z) : raw_ok c → (1 <= size (smoothed c))%nat.
Proof.
  intros Hok. pose proof Hok as [Hne _].
  destruct (counter_top_exists c Hne) as [top Htop].
  destruct (smooth_counter_lookup c (raw_ok_frequencies c Hok) top Htop)
    as (s & Hs & Hlook).
  unfold smoothed. rewrite Hs.
  assert (is_Some (s !! 1)) as [v Hv].
  { rewrite Hlook. destruct (decide (2 <= 1 <= top)); [lia|].
    by rewrite decide_True. }
  assert (size s ≠ 0%nat); [|lia].
  apply map_size_non_empty_iff. intros ->. by rewrite lookup_empty in Hv.
Qed.

End ObservedKeyspace.

(** X25 — Scoring with the count-distribution model may store empty
    counters, but [observed_keyspace] cannot tell: whatever the model and
    whatever the outcome of [calculate_ll], the observed keyspace of the
    model afterwards is the one before (an empty counter adds nothing to
    the sum of the counters' lengths). *)
Theorem MolLL_observed_keyspace_stable
    (self : BaseLL (gmap molkey (gmap Z Z))) (m : Mol) :
  MolLL.observed_keyspace (snd (MolLL.calculate_ll m self))
  = MolLL.observed_keyspace self.
Proof.
  rewrite MolLL_calculate_ll_snd.
  assert (MolLL.observed_keyspace
            (snd (method_ret (R * N)%type (0%R, 0%N) self))
          = MolLL.observed_keyspace self) as Hstart by done.
  revert Hstart. generalize (method_ret (KD := gmap molkey (gmap Z Z))
                               (R * N)%type (0%R, 0%N)).
  induction (MolLL.scored_pairs (_get_fp self m)) as [|[key counts] pairs IH];
    intros m0 Hm0; cbn [foldl]; [done|].
  apply IH. unfold mbind, method_bind.
  destruct (m0 self) as [[a|e] s1]; cbn [snd] in *; [|done].
  by rewrite score_pair_observed_keyspace.
Qed.

(** X26 — After [MolLL.fit] the observed keyspace is defined, and it is at
    least the number of keys the statistics hold: every smoothed counter
    has an entry for count 1, whether or not that count was observed. *)
Theorem MolLL_observed_keyspace_fitted
    (self : BaseLL (gmap molkey (gmap Z Z))) (mols : list Mol) :
  ∃ n kd,
    MolLL.observed_keyspace (snd (MolLL.fit mols self)) = Ok n
    ∧ _key_data (snd (MolLL.fit mols self)) = Some kd
    ∧ (size kd <= n)%nat.
Proof.
  rewrite MolLL_fit_eq. unfold MolLL.observed_keyspace. cbn [snd _key_data].
  eexists _, _. split; [reflexivity|]. split; [reflexivity|].
  apply sizes_ge_size. apply map_Forall_fmap.
  intros key c Hkey. cbn. apply smoothed_has_key_1.
  by apply (raw_key_data_ok (_radius self) mols key).
Qed.
